(** * protoc-gen-openapi: a shallow embedding of the OpenAPI v3 generator

    The development follows [generator/openapi-v3.go] and its helper
    files: Go strings are byte strings ([string]), slices are lists,
    the generator's two accumulators ([requiredSchemas],
    [generatedSchemas]) are threaded explicitly through every function
    that touches them, and pointers to schema nodes that may be [nil]
    are options. *)

From Stdlib Require Import List String Ascii Bool Arith ZArith Lia.
From Stdlib Require Import Permutation Sorted DecimalString OrderedTypeEx.
From Stdlib Require PrimFloat Uint63 FloatOps FloatAxioms SpecFloat.
Import ListNotations.

Set Warnings "-register-all".

Local Open Scope list_scope.
Local Open Scope string_scope.

(* ================================================================== *)
(** ** The parts of Go's [strings] package the generator uses

    Descriptor names are protobuf identifiers, hence ASCII; case
    mapping is modelled on ASCII bytes and leaves other bytes alone. *)
(* ================================================================== *)

Module Strings.

Definition is_lower (c : ascii) : bool :=
  let n := nat_of_ascii c in (97 <=? n)%nat && (n <=? 122)%nat.

Definition is_upper (c : ascii) : bool :=
  let n := nat_of_ascii c in (65 <=? n)%nat && (n <=? 90)%nat.

Definition is_letter (c : ascii) : bool := is_lower c || is_upper c.

Definition upper_byte (c : ascii) : ascii :=
  if is_lower c then ascii_of_nat (nat_of_ascii c - 32) else c.

Definition lower_byte (c : ascii) : ascii :=
  if is_upper c then ascii_of_nat (nat_of_ascii c + 32) else c.

Fixpoint ToUpper (s : string) : string :=
  match s with
  | EmptyString => EmptyString
  | String c r => String (upper_byte c) (ToUpper r)
  end.

Fixpoint ToLower (s : string) : string :=
  match s with
  | EmptyString => EmptyString
  | String c r => String (lower_byte c) (ToLower r)
  end.

(** [s[i:j]] for [i <= j <= len s]. *)
Definition slice (s : string) (i j : nat) : string := substring i (j - i) s.

(** [s[i:]]. *)
Definition slice_from (s : string) (i : nat) : string :=
  substring i (length s - i) s.

Definition HasPrefix (s p : string) : bool := prefix p s.

Definition HasSuffix (s suf : string) : bool :=
  (length suf <=? length s)%nat
  && String.eqb (slice_from s (length s - length suf)) suf.

Definition TrimSuffix (s suf : string) : string :=
  if HasSuffix s suf then slice s 0 (length s - length suf) else s.

(** Byte offset of the first occurrence of [sep] in [s]. *)
Definition Index (s sep : string) : option nat := index 0 sep s.

(** [strings.Replace(s, old, new, 1)]: only the first occurrence. *)
Definition ReplaceFirst (s old new : string) : string :=
  match Index s old with
  | Some i => slice s 0 i ++ new ++ slice_from s (i + length old)
  | None => s
  end.

(** [strings.Split(s, sep)] for a one-byte separator. *)
Fixpoint split_byte (sep : ascii) (s : string) (cur : string) : list string :=
  match s with
  | EmptyString => [cur]
  | String c r =>
      if Ascii.eqb c sep then cur :: split_byte sep r EmptyString
      else split_byte sep r (cur ++ String c EmptyString)
  end.

Definition Split (s : string) (sep : ascii) : list string :=
  split_byte sep s EmptyString.

Definition Join (parts : list string) (sep : string) : string :=
  concat sep parts.

(** [strings.SplitN(s, sep, 2)] for a one-byte separator. *)
Definition SplitN2 (s : string) (sep : ascii) : list string :=
  match Index s (String sep EmptyString) with
  | Some i => [slice s 0 i; slice_from s (i + 1)]
  | None => [s]
  end.

(** [strings.Replace(s, "\n", "", -1)]: every occurrence of one byte
    is dropped. *)
Fixpoint remove_byte (b : ascii) (s : string) : string :=
  match s with
  | EmptyString => EmptyString
  | String c r => if Ascii.eqb c b then remove_byte b r
                  else String c (remove_byte b r)
  end.

Definition is_space (c : ascii) : bool :=
  let n := nat_of_ascii c in
  ((9 <=? n)%nat && (n <=? 13)%nat) || (n =? 32)%nat.

Fixpoint trim_left (s : string) : string :=
  match s with
  | EmptyString => EmptyString
  | String c r => if is_space c then trim_left r else s
  end.

Fixpoint rev_string (s : string) : string :=
  match s with
  | EmptyString => EmptyString
  | String c r => rev_string r ++ String c EmptyString
  end.

(** [strings.TrimSpace], on the ASCII white space. *)
Definition TrimSpace (s : string) : string :=
  rev_string (trim_left (rev_string (trim_left s))).

End Strings.

Import Strings.

(** [contains] (utils.go): membership in a slice of strings. *)
Fixpoint contains (s : list string) (e : string) : bool :=
  match s with
  | [] => false
  | a :: r => if String.eqb a e then true else contains r e
  end.

(** [appendUnique] (utils.go). *)
Definition appendUnique (s : list string) (e : string) : list string :=
  if negb (contains s e) then (s ++ [e])%list else s.

(** [singular] (utils.go). *)
Definition singular (plural : string) : string :=
  if HasSuffix plural "ves" then TrimSuffix plural "ves" ++ "f"
  else if HasSuffix plural "ies" then TrimSuffix plural "ies" ++ "y"
  else if HasSuffix plural "s" then TrimSuffix plural "s"
  else plural.

(* ================================================================== *)
(** ** Descriptors: what the host hands to the generator
    (protoreflect / protogen, seen through the accessors the code calls) *)
(* ================================================================== *)

(** [protoreflect.Kind]. *)
Inductive Kind : Set :=
| BoolKind | EnumKind | Int32Kind | Sint32Kind | Uint32Kind
| Int64Kind | Sint64Kind | Uint64Kind | Sfixed32Kind | Fixed32Kind
| FloatKind | Sfixed64Kind | Fixed64Kind | DoubleKind | StringKind
| BytesKind | MessageKind | GroupKind.

(** [Kind.String()]. *)
Definition Kind_String (k : Kind) : string :=
  match k with
  | BoolKind => "bool" | EnumKind => "enum" | Int32Kind => "int32"
  | Sint32Kind => "sint32" | Uint32Kind => "uint32" | Int64Kind => "int64"
  | Sint64Kind => "sint64" | Uint64Kind => "uint64"
  | Sfixed32Kind => "sfixed32" | Fixed32Kind => "fixed32"
  | FloatKind => "float" | Sfixed64Kind => "sfixed64"
  | Fixed64Kind => "fixed64" | DoubleKind => "double"
  | StringKind => "string" | BytesKind => "bytes"
  | MessageKind => "message" | GroupKind => "group"
  end.

(** What the code reads of a [protoreflect.MessageDescriptor]: its own
    name, the name of its parent when the parent is a message, and the
    package of its file. *)
Record MessageDescriptor : Set := {
  md_Name : string;
  md_ParentMessage : option string;
  md_Package : string
}.

(** [annotations.FieldBehavior]. *)
Inductive FieldBehavior : Set :=
| FIELD_BEHAVIOR_UNSPECIFIED | OPTIONAL | REQUIRED | OUTPUT_ONLY
| INPUT_ONLY | IMMUTABLE.

(** protoc-gen-validate rule messages, restricted to the fields the
    generator reads.  Optional scalars are options; the getters below
    return the zero value when the field is absent, as the generated
    Go getters do. *)
Inductive WellKnown : Set :=
| WK_Email (b : bool) | WK_Hostname (b : bool) | WK_Ip (b : bool)
| WK_Ipv4 (b : bool) | WK_Ipv6 (b : bool) | WK_Uri (b : bool)
| WK_UriRef (b : bool) | WK_Uuid (b : bool) | WK_Other.

Record StringRules : Set := {
  sr_MinLen : option Z;            (* uint64 *)
  sr_MaxLen : option Z;            (* uint64 *)
  sr_Pattern : option string;
  sr_WellKnown : option WellKnown  (* oneof well_known *)
}.

Record Int32Rules : Set := { i32_Gte : option Z; i32_Lte : option Z }.
Record Int64Rules : Set := { i64_Gte : option Z; i64_Lte : option Z }.
Record EnumRules : Set := { er_Const : option Z; er_NotIn : option (list Z) }.

Inductive FieldRules : Set :=
| Rules_None                              (* oneof type not set *)
| Rules_String (r : StringRules)
| Rules_Int32 (r : Int32Rules)
| Rules_Int64 (r : Int64Rules)
| Rules_Enum (r : EnumRules)
| Rules_Repeated (min_items max_items : option Z) (items : option FieldRules)
| Rules_Other.                            (* any other arm of the oneof *)

Definition GetString_ (r : FieldRules) : option StringRules :=
  match r with Rules_String s => Some s | _ => None end.
Definition GetInt32 (r : FieldRules) : option Int32Rules :=
  match r with Rules_Int32 s => Some s | _ => None end.
Definition GetInt64 (r : FieldRules) : option Int64Rules :=
  match r with Rules_Int64 s => Some s | _ => None end.
Definition GetEnum (r : FieldRules) : option EnumRules :=
  match r with Rules_Enum s => Some s | _ => None end.

Definition getZ (o : option Z) : Z := match o with Some z => z | None => 0%Z end.
Definition getS (o : option string) : string :=
  match o with Some s => s | None => "" end.

Definition GetEmail (r : StringRules) : bool :=
  match sr_WellKnown r with Some (WK_Email b) => b | _ => false end.
Definition GetHostname (r : StringRules) : bool :=
  match sr_WellKnown r with Some (WK_Hostname b) => b | _ => false end.
Definition GetIp (r : StringRules) : bool :=
  match sr_WellKnown r with Some (WK_Ip b) => b | _ => false end.
Definition GetIpv4 (r : StringRules) : bool :=
  match sr_WellKnown r with Some (WK_Ipv4 b) => b | _ => false end.
Definition GetIpv6 (r : StringRules) : bool :=
  match sr_WellKnown r with Some (WK_Ipv6 b) => b | _ => false end.
Definition GetUri (r : StringRules) : bool :=
  match sr_WellKnown r with Some (WK_Uri b) => b | _ => false end.
Definition GetUriRef (r : StringRules) : bool :=
  match sr_WellKnown r with Some (WK_UriRef b) => b | _ => false end.
Definition GetUuid (r : StringRules) : bool :=
  match sr_WellKnown r with Some (WK_Uuid b) => b | _ => false end.

(** [protoreflect.FieldDescriptor].  [fd_Message] is meaningful for
    message and group kinds, [fd_Enum] (the value names, in declaration
    order) for the enum kind, [fd_MapValue] (the descriptor returned by
    [MapValue()]) is present exactly for map fields. *)
Inductive FieldDescriptor : Set := Build_FieldDescriptor {
  fd_Name : string;
  fd_JSONName : string;
  fd_Kind : Kind;
  fd_IsList : bool;
  fd_MapValue : option FieldDescriptor;
  fd_Message : MessageDescriptor;
  fd_Enum : list string;
  fd_Rules : option FieldRules;             (* validate.E_Rules *)
  fd_Behavior : option (list FieldBehavior) (* annotations.E_FieldBehavior *)
}.

(** [field.IsMap()]: a field is a map exactly when it has a map value. *)
Definition fd_IsMap (field : FieldDescriptor) : bool :=
  match fd_MapValue field with Some _ => true | None => false end.

(** [protogen.Field]: the descriptor and the leading comment. *)
Record Field : Set := {
  f_Desc : FieldDescriptor;
  f_Leading : string
}.

(** [protogen.Message], with nested declarations. *)
Inductive Message : Set := Build_Message {
  m_Desc : MessageDescriptor;
  m_Fields : list Field;
  m_Messages : list Message;
  m_Leading : string;
  m_Resource : option (list string)  (* annotations.E_Resource: rule.Pattern *)
}.

(** [annotations.HttpRule]. *)
Inductive HttpPattern : Set :=
| HttpRule_Get (p : string) | HttpRule_Put (p : string)
| HttpRule_Post (p : string) | HttpRule_Delete (p : string)
| HttpRule_Patch (p : string)
| HttpRule_Custom (kind path : string)
| HttpRule_Unset.

Record HttpRule : Set := { hr_Pattern : HttpPattern; hr_Body : string }.

Record Method : Set := {
  meth_GoName : string;
  meth_Leading : string;
  meth_Input : Message;
  meth_Output : Message;
  meth_Http : option HttpRule        (* annotations.E_Http *)
}.

Record Service : Set := {
  svc_GoName : string;
  svc_Leading : string;
  svc_Methods : list Method
}.

Record File : Set := {
  file_Generate : bool;
  file_Services : list Service;
  file_Messages : list Message
}.

Record Configuration : Set := {
  conf_Version : string;
  conf_Title : string;
  conf_Description : string;
  conf_Naming : string;
  conf_Validate : bool
}.

(* ================================================================== *)
(** ** The OpenAPI document (gnostic's [openapiv3] structs) *)
(* ================================================================== *)

Definition float64 : Set := PrimFloat.float.

(** [float64(v)] for a signed integer that fits in 64 bits: round to
    nearest, ties to even. *)
Definition float64_of_int (v : Z) : float64 :=
  if (v <? 0)%Z then
    if (v =? - 2 ^ 63)%Z then PrimFloat.opp (PrimFloat.mul PrimFloat.two
                        (PrimFloat.of_uint63 (Uint63.of_Z (2 ^ 62))))
    else PrimFloat.opp (PrimFloat.of_uint63 (Uint63.of_Z (- v)))
  else PrimFloat.of_uint63 (Uint63.of_Z v).

(** [int64(v)] for an unsigned 64-bit [v]: two's complement wrap. *)
Definition int64_of_uint64 (v : Z) : Z :=
  if (v <? 2 ^ 63)%Z then v else (v - 2 ^ 64)%Z.

Record Any : Set := { Yaml : string }.

(** A [Schema] whose nested schema pointers have type [child]; the
    pointers that the code may leave [nil] are options. *)
Record SchemaOf (child : Set) : Set := {
  Schema_Type : string;
  Schema_Format : string;
  Schema_Description : string;
  Schema_Nullable : bool;
  Schema_ReadOnly : bool;
  Schema_WriteOnly : bool;
  Schema_Pattern : string;
  Schema_Minimum : float64;
  Schema_Maximum : float64;
  Schema_MinLength : Z;
  Schema_MaxLength : Z;
  Schema_MinItems : Z;
  Schema_MaxItems : Z;
  Schema_Enum : list Any;
  Schema_Required : list string;
  Schema_Items : option (list (option child));           (* *ItemsItem *)
  Schema_AdditionalProperties : option (option child);   (* *AdditionalPropertiesItem *)
  Schema_Properties : option (list (string * child))     (* *Properties *)
}.

Arguments Schema_Type {child}.
Arguments Schema_Format {child}.
Arguments Schema_Description {child}.
Arguments Schema_Nullable {child}.
Arguments Schema_ReadOnly {child}.
Arguments Schema_WriteOnly {child}.
Arguments Schema_Pattern {child}.
Arguments Schema_Minimum {child}.
Arguments Schema_Maximum {child}.
Arguments Schema_MinLength {child}.
Arguments Schema_MaxLength {child}.
Arguments Schema_MinItems {child}.
Arguments Schema_MaxItems {child}.
Arguments Schema_Enum {child}.
Arguments Schema_Required {child}.
Arguments Schema_Items {child}.
Arguments Schema_AdditionalProperties {child}.
Arguments Schema_Properties {child}.

(** [SchemaOrReference]: the oneof of an inline schema and a [$ref]. *)
Inductive SchemaOrReference : Set :=
| SchemaOrReference_Reference (XRef : string)
| SchemaOrReference_Schema (s : SchemaOf SchemaOrReference).

Definition Schema : Set := SchemaOf SchemaOrReference.

(** [&v3.Schema{}]: every field at its zero value. *)
Definition Schema_zero : Schema :=
  {| Schema_Type := ""; Schema_Format := ""; Schema_Description := "";
     Schema_Nullable := false; Schema_ReadOnly := false;
     Schema_WriteOnly := false; Schema_Pattern := "";
     Schema_Minimum := PrimFloat.zero; Schema_Maximum := PrimFloat.zero;
     Schema_MinLength := 0; Schema_MaxLength := 0;
     Schema_MinItems := 0; Schema_MaxItems := 0;
     Schema_Enum := []; Schema_Required := [];
     Schema_Items := None; Schema_AdditionalProperties := None;
     Schema_Properties := None |}.

(** Field assignments [schema.X = v], as functional updates. *)
Definition set_Type (v : string) (s : Schema) : Schema :=
  {| Schema_Type := v; Schema_Format := Schema_Format s;
     Schema_Description := Schema_Description s;
     Schema_Nullable := Schema_Nullable s;
     Schema_ReadOnly := Schema_ReadOnly s;
     Schema_WriteOnly := Schema_WriteOnly s;
     Schema_Pattern := Schema_Pattern s; Schema_Minimum := Schema_Minimum s;
     Schema_Maximum := Schema_Maximum s;
     Schema_MinLength := Schema_MinLength s;
     Schema_MaxLength := Schema_MaxLength s;
     Schema_MinItems := Schema_MinItems s;
     Schema_MaxItems := Schema_MaxItems s; Schema_Enum := Schema_Enum s;
     Schema_Required := Schema_Required s; Schema_Items := Schema_Items s;
     Schema_AdditionalProperties := Schema_AdditionalProperties s;
     Schema_Properties := Schema_Properties s |}.

Definition set_Format (v : string) (s : Schema) : Schema :=
  {| Schema_Type := Schema_Type s; Schema_Format := v;
     Schema_Description := Schema_Description s;
     Schema_Nullable := Schema_Nullable s;
     Schema_ReadOnly := Schema_ReadOnly s;
     Schema_WriteOnly := Schema_WriteOnly s;
     Schema_Pattern := Schema_Pattern s; Schema_Minimum := Schema_Minimum s;
     Schema_Maximum := Schema_Maximum s;
     Schema_MinLength := Schema_MinLength s;
     Schema_MaxLength := Schema_MaxLength s;
     Schema_MinItems := Schema_MinItems s;
     Schema_MaxItems := Schema_MaxItems s; Schema_Enum := Schema_Enum s;
     Schema_Required := Schema_Required s; Schema_Items := Schema_Items s;
     Schema_AdditionalProperties := Schema_AdditionalProperties s;
     Schema_Properties := Schema_Properties s |}.

Definition set_Description (v : string) (s : Schema) : Schema :=
  {| Schema_Type := Schema_Type s; Schema_Format := Schema_Format s;
     Schema_Description := v; Schema_Nullable := Schema_Nullable s;
     Schema_ReadOnly := Schema_ReadOnly s;
     Schema_WriteOnly := Schema_WriteOnly s;
     Schema_Pattern := Schema_Pattern s; Schema_Minimum := Schema_Minimum s;
     Schema_Maximum := Schema_Maximum s;
     Schema_MinLength := Schema_MinLength s;
     Schema_MaxLength := Schema_MaxLength s;
     Schema_MinItems := Schema_MinItems s;
     Schema_MaxItems := Schema_MaxItems s; Schema_Enum := Schema_Enum s;
     Schema_Required := Schema_Required s; Schema_Items := Schema_Items s;
     Schema_AdditionalProperties := Schema_AdditionalProperties s;
     Schema_Properties := Schema_Properties s |}.

Definition set_Nullable (v : bool) (s : Schema) : Schema :=
  {| Schema_Type := Schema_Type s; Schema_Format := Schema_Format s;
     Schema_Description := Schema_Description s; Schema_Nullable := v;
     Schema_ReadOnly := Schema_ReadOnly s;
     Schema_WriteOnly := Schema_WriteOnly s;
     Schema_Pattern := Schema_Pattern s; Schema_Minimum := Schema_Minimum s;
     Schema_Maximum := Schema_Maximum s;
     Schema_MinLength := Schema_MinLength s;
     Schema_MaxLength := Schema_MaxLength s;
     Schema_MinItems := Schema_MinItems s;
     Schema_MaxItems := Schema_MaxItems s; Schema_Enum := Schema_Enum s;
     Schema_Required := Schema_Required s; Schema_Items := Schema_Items s;
     Schema_AdditionalProperties := Schema_AdditionalProperties s;
     Schema_Properties := Schema_Properties s |}.

Definition set_ReadOnly (v : bool) (s : Schema) : Schema :=
  {| Schema_Type := Schema_Type s; Schema_Format := Schema_Format s;
     Schema_Description := Schema_Description s;
     Schema_Nullable := Schema_Nullable s; Schema_ReadOnly := v;
     Schema_WriteOnly := Schema_WriteOnly s;
     Schema_Pattern := Schema_Pattern s; Schema_Minimum := Schema_Minimum s;
     Schema_Maximum := Schema_Maximum s;
     Schema_MinLength := Schema_MinLength s;
     Schema_MaxLength := Schema_MaxLength s;
     Schema_MinItems := Schema_MinItems s;
     Schema_MaxItems := Schema_MaxItems s; Schema_Enum := Schema_Enum s;
     Schema_Required := Schema_Required s; Schema_Items := Schema_Items s;
     Schema_AdditionalProperties := Schema_AdditionalProperties s;
     Schema_Properties := Schema_Properties s |}.

Definition set_WriteOnly (v : bool) (s : Schema) : Schema :=
  {| Schema_Type := Schema_Type s; Schema_Format := Schema_Format s;
     Schema_Description := Schema_Description s;
     Schema_Nullable := Schema_Nullable s;
     Schema_ReadOnly := Schema_ReadOnly s; Schema_WriteOnly := v;
     Schema_Pattern := Schema_Pattern s; Schema_Minimum := Schema_Minimum s;
     Schema_Maximum := Schema_Maximum s;
     Schema_MinLength := Schema_MinLength s;
     Schema_MaxLength := Schema_MaxLength s;
     Schema_MinItems := Schema_MinItems s;
     Schema_MaxItems := Schema_MaxItems s; Schema_Enum := Schema_Enum s;
     Schema_Required := Schema_Required s; Schema_Items := Schema_Items s;
     Schema_AdditionalProperties := Schema_AdditionalProperties s;
     Schema_Properties := Schema_Properties s |}.

Definition set_Pattern (v : string) (s : Schema) : Schema :=
  {| Schema_Type := Schema_Type s; Schema_Format := Schema_Format s;
     Schema_Description := Schema_Description s;
     Schema_Nullable := Schema_Nullable s;
     Schema_ReadOnly := Schema_ReadOnly s;
     Schema_WriteOnly := Schema_WriteOnly s; Schema_Pattern := v;
     Schema_Minimum := Schema_Minimum s; Schema_Maximum := Schema_Maximum s;
     Schema_MinLength := Schema_MinLength s;
     Schema_MaxLength := Schema_MaxLength s;
     Schema_MinItems := Schema_MinItems s;
     Schema_MaxItems := Schema_MaxItems s; Schema_Enum := Schema_Enum s;
     Schema_Required := Schema_Required s; Schema_Items := Schema_Items s;
     Schema_AdditionalProperties := Schema_AdditionalProperties s;
     Schema_Properties := Schema_Properties s |}.

Definition set_Minimum (v : float64) (s : Schema) : Schema :=
  {| Schema_Type := Schema_Type s; Schema_Format := Schema_Format s;
     Schema_Description := Schema_Description s;
     Schema_Nullable := Schema_Nullable s;
     Schema_ReadOnly := Schema_ReadOnly s;
     Schema_WriteOnly := Schema_WriteOnly s;
     Schema_Pattern := Schema_Pattern s; Schema_Minimum := v;
     Schema_Maximum := Schema_Maximum s;
     Schema_MinLength := Schema_MinLength s;
     Schema_MaxLength := Schema_MaxLength s;
     Schema_MinItems := Schema_MinItems s;
     Schema_MaxItems := Schema_MaxItems s; Schema_Enum := Schema_Enum s;
     Schema_Required := Schema_Required s; Schema_Items := Schema_Items s;
     Schema_AdditionalProperties := Schema_AdditionalProperties s;
     Schema_Properties := Schema_Properties s |}.

Definition set_Maximum (v : float64) (s : Schema) : Schema :=
  {| Schema_Type := Schema_Type s; Schema_Format := Schema_Format s;
     Schema_Description := Schema_Description s;
     Schema_Nullable := Schema_Nullable s;
     Schema_ReadOnly := Schema_ReadOnly s;
     Schema_WriteOnly := Schema_WriteOnly s;
     Schema_Pattern := Schema_Pattern s; Schema_Minimum := Schema_Minimum s;
     Schema_Maximum := v; Schema_MinLength := Schema_MinLength s;
     Schema_MaxLength := Schema_MaxLength s;
     Schema_MinItems := Schema_MinItems s;
     Schema_MaxItems := Schema_MaxItems s; Schema_Enum := Schema_Enum s;
     Schema_Required := Schema_Required s; Schema_Items := Schema_Items s;
     Schema_AdditionalProperties := Schema_AdditionalProperties s;
     Schema_Properties := Schema_Properties s |}.

Definition set_MinLength (v : Z) (s : Schema) : Schema :=
  {| Schema_Type := Schema_Type s; Schema_Format := Schema_Format s;
     Schema_Description := Schema_Description s;
     Schema_Nullable := Schema_Nullable s;
     Schema_ReadOnly := Schema_ReadOnly s;
     Schema_WriteOnly := Schema_WriteOnly s;
     Schema_Pattern := Schema_Pattern s; Schema_Minimum := Schema_Minimum s;
     Schema_Maximum := Schema_Maximum s; Schema_MinLength := v;
     Schema_MaxLength := Schema_MaxLength s;
     Schema_MinItems := Schema_MinItems s;
     Schema_MaxItems := Schema_MaxItems s; Schema_Enum := Schema_Enum s;
     Schema_Required := Schema_Required s; Schema_Items := Schema_Items s;
     Schema_AdditionalProperties := Schema_AdditionalProperties s;
     Schema_Properties := Schema_Properties s |}.

Definition set_MaxLength (v : Z) (s : Schema) : Schema :=
  {| Schema_Type := Schema_Type s; Schema_Format := Schema_Format s;
     Schema_Description := Schema_Description s;
     Schema_Nullable := Schema_Nullable s;
     Schema_ReadOnly := Schema_ReadOnly s;
     Schema_WriteOnly := Schema_WriteOnly s;
     Schema_Pattern := Schema_Pattern s; Schema_Minimum := Schema_Minimum s;
     Schema_Maximum := Schema_Maximum s;
     Schema_MinLength := Schema_MinLength s; Schema_MaxLength := v;
     Schema_MinItems := Schema_MinItems s;
     Schema_MaxItems := Schema_MaxItems s; Schema_Enum := Schema_Enum s;
     Schema_Required := Schema_Required s; Schema_Items := Schema_Items s;
     Schema_AdditionalProperties := Schema_AdditionalProperties s;
     Schema_Properties := Schema_Properties s |}.

Definition set_MinItems (v : Z) (s : Schema) : Schema :=
  {| Schema_Type := Schema_Type s; Schema_Format := Schema_Format s;
     Schema_Description := Schema_Description s;
     Schema_Nullable := Schema_Nullable s;
     Schema_ReadOnly := Schema_ReadOnly s;
     Schema_WriteOnly := Schema_WriteOnly s;
     Schema_Pattern := Schema_Pattern s; Schema_Minimum := Schema_Minimum s;
     Schema_Maximum := Schema_Maximum s;
     Schema_MinLength := Schema_MinLength s;
     Schema_MaxLength := Schema_MaxLength s; Schema_MinItems := v;
     Schema_MaxItems := Schema_MaxItems s; Schema_Enum := Schema_Enum s;
     Schema_Required := Schema_Required s; Schema_Items := Schema_Items s;
     Schema_AdditionalProperties := Schema_AdditionalProperties s;
     Schema_Properties := Schema_Properties s |}.

Definition set_MaxItems (v : Z) (s : Schema) : Schema :=
  {| Schema_Type := Schema_Type s; Schema_Format := Schema_Format s;
     Schema_Description := Schema_Description s;
     Schema_Nullable := Schema_Nullable s;
     Schema_ReadOnly := Schema_ReadOnly s;
     Schema_WriteOnly := Schema_WriteOnly s;
     Schema_Pattern := Schema_Pattern s; Schema_Minimum := Schema_Minimum s;
     Schema_Maximum := Schema_Maximum s;
     Schema_MinLength := Schema_MinLength s;
     Schema_MaxLength := Schema_MaxLength s;
     Schema_MinItems := Schema_MinItems s; Schema_MaxItems := v;
     Schema_Enum := Schema_Enum s; Schema_Required := Schema_Required s;
     Schema_Items := Schema_Items s;
     Schema_AdditionalProperties := Schema_AdditionalProperties s;
     Schema_Properties := Schema_Properties s |}.

Definition set_Enum (v : list Any) (s : Schema) : Schema :=
  {| Schema_Type := Schema_Type s; Schema_Format := Schema_Format s;
     Schema_Description := Schema_Description s;
     Schema_Nullable := Schema_Nullable s;
     Schema_ReadOnly := Schema_ReadOnly s;
     Schema_WriteOnly := Schema_WriteOnly s;
     Schema_Pattern := Schema_Pattern s; Schema_Minimum := Schema_Minimum s;
     Schema_Maximum := Schema_Maximum s;
     Schema_MinLength := Schema_MinLength s;
     Schema_MaxLength := Schema_MaxLength s;
     Schema_MinItems := Schema_MinItems s;
     Schema_MaxItems := Schema_MaxItems s; Schema_Enum := v;
     Schema_Required := Schema_Required s; Schema_Items := Schema_Items s;
     Schema_AdditionalProperties := Schema_AdditionalProperties s;
     Schema_Properties := Schema_Properties s |}.

Definition set_Required (v : list string) (s : Schema) : Schema :=
  {| Schema_Type := Schema_Type s; Schema_Format := Schema_Format s;
     Schema_Description := Schema_Description s;
     Schema_Nullable := Schema_Nullable s;
     Schema_ReadOnly := Schema_ReadOnly s;
     Schema_WriteOnly := Schema_WriteOnly s;
     Schema_Pattern := Schema_Pattern s; Schema_Minimum := Schema_Minimum s;
     Schema_Maximum := Schema_Maximum s;
     Schema_MinLength := Schema_MinLength s;
     Schema_MaxLength := Schema_MaxLength s;
     Schema_MinItems := Schema_MinItems s;
     Schema_MaxItems := Schema_MaxItems s; Schema_Enum := Schema_Enum s;
     Schema_Required := v; Schema_Items := Schema_Items s;
     Schema_AdditionalProperties := Schema_AdditionalProperties s;
     Schema_Properties := Schema_Properties s |}.

Definition set_Items (v : option (list (option SchemaOrReference)))
    (s : Schema) : Schema :=
  {| Schema_Type := Schema_Type s; Schema_Format := Schema_Format s;
     Schema_Description := Schema_Description s;
     Schema_Nullable := Schema_Nullable s;
     Schema_ReadOnly := Schema_ReadOnly s;
     Schema_WriteOnly := Schema_WriteOnly s;
     Schema_Pattern := Schema_Pattern s; Schema_Minimum := Schema_Minimum s;
     Schema_Maximum := Schema_Maximum s;
     Schema_MinLength := Schema_MinLength s;
     Schema_MaxLength := Schema_MaxLength s;
     Schema_MinItems := Schema_MinItems s;
     Schema_MaxItems := Schema_MaxItems s; Schema_Enum := Schema_Enum s;
     Schema_Required := Schema_Required s; Schema_Items := v;
     Schema_AdditionalProperties := Schema_AdditionalProperties s;
     Schema_Properties := Schema_Properties s |}.

Definition set_AdditionalProperties (v : option (option SchemaOrReference))
    (s : Schema) : Schema :=
  {| Schema_Type := Schema_Type s; Schema_Format := Schema_Format s;
     Schema_Description := Schema_Description s;
     Schema_Nullable := Schema_Nullable s;
     Schema_ReadOnly := Schema_ReadOnly s;
     Schema_WriteOnly := Schema_WriteOnly s;
     Schema_Pattern := Schema_Pattern s; Schema_Minimum := Schema_Minimum s;
     Schema_Maximum := Schema_Maximum s;
     Schema_MinLength := Schema_MinLength s;
     Schema_MaxLength := Schema_MaxLength s;
     Schema_MinItems := Schema_MinItems s;
     Schema_MaxItems := Schema_MaxItems s; Schema_Enum := Schema_Enum s;
     Schema_Required := Schema_Required s; Schema_Items := Schema_Items s;
     Schema_AdditionalProperties := v;
     Schema_Properties := Schema_Properties s |}.

Definition set_Properties (v : option (list (string * SchemaOrReference)))
    (s : Schema) : Schema :=
  {| Schema_Type := Schema_Type s; Schema_Format := Schema_Format s;
     Schema_Description := Schema_Description s;
     Schema_Nullable := Schema_Nullable s;
     Schema_ReadOnly := Schema_ReadOnly s;
     Schema_WriteOnly := Schema_WriteOnly s;
     Schema_Pattern := Schema_Pattern s; Schema_Minimum := Schema_Minimum s;
     Schema_Maximum := Schema_Maximum s;
     Schema_MinLength := Schema_MinLength s;
     Schema_MaxLength := Schema_MaxLength s;
     Schema_MinItems := Schema_MinItems s;
     Schema_MaxItems := Schema_MaxItems s; Schema_Enum := Schema_Enum s;
     Schema_Required := Schema_Required s; Schema_Items := Schema_Items s;
     Schema_AdditionalProperties := Schema_AdditionalProperties s;
     Schema_Properties := v |}.

Record NamedSchemaOrReference : Set := {
  nsr_Name : string;
  nsr_Value : SchemaOrReference
}.

Record Parameter_ : Set := {
  Param_Name : string;
  Param_In : string;
  Param_Description : string;
  Param_Required : bool;
  Param_Schema : SchemaOrReference
}.

Record MediaType : Set := { MediaType_Schema : option SchemaOrReference }.

Record NamedMediaType : Set := {
  nmt_Name : string;
  nmt_Value : MediaType
}.

(** [MediaTypes.AdditionalProperties]. *)
Definition MediaTypes : Set := list NamedMediaType.

Record RequestBody : Set := {
  RequestBody_Required : bool;
  RequestBody_Content : MediaTypes
}.

Record Response : Set := {
  Response_Description : string;
  Response_Content : MediaTypes
}.

Record NamedResponse : Set := {
  nr_Name : string;
  nr_Value : Response
}.

Record Operation : Set := {
  Op_Tags : list string;
  Op_Summary : string;
  Op_Description : string;
  Op_OperationId : string;
  Op_Parameters : list Parameter_;
  Op_RequestBody : option RequestBody;
  Op_Responses : list NamedResponse
}.

Record PathItem : Set := {
  PathItem_Get : option Operation;
  PathItem_Put : option Operation;
  PathItem_Post : option Operation;
  PathItem_Delete : option Operation;
  PathItem_Patch : option Operation
}.

Record NamedPathItem : Set := {
  npi_Name : string;
  npi_Value : PathItem
}.

Record Tag : Set := {
  Tag_Name : string;
  Tag_Description : string
}.

Record Info : Set := {
  Info_Title : string;
  Info_Version : string;
  Info_Description : string
}.

Record Document : Set := {
  Doc_Openapi : string;
  Doc_Info : Info;
  Doc_Paths : list NamedPathItem;      (* d.Paths.Path *)
  Doc_Schemas : list NamedSchemaOrReference;
                                       (* d.Components.Schemas.AdditionalProperties *)
  Doc_Tags : list Tag
}.

(** The two accumulators of [OpenAPIv3Generator]. *)
Record Generator : Set := {
  requiredSchemas : list string;
  generatedSchemas : list string
}.

(** [NewOpenAPIv3Generator]. *)
Definition NewOpenAPIv3Generator : Generator :=
  {| requiredSchemas := []; generatedSchemas := [] |}.

(* ================================================================== *)
(** ** Naming *)
(* ================================================================== *)

Section Naming.

Variable conf : Configuration.

(** [formatMessageRef]. *)
Definition formatMessageRef (name : string) : string :=
  if String.eqb (conf_Naming conf) "proto" then name
  else if (1 <? length name)%nat then
    ToUpper (slice name 0 1) ++ slice_from name 1
  else if (length name =? 1)%nat then ToLower name
  else name.

(** [getMessageName]. *)
Definition getMessageName (message : MessageDescriptor) : string :=
  let prefix :=
    match md_ParentMessage message with
    | Some parent => parent ++ "_" ++ ""
    | None => ""
    end in
  prefix ++ md_Name message.

(** [formatMessageName]. *)
Definition formatMessageName (message : Message) : string :=
  let name := getMessageName (m_Desc message) in
  if String.eqb (conf_Naming conf) "proto" then name
  else if (0 <? length name)%nat then
    ToUpper (slice name 0 1) ++ slice_from name 1
  else name.

(** [formatFieldName]. *)
Definition formatFieldName (field : Field) : string :=
  if String.eqb (conf_Naming conf) "proto" then fd_Name (f_Desc field)
  else fd_JSONName (f_Desc field).

(** [findAndFormatFieldName]. *)
Fixpoint findAndFormatFieldName_in (name : string) (fields : list Field)
  : string :=
  match fields with
  | [] => name
  | field :: rest =>
      if String.eqb (fd_Name (f_Desc field)) name then formatFieldName field
      else findAndFormatFieldName_in name rest
  end.

Definition findAndFormatFieldName (name : string) (inMessage : Message)
  : string :=
  findAndFormatFieldName_in name (m_Fields inMessage).

(** [fullMessageTypeName]. *)
Definition fullMessageTypeName (message : MessageDescriptor) : string :=
  let name := getMessageName message in
  "." ++ md_Package message ++ "." ++ name.

(** The last element of a non-empty slice ([parts[len(parts)-1]]). *)
Definition lastPart (typeName : string) : string :=
  last (Split typeName ".") "".

(** [schemaReferenceForTypeName]: registers the type name as required
    and returns the reference string. *)
Definition schemaReferenceForTypeName (typeName : string) (g : Generator)
  : string * Generator :=
  let g' :=
    if negb (contains (requiredSchemas g) typeName)
    then {| requiredSchemas := (requiredSchemas g ++ [typeName])%list;
            generatedSchemas := generatedSchemas g |}
    else g in
  ("#/components/schemas/" ++ formatMessageRef (lastPart typeName), g').

End Naming.

Definition defaultConf : Configuration :=
  {| conf_Version := "1.2.3"; conf_Title := ""; conf_Description := "";
     conf_Naming := "json"; conf_Validate := true |}.

Definition protoConf : Configuration :=
  {| conf_Version := "0.0.1"; conf_Title := ""; conf_Description := "";
     conf_Naming := "proto"; conf_Validate := true |}.

(* ================================================================== *)
(** ** Schema translator *)
(* ================================================================== *)

Definition inline (s : Schema) : SchemaOrReference := SchemaOrReference_Schema s.

(** [&v3.Schema{Type: t}] and [&v3.Schema{Type: t, Format: f}]. *)
Definition typed (t : string) : Schema := set_Type t Schema_zero.
Definition typed_format (t f : string) : Schema := set_Format f (typed t).

(** The enum helpers exist in three revisions of the repository. *)

(** First revision: a method of the generator, the one that
    [schemaOrReferenceForField] in [openapi-v3.go] calls as
    [g.enumKindSchema(field)]. *)
Module EnumMethod.

Fixpoint enumList (values : list string) : list Any :=
  match values with
  | [] => []
  | v :: rest =>
      if HasSuffix v "_UNSPECIFIED" then enumList rest
      else {| Yaml := v |} :: enumList rest
  end.

Definition enumKindSchema (field : FieldDescriptor) : SchemaOrReference :=
  let list := enumList (fd_Enum field) in
  inline (set_Enum list (typed "string")).

End EnumMethod.

(** Later revision: free functions; the schema also carries the format. *)
Module EnumFunc.

Fixpoint has (list : list Z) (idx : Z) : bool :=
  match list with
  | [] => false
  | v :: rest => if Z.eqb v idx then true else has rest idx
  end.

(** The loop of [enumToStringSlice] from index [i] on. *)
Fixpoint enumToStringSlice_from (i : Z) (values : list string)
    (enumValues : list Z) : list string :=
  match values with
  | [] => []
  | v :: rest =>
      if (List.length enumValues =? 0)%nat || has enumValues i then
        if HasSuffix v "_UNSPECIFIED"
        then enumToStringSlice_from (i + 1) rest enumValues
        else v :: enumToStringSlice_from (i + 1) rest enumValues
      else enumToStringSlice_from (i + 1) rest enumValues
  end.

Definition enumToStringSlice (field : FieldDescriptor) (enumValues : list Z)
  : list string :=
  enumToStringSlice_from 0 (fd_Enum field) enumValues.

Definition enumsToV3Any (field : FieldDescriptor) (enumValues : list Z)
  : list Any :=
  let stringList := enumToStringSlice field [] in
  map (fun v => {| Yaml := v |}) stringList.

Definition enumKindSchema (field : FieldDescriptor) : SchemaOrReference :=
  let list := enumsToV3Any field [] in
  inline (set_Enum list (set_Type "string" (set_Format "enum" Schema_zero))).

End EnumFunc.

(** A computation that reads and extends the generator's accumulators. *)
Definition Gen (A : Type) : Type := Generator -> A * Generator.

Definition ret {A} (a : A) : Gen A := fun g => (a, g).
Definition bind {A B} (m : Gen A) (k : A -> Gen B) : Gen B :=
  fun g => let (a, g') := m g in k a g'.

Notation "x <- m ;; k" := (bind m (fun x => k))
  (at level 61, m at next level, right associativity).

Section Translator.

Variable conf : Configuration.

(** [schemaOrReferenceForType]; [None] is the [nil] returned for
    [google.protobuf.Empty]. *)
Definition schemaOrReferenceForType (typeName : string)
  : Gen (option SchemaOrReference) :=
  if String.eqb typeName ".google.protobuf.Timestamp" then
    ret (Some (inline (typed_format "string" "date-time")))
  else if String.eqb typeName ".google.type.Date" then
    ret (Some (inline (typed_format "string" "date")))
  else if String.eqb typeName ".google.type.DateTime" then
    ret (Some (inline (typed_format "string" "date-time")))
  else if String.eqb typeName ".google.protobuf.Struct" then
    ret (Some (inline (typed "object")))
  else if String.eqb typeName ".google.protobuf.Empty" then
    ret None
  else if String.eqb typeName ".google.protobuf.BoolValue" then
    ret (Some (inline (set_Nullable true (typed "boolean"))))
  else if String.eqb typeName ".google.protobuf.BytesValue" then
    ret (Some (inline (set_Nullable true (typed_format "string" "bytes"))))
  else if String.eqb typeName ".google.protobuf.DoubleValue"
       || String.eqb typeName ".google.protobuf.FloatValue" then
    ret (Some (inline (set_Nullable true (typed_format "number" "float"))))
  else if String.eqb typeName ".google.protobuf.Int64Value"
       || String.eqb typeName ".google.protobuf.UInt64Value"
       || String.eqb typeName ".google.protobuf.Int32Value"
       || String.eqb typeName ".google.protobuf.UInt32Value" then
    ret (Some (inline (set_Nullable true (typed "integer"))))
  else if String.eqb typeName ".google.protobuf.StringValue" then
    ret (Some (inline (set_Nullable true (typed "string"))))
  else
    ref <- schemaReferenceForTypeName conf typeName ;;
    ret (Some (SchemaOrReference_Reference ref)).

(** The [switch kind] of [schemaOrReferenceForField]: the schema of one
    value of the field; [None] is a [nil] pointer. *)
Definition kindSchemaOf (field : FieldDescriptor)
  : Gen (option SchemaOrReference) :=
  match fd_Kind field with
  | MessageKind =>
      schemaOrReferenceForType (fullMessageTypeName (fd_Message field))
  | StringKind => ret (Some (inline (typed "string")))
  | Int32Kind | Sint32Kind | Uint32Kind | Int64Kind | Sint64Kind
  | Uint64Kind | Sfixed32Kind | Fixed32Kind | Sfixed64Kind | Fixed64Kind =>
      ret (Some (inline (typed_format "integer" (Kind_String (fd_Kind field)))))
  | EnumKind => ret (Some (EnumMethod.enumKindSchema field))
  | BoolKind => ret (Some (inline (typed "boolean")))
  | FloatKind | DoubleKind =>
      ret (Some (inline (typed_format "number" (Kind_String (fd_Kind field)))))
  | BytesKind => ret (Some (inline (typed_format "string" "bytes")))
  | GroupKind => ret None
  end.

Definition is_MessageKind (k : Kind) : bool :=
  match k with MessageKind => true | _ => false end.

(** [schemaOrReferenceForField]. *)
Fixpoint schemaOrReferenceForField (field : FieldDescriptor)
  : Gen (option SchemaOrReference) :=
  match fd_MapValue field with
  | Some value =>
      v <- schemaOrReferenceForField value ;;
      ret (Some (inline (set_AdditionalProperties (Some v) (typed "object"))))
  | None =>
      kindSchema <- kindSchemaOf field ;;
      match kindSchema with
      | None =>
          if is_MessageKind (fd_Kind field) then ret None
          else if fd_IsList field then
            ret (Some (inline (set_Items (Some [kindSchema]) (typed "array"))))
          else ret kindSchema
      | Some _ =>
          if fd_IsList field then
            ret (Some (inline (set_Items (Some [kindSchema]) (typed "array"))))
          else ret kindSchema
      end
  end.

(** [coalesceToStringSchema]; the schema argument may be [nil]. *)
Definition coalesceToStringSchema (schema : option SchemaOrReference)
    (allowed : list string) : SchemaOrReference :=
  let stringSchema := inline (typed "string") in
  match schema with
  | Some (SchemaOrReference_Schema t) =>
      if contains allowed (Schema_Type t)
      then SchemaOrReference_Schema t
      else stringSchema
  | _ => stringSchema
  end.

End Translator.

(* ================================================================== *)
(** ** Validation-rule projection *)
(* ================================================================== *)

(** The [if ... else if ...] chain that picks the string format. *)
Definition stringFormat (stringRules : StringRules) (old : string) : string :=
  if GetEmail stringRules then "email"
  else if GetHostname stringRules then "hostname"
  else if GetIp stringRules then "ip"
  else if GetIpv4 stringRules then "ipv4"
  else if GetIpv6 stringRules then "ipv6"
  else if GetUri stringRules then "uri"
  else if GetUriRef stringRules then "uri_ref"
  else if GetUuid stringRules then "uuid"
  else old.

Definition applyStringRules (stringRules : StringRules) (s : Schema) : Schema :=
  let s := set_Format (stringFormat stringRules (Schema_Format s)) s in
  let s := if (0 <? getZ (sr_MinLen stringRules))%Z
           then set_MinLength (int64_of_uint64 (getZ (sr_MinLen stringRules))) s
           else s in
  let s := if (0 <? getZ (sr_MaxLen stringRules))%Z
           then set_MaxLength (int64_of_uint64 (getZ (sr_MaxLen stringRules))) s
           else s in
  if negb (String.eqb (getS (sr_Pattern stringRules)) "")
  then set_Pattern (getS (sr_Pattern stringRules)) s
  else s.

(** The body shared by the [Int32Kind] and [Int64Kind] cases. *)
Definition applyBounds (gte lte : option Z) (s : Schema) : Schema :=
  let s := if (0 <? getZ gte)%Z
           then set_Minimum (float64_of_int (getZ gte)) s else s in
  if (0 <? getZ lte)%Z
  then set_Maximum (float64_of_int (getZ lte)) s else s.

(** [addValidationRules] as in [generator/validate.go] (and, with the
    same body, in [generator/openapi-v3.go]). *)
Definition addValidationRules (fieldSchema : SchemaOrReference)
    (field : FieldDescriptor) : SchemaOrReference :=
  match fd_Rules field with
  | None => fieldSchema
  | Some fieldRules =>
      match fieldSchema with
      | SchemaOrReference_Reference _ => fieldSchema
      | SchemaOrReference_Schema schema =>
          if fd_IsMap field then fieldSchema
          else
            match fd_Kind field with
            | MessageKind => fieldSchema
            | StringKind =>
                match GetString_ fieldRules with
                | Some stringRules => inline (applyStringRules stringRules schema)
                | None => fieldSchema
                end
            | Int32Kind =>
                match GetInt32 fieldRules with
                | Some int32Rules =>
                    inline (applyBounds (i32_Gte int32Rules)
                                        (i32_Lte int32Rules) schema)
                | None => fieldSchema
                end
            | Int64Kind =>
                match GetInt64 fieldRules with
                | Some int64Rules =>
                    inline (applyBounds (i64_Gte int64Rules)
                                        (i64_Lte int64Rules) schema)
                | None => fieldSchema
                end
            | _ => fieldSchema
            end
      end
  end.

(** The later revision, which descends into repeated fields and enum
    rules.  It dereferences pointers without a check; [None] is the
    resulting run-time panic. *)
Module ItemRules.

Definition Itoa (z : Z) : string := NilZero.string_of_int (Z.to_int z).

(** [fieldRule]. *)
Definition fieldRule (fieldRules : FieldRules) (field : FieldDescriptor)
    (schema : Schema) : option Schema :=
  match fd_Kind field with
  | MessageKind => Some schema
  | StringKind =>
      match GetString_ fieldRules with
      | None => Some schema
      | Some stringRules => Some (applyStringRules stringRules schema)
      end
  | Int32Kind =>
      match GetInt32 fieldRules with
      | None => Some schema
      | Some int32Rules =>
          Some (applyBounds (i32_Gte int32Rules) (i32_Lte int32Rules) schema)
      end
  | Int64Kind =>
      match GetInt64 fieldRules with
      | None => Some schema
      | Some int64Rules =>
          Some (applyBounds (i64_Gte int64Rules) (i64_Lte int64Rules) schema)
      end
  | EnumKind =>
      match GetEnum fieldRules with
      | None => Some schema
      | Some enumRules =>
          match er_Const enumRules, er_NotIn enumRules with
          | Some c, _ => Some (set_Enum [{| Yaml := Itoa c |}] schema)
          | None, Some _ => None          (* [*enumRules.Const] with Const nil *)
          | None, None => Some schema
          end
      end
  | _ => Some schema
  end.

(** [addValidationRules]. *)
Definition addValidationRules (fieldSchema : SchemaOrReference)
    (field : FieldDescriptor) : option SchemaOrReference :=
  match fd_Rules field with
  | None => Some fieldSchema
  | Some fieldRules =>
      match fieldSchema with
      | SchemaOrReference_Reference _ => Some fieldSchema
      | SchemaOrReference_Schema schema =>
          if fd_IsMap field then Some fieldSchema
          else if fd_IsList field then
            match fieldRules with
            | Rules_Repeated min_items max_items items =>
                let schema :=
                  match min_items with
                  | Some n => set_MinItems (int64_of_uint64 n) schema
                  | None => schema
                  end in
                let schema :=
                  match max_items with
                  | Some n => set_MaxItems (int64_of_uint64 n) schema
                  | None => schema
                  end in
                match items with
                | None => Some (inline schema)
                | Some itemRules =>
                    match Schema_Items schema with
                    | Some (Some (SchemaOrReference_Schema item) :: rest) =>
                        match fieldRule itemRules field item with
                        | Some item' =>
                            Some (inline (set_Items
                                            (Some (Some (inline item') :: rest))
                                            schema))
                        | None => None
                        end
                    | _ => None
                    end
                end
            | _ => Some fieldSchema
            end
          else
            match fieldRule fieldRules field schema with
            | Some schema' => Some (inline schema')
            | None => None
            end
      end
  end.

End ItemRules.

(* ================================================================== *)
(** ** The three regular expressions of the generator

    Each is matched as Go's [regexp] does (leftmost match, greedy
    repetitions, [.] not matching a newline) by a scanner written for
    that one expression. *)
(* ================================================================== *)

Module Regexp.

Definition newline : ascii := ascii_of_nat 10.

(** The bytes of [s] before its first newline. *)
Fixpoint line_of (s : string) : string :=
  match s with
  | EmptyString => EmptyString
  | String c r => if Ascii.eqb c newline then EmptyString
                  else String c (line_of r)
  end.

Fixpoint last_index_from (sep s : string) (i : nat) (acc : option nat)
  : option nat :=
  let acc' := if prefix sep s then Some i else acc in
  match s with
  | EmptyString => acc'
  | String _ r => last_index_from sep r (S i) acc'
  end.

(** [strings.LastIndex]. *)
Definition LastIndex (s sep : string) : option nat :=
  last_index_from sep s 0 None.

(** [linterRulePattern.ReplaceAllString(s, "")] for the pattern
    [\(-- .* --\)]. *)
Fixpoint removeLinterRules_fuel (n : nat) (s : string) : string :=
  match n with
  | O => s
  | S n' =>
      match s with
      | EmptyString => EmptyString
      | String c r =>
          if prefix "(-- " s then
            let rest := slice_from s 4 in
            match LastIndex (line_of rest) " --)" with
            | Some k => removeLinterRules_fuel n' (slice_from rest (k + 4))
            | None => String c (removeLinterRules_fuel n' r)
            end
          else String c (removeLinterRules_fuel n' r)
      end
  end.

Definition removeLinterRules (s : string) : string :=
  removeLinterRules_fuel (S (length s)) s.

(** The longest prefix without ['='] and ['}'], and what follows it. *)
Fixpoint span_token (s : string) : string * string :=
  match s with
  | EmptyString => (EmptyString, EmptyString)
  | String c r =>
      if Ascii.eqb c "="%char || Ascii.eqb c "}"%char then (EmptyString, s)
      else let (a, b) := span_token r in (String c a, b)
  end.

(** [pathPattern.FindAllStringSubmatch(s, -1)] for the pattern
    [{([^=}]+)}]: the captured group of every match, in order. *)
Fixpoint pathPattern_fuel (n : nat) (s : string) : list string :=
  match n with
  | O => []
  | S n' =>
      match s with
      | EmptyString => []
      | String c r =>
          if Ascii.eqb c "{"%char then
            match span_token r with
            | (String t ts, String close rest) =>
                if Ascii.eqb close "}"%char
                then String t ts :: pathPattern_fuel n' rest
                else pathPattern_fuel n' r
            | _ => pathPattern_fuel n' r
            end
          else pathPattern_fuel n' r
      end
  end.

Definition pathPattern_FindAll (s : string) : list string :=
  pathPattern_fuel (S (length s)) s.

(** A match of [{(.+)=(.+)}] that starts at the brace just before [r]. *)
Definition namedPathPattern_here (r : string)
  : option (string * string * string) :=
  let seg := line_of r in
  match LastIndex seg "}" with
  | Some k =>
      match LastIndex (slice seg 0 (k - 1)) "=" with
      | Some j =>
          if (1 <=? j)%nat then
            Some ("{" ++ slice seg 0 (k + 1), slice seg 0 j, slice seg (j + 1) k)
          else None
      | None => None
      end
  | None => None
  end.

(** [namedPathPattern.FindStringSubmatch(s)]: the whole match and its
    two groups. *)
Fixpoint namedPathPattern_Find (s : string)
  : option (string * string * string) :=
  match s with
  | EmptyString => None
  | String c r =>
      match (if Ascii.eqb c "{"%char then namedPathPattern_here r else None) with
      | Some m => Some m
      | None => namedPathPattern_Find r
      end
  end.

End Regexp.

(* ================================================================== *)
(** ** Comments *)
(* ================================================================== *)

(** [filterCommentString]. *)
Definition filterCommentString (c : string) (removeNewLines : bool) : string :=
  let comment :=
    match SplitN2 c "|" with
    | [_; after] => after
    | _ => c
    end in
  let comment :=
    if removeNewLines then remove_byte Regexp.newline comment else comment in
  TrimSpace (Regexp.removeLinterRules comment).

(** [filterCommentStringForSummary] as in [openapi-v3.go]. *)
Definition filterCommentStringForSummary (c : string) (goName : string)
  : string :=
  let split := Split c "|" in
  let comment :=
    if (2 <=? List.length split)%nat then hd "" split else goName in
  TrimSpace (Regexp.removeLinterRules comment).

(* ================================================================== *)
(** ** Document assembler: operations *)
(* ================================================================== *)

Definition PathItem_zero : PathItem :=
  {| PathItem_Get := None; PathItem_Put := None; PathItem_Post := None;
     PathItem_Delete := None; PathItem_Patch := None |}.

(** The [switch methodName] of [addOperationV3]. *)
Definition setOperation (methodName : string) (op : Operation) (v : PathItem)
  : PathItem :=
  if String.eqb methodName "GET" then
    {| PathItem_Get := Some op; PathItem_Put := PathItem_Put v;
       PathItem_Post := PathItem_Post v; PathItem_Delete := PathItem_Delete v;
       PathItem_Patch := PathItem_Patch v |}
  else if String.eqb methodName "POST" then
    {| PathItem_Get := PathItem_Get v; PathItem_Put := PathItem_Put v;
       PathItem_Post := Some op; PathItem_Delete := PathItem_Delete v;
       PathItem_Patch := PathItem_Patch v |}
  else if String.eqb methodName "PUT" then
    {| PathItem_Get := PathItem_Get v; PathItem_Put := Some op;
       PathItem_Post := PathItem_Post v; PathItem_Delete := PathItem_Delete v;
       PathItem_Patch := PathItem_Patch v |}
  else if String.eqb methodName "DELETE" then
    {| PathItem_Get := PathItem_Get v; PathItem_Put := PathItem_Put v;
       PathItem_Post := PathItem_Post v; PathItem_Delete := Some op;
       PathItem_Patch := PathItem_Patch v |}
  else if String.eqb methodName "PATCH" then
    {| PathItem_Get := PathItem_Get v; PathItem_Put := PathItem_Put v;
       PathItem_Post := PathItem_Post v; PathItem_Delete := PathItem_Delete v;
       PathItem_Patch := Some op |}
  else v.

(** Whether the first loop of [addOperationV3] selects a path item. *)
Fixpoint hasPathItem (paths : list NamedPathItem) (path : string) : bool :=
  match paths with
  | [] => false
  | namedPathItem :: rest =>
      if String.eqb (npi_Name namedPathItem) path then true
      else hasPathItem rest path
  end.

(** The assignment through [selectedPathItem]: the first path item of
    that name is the one modified. *)
Fixpoint updateSelected (paths : list NamedPathItem) (path : string)
    (f : PathItem -> PathItem) : list NamedPathItem :=
  match paths with
  | [] => []
  | namedPathItem :: rest =>
      if String.eqb (npi_Name namedPathItem) path then
        {| npi_Name := npi_Name namedPathItem;
           npi_Value := f (npi_Value namedPathItem) |} :: rest
      else namedPathItem :: updateSelected rest path f
  end.

Definition set_Paths (paths : list NamedPathItem) (d : Document) : Document :=
  {| Doc_Openapi := Doc_Openapi d; Doc_Info := Doc_Info d; Doc_Paths := paths;
     Doc_Schemas := Doc_Schemas d; Doc_Tags := Doc_Tags d |}.

Definition set_Schemas (schemas : list NamedSchemaOrReference) (d : Document)
  : Document :=
  {| Doc_Openapi := Doc_Openapi d; Doc_Info := Doc_Info d;
     Doc_Paths := Doc_Paths d; Doc_Schemas := schemas; Doc_Tags := Doc_Tags d |}.

Definition set_Tags (tags : list Tag) (d : Document) : Document :=
  {| Doc_Openapi := Doc_Openapi d; Doc_Info := Doc_Info d;
     Doc_Paths := Doc_Paths d; Doc_Schemas := Doc_Schemas d; Doc_Tags := tags |}.

Definition set_Info (info : Info) (d : Document) : Document :=
  {| Doc_Openapi := Doc_Openapi d; Doc_Info := info;
     Doc_Paths := Doc_Paths d; Doc_Schemas := Doc_Schemas d;
     Doc_Tags := Doc_Tags d |}.

(** [addOperationV3]. *)
Definition addOperationV3 (d : Document) (op : Operation) (path : string)
    (methodName : string) : Document :=
  let paths :=
    if hasPathItem (Doc_Paths d) path then Doc_Paths d
    else (Doc_Paths d ++ [{| npi_Name := path; npi_Value := PathItem_zero |}])%list in
  set_Paths (updateSelected paths path (setOperation methodName op)) d.

(** The operation stored for a verb in a path item. *)
Definition operationOf (methodName : string) (v : PathItem) : option Operation :=
  if String.eqb methodName "GET" then PathItem_Get v
  else if String.eqb methodName "POST" then PathItem_Post v
  else if String.eqb methodName "PUT" then PathItem_Put v
  else if String.eqb methodName "DELETE" then PathItem_Delete v
  else if String.eqb methodName "PATCH" then PathItem_Patch v
  else None.

(** The path items of the document that carry a given URL template. *)
Definition pathItemsOf (d : Document) (path : string) : list NamedPathItem :=
  filter (fun i => String.eqb (npi_Name i) path) (Doc_Paths d).

(** The operation the document holds for a (path, verb) pair: that of
    the first path item of that name. *)
Definition lookupOperation (d : Document) (path methodName : string)
  : option Operation :=
  match pathItemsOf d path with
  | [] => None
  | i :: _ => operationOf methodName (npi_Value i)
  end.

Definition isVerb (methodName : string) : bool :=
  String.eqb methodName "GET" || String.eqb methodName "POST"
  || String.eqb methodName "PUT" || String.eqb methodName "DELETE"
  || String.eqb methodName "PATCH".

Section Operations.

Variable conf : Configuration.

Definition pathParameter (name description : string) : Parameter_ :=
  {| Param_Name := name; Param_In := "path"; Param_Description := description;
     Param_Required := true; Param_Schema := inline (typed "string") |}.

(** The loop over the simple path parameters: covered names, the
    rewritten path, and the formatted parameter names. *)
Fixpoint simplePathParameters (allMatches : list string) (inputMessage : Message)
    (covered : list string) (path : string) (pathParameters : list string)
  : list string * string * list string :=
  match allMatches with
  | [] => (covered, path, pathParameters)
  | m :: rest =>
      let pathParameter := findAndFormatFieldName conf m inputMessage in
      simplePathParameters rest inputMessage (covered ++ [m])%list
        (ReplaceFirst path m pathParameter)
        (pathParameters ++ [pathParameter])%list
  end.

(** The loop [for i := 0; i < len(parts)-1; i += 2] over the starred
    path: the rewritten parts and the parameter names. *)
Fixpoint namedPathParts (parts : list string) (inputMessage : Message)
  : list string * list string :=
  match parts with
  | section :: _ :: rest =>
      let namedPathParameter :=
        singular (findAndFormatFieldName conf section inputMessage) in
      let (parts', names) := namedPathParts rest inputMessage in
      (section :: ("{" ++ namedPathParameter ++ "}") :: parts',
       namedPathParameter :: names)
  | _ => (parts, [])
  end.

(** The query parameter built for one uncovered field. *)
Definition queryParameter (field : Field) : Gen Parameter_ :=
  let bodyFieldName := formatFieldName conf field in
  let fieldDescription := filterCommentString (f_Leading field) true in
  schema <- schemaOrReferenceForField conf (f_Desc field) ;;
  let schema := coalesceToStringSchema schema ["number"; "integer"] in
  let schema := addValidationRules schema (f_Desc field) in
  ret {| Param_Name := bodyFieldName; Param_In := "query";
         Param_Description := fieldDescription; Param_Required := false;
         Param_Schema := schema |}.

(** The loop that adds the unhandled fields as query parameters. *)
Fixpoint queryParameters (fields : list Field) (covered : list string)
  : Gen (list Parameter_) :=
  match fields with
  | [] => ret []
  | field :: rest =>
      if negb (contains covered (fd_Name (f_Desc field))) then
        p <- queryParameter field ;;
        ps <- queryParameters rest covered ;;
        ret (p :: ps)
      else queryParameters rest covered
  end.

(** [responseContentForMessage]. *)
Definition responseContentForMessage (outputMessage : Message) : Gen MediaTypes :=
  let typeName := fullMessageTypeName (m_Desc outputMessage) in
  if String.eqb typeName ".google.protobuf.Empty" then ret []
  else if String.eqb typeName ".google.protobuf.Struct" then ret []
  else if String.eqb typeName ".google.api.HttpBody" then
    ret [{| nmt_Name := "application/octet-stream";
            nmt_Value := {| MediaType_Schema := None |} |}]
  else
    ref <- schemaReferenceForTypeName conf
             (fullMessageTypeName (m_Desc outputMessage)) ;;
    ret [{| nmt_Name := "application/json";
            nmt_Value := {| MediaType_Schema :=
                              Some (SchemaOrReference_Reference ref) |} |}].

(** The loop that looks the body field up: the scalar type name and the
    message type name (at most one of them non-empty). *)
Fixpoint bodyFieldTypeNames (fields : list Field) (bodyField : string)
  : string * string :=
  match fields with
  | [] => ("", "")
  | field :: rest =>
      if String.eqb (fd_Name (f_Desc field)) bodyField then
        match fd_Kind (f_Desc field) with
        | StringKind => ("string", "")
        | MessageKind => ("", fullMessageTypeName (fd_Message (f_Desc field)))
        | _ => ("", "")
        end
      else bodyFieldTypeNames rest bodyField
  end.

(** The request schema of an operation with a body field. *)
Definition requestSchemaFor (bodyField : string) (inputMessage : Message)
  : Gen (option SchemaOrReference) :=
  let '(bodyFieldScalarTypeName, bodyFieldMessageTypeName) :=
    if String.eqb bodyField "*"
    then ("", fullMessageTypeName (m_Desc inputMessage))
    else bodyFieldTypeNames (m_Fields inputMessage) bodyField in
  if negb (String.eqb bodyFieldScalarTypeName "") then
    ret (Some (inline (typed bodyFieldScalarTypeName)))
  else if negb (String.eqb bodyFieldMessageTypeName "") then
    if String.eqb bodyFieldMessageTypeName ".google.protobuf.Empty"
       || String.eqb bodyFieldMessageTypeName ".google.protobuf.Struct"
    then ret (Some (inline (typed "object")))
    else
      ref <- schemaReferenceForTypeName conf bodyFieldMessageTypeName ;;
      ret (Some (SchemaOrReference_Reference ref))
  else ret None.

(** The first half of [buildOperationV3]: the covered field names,
    the rewritten path, and the names of the simple and of the named
    path parameters. *)
Definition pathParametersOf (path bodyField : string) (inputMessage : Message)
  : list string * string * list string * list string :=
  let coveredParameters :=
    if negb (String.eqb bodyField "") then [bodyField] else [] in
  let '(coveredParameters, path, pathParameters) :=
    simplePathParameters (Regexp.pathPattern_FindAll path) inputMessage
      coveredParameters path [] in
  match Regexp.namedPathPattern_Find path with
  | Some (whole, name, starredPath) =>
      let (parts, names) :=
        namedPathParts (Split starredPath "/") inputMessage in
      ((coveredParameters ++ [name])%list,
       ReplaceFirst path whole (Join parts "/"), pathParameters, names)
  | None => (coveredParameters, path, pathParameters, [])
  end.

(** [buildOperationV3]. *)
Definition buildOperationV3 (summary operationID tagName description : string)
    (path bodyField : string) (inputMessage outputMessage : Message)
  : Gen (Operation * string) :=
  let '(coveredParameters, path, pathParameters, namedPathParameters) :=
    pathParametersOf path bodyField inputMessage in
  let parameters :=
    (map (fun p => pathParameter p "") pathParameters
     ++ map (fun p => pathParameter p ("The " ++ p ++ " id."))
            namedPathParameters)%list in
  query <- (if negb (String.eqb bodyField "*")
            then queryParameters (m_Fields inputMessage) coveredParameters
            else ret []) ;;
  let parameters := (parameters ++ query)%list in
  content <- responseContentForMessage outputMessage ;;
  let responses :=
    [{| nr_Name := "200";
        nr_Value := {| Response_Description := "OK";
                       Response_Content := content |} |}] in
  requestBody <-
    (if negb (String.eqb bodyField "") then
       requestSchema <- requestSchemaFor bodyField inputMessage ;;
       ret (Some {| RequestBody_Required := true;
                    RequestBody_Content :=
                      [{| nmt_Name := "application/json";
                          nmt_Value := {| MediaType_Schema := requestSchema |} |}]
                 |})
     else ret None) ;;
  ret ({| Op_Tags := [tagName]; Op_Summary := summary;
          Op_Description := description; Op_OperationId := operationID;
          Op_Parameters := parameters; Op_RequestBody := requestBody;
          Op_Responses := responses |}, path).

End Operations.

(* ================================================================== *)
(** ** Document assembler: paths and tags *)
(* ================================================================== *)

(** The [switch pattern := rule.Pattern.(type)] of
    [addPathsToDocumentV3]: the path and the method name. *)
Definition patternBinding (pattern : HttpPattern) : string * string :=
  match pattern with
  | HttpRule_Get p => (p, "GET")
  | HttpRule_Post p => (p, "POST")
  | HttpRule_Put p => (p, "PUT")
  | HttpRule_Delete p => (p, "DELETE")
  | HttpRule_Patch p => (p, "PATCH")
  | HttpRule_Custom _ _ => ("custom-unsupported", "")
  | HttpRule_Unset => ("unknown-unsupported", "")
  end.

(** What the body of the method loop computes before it builds the
    operation: whether the method is annotated, then [path],
    [methodName] and [body]. *)
Definition methodBinding (method : Method) : bool * string * string * string :=
  match meth_Http method with
  | Some rule =>
      let (path, methodName) := patternBinding (hr_Pattern rule) in
      (true, path, methodName, hr_Body rule)
  | None => (false, "", "", "")
  end.

Section Paths.

Variable conf : Configuration.

(** One iteration of the loop over [service.Methods]; the state is the
    generator, the document and [annotationsCount]. *)
Definition addMethodV3 (service : Service) (method : Method)
    (st : Generator * Document * nat) : Generator * Document * nat :=
  let '(g, d, annotationsCount) := st in
  let comment := filterCommentString (meth_Leading method) false in
  let summary :=
    filterCommentStringForSummary (meth_Leading method) (meth_GoName method) in
  let operationID := svc_GoName service ++ "_" ++ meth_GoName method in
  let '(annotated, path, methodName, body) := methodBinding method in
  let annotationsCount :=
    if annotated then S annotationsCount else annotationsCount in
  if negb (String.eqb methodName "") then
    let '(op, path2, g') :=
      buildOperationV3 conf summary operationID (svc_GoName service) comment
        path body (meth_Input method) (meth_Output method) g in
    (g', addOperationV3 d op path2 methodName, annotationsCount)
  else (g, d, annotationsCount).

(** One iteration of the loop over [file.Services]. *)
Definition addServiceV3 (st : Generator * Document) (service : Service)
  : Generator * Document :=
  let '(g, d, annotationsCount) :=
    fold_left (fun st method => addMethodV3 service method st)
      (svc_Methods service) (fst st, snd st, O) in
  if (0 <? annotationsCount)%nat then
    let comment := filterCommentString (svc_Leading service) false in
    (g, set_Tags (Doc_Tags d ++ [{| Tag_Name := svc_GoName service;
                                    Tag_Description := comment |}])%list d)
  else (g, d).

(** [addPathsToDocumentV3]. *)
Definition addPathsToDocumentV3 (st : Generator * Document) (file : File)
  : Generator * Document :=
  fold_left addServiceV3 (file_Services file) st.

End Paths.

(* ================================================================== *)
(** ** Document assembler: component schemas *)
(* ================================================================== *)

Module ResourcePattern.

Definition is_ident (c : ascii) : bool :=
  let n := nat_of_ascii c in
  is_letter c || ((48 <=? n)%nat && (n <=? 57)%nat) || Ascii.eqb c "_"%char.

Fixpoint span_ident (s : string) : string :=
  match s with
  | EmptyString => EmptyString
  | String c r => if is_ident c then span_ident r else s
  end.

(** [pathParamsRX.ReplaceAllString(s, repl)] for [{[a-z_A-Z0-9]*}]. *)
Fixpoint replaceParams_fuel (n : nat) (s repl : string) : string :=
  match n with
  | O => s
  | S n' =>
      match s with
      | EmptyString => EmptyString
      | String c r =>
          if Ascii.eqb c "{"%char then
            match span_ident r with
            | String close rest =>
                if Ascii.eqb close "}"%char
                then repl ++ replaceParams_fuel n' rest repl
                else String c (replaceParams_fuel n' r repl)
            | EmptyString => String c (replaceParams_fuel n' r repl)
            end
          else String c (replaceParams_fuel n' r repl)
      end
  end.

Definition replaceParams (s repl : string) : string :=
  replaceParams_fuel (S (length s)) s repl.

End ResourcePattern.

Fixpoint hasBehavior (b : FieldBehavior) (v : list FieldBehavior) : bool :=
  match v with
  | [] => false
  | vv :: rest =>
      match b, vv with
      | OUTPUT_ONLY, OUTPUT_ONLY | REQUIRED, REQUIRED
      | INPUT_ONLY, INPUT_ONLY => true
      | _, _ => hasBehavior b rest
      end
  end.

Section Schemas.

Variable conf : Configuration.

(** The decoration of an inline field schema inside the field loop of
    [addSchemasToDocumentV3]. *)
Definition decorateField (field : Field) (pattern : string)
    (outputOnly inputOnly : bool) (s : Schema) : Schema :=
  let s :=
    if String.eqb (fd_Name (f_Desc field)) "name"
       && negb (String.eqb pattern "")
    then set_Pattern ("^" ++ ResourcePattern.replaceParams pattern "[a-z2-7]{26}"
                          ++ "$") s
    else s in
  let s := set_Description (filterCommentString (f_Leading field) true) s in
  let s := if outputOnly then set_ReadOnly true s else s in
  if inputOnly then set_WriteOnly true s else s.

(** One iteration of the field loop: the properties and the required
    names collected so far are extended. *)
Definition addField (pattern : string) (field : Field)
    (acc : list (string * SchemaOrReference) * list string)
  : Gen (list (string * SchemaOrReference) * list string) :=
  let (properties, requiredProperties) := acc in
  let v := match fd_Behavior (f_Desc field) with Some v => v | None => [] end in
  let outputOnly := hasBehavior OUTPUT_ONLY v in
  let inputOnly := hasBehavior INPUT_ONLY v in
  let required := hasBehavior REQUIRED v in
  fieldSchema <- schemaOrReferenceForField conf (f_Desc field) ;;
  match fieldSchema with
  | None => ret acc
  | Some fieldSchema =>
      let '(fieldSchema, requiredProperties) :=
        match fieldSchema with
        | SchemaOrReference_Schema schema =>
            (inline (decorateField field pattern outputOnly inputOnly schema),
             if required
             then (requiredProperties ++ [formatFieldName conf field])%list
             else requiredProperties)
        | SchemaOrReference_Reference _ => (fieldSchema, requiredProperties)
        end in
      let fieldSchema :=
        if conf_Validate conf
        then addValidationRules fieldSchema (f_Desc field)
        else fieldSchema in
      ret ((properties ++ [(formatFieldName conf field, fieldSchema)])%list,
           requiredProperties)
  end.

Fixpoint addFields (pattern : string) (fields : list Field)
    (acc : list (string * SchemaOrReference) * list string)
  : Gen (list (string * SchemaOrReference) * list string) :=
  match fields with
  | [] => ret acc
  | field :: rest =>
      acc' <- addField pattern field acc ;;
      addFields pattern rest acc'
  end.

(** The body of the message loop of [addSchemasToDocumentV3], after
    the recursive call on the nested messages. *)
Definition addMessageSchema (message : Message) (st : Generator * Document)
  : Generator * Document :=
  let (g, d) := st in
  let pattern :=
    match m_Resource message with
    | Some (p :: _) => p
    | _ => ""
    end in
  let typeName := fullMessageTypeName (m_Desc message) in
  if negb (contains (requiredSchemas g) typeName)
     || contains (generatedSchemas g) typeName
  then (g, d)
  else
    let g := {| requiredSchemas := requiredSchemas g;
                generatedSchemas := (generatedSchemas g ++ [typeName])%list |} in
    let messageDescription := filterCommentString (m_Leading message) true in
    let '(properties, requiredProperties, g) :=
      addFields pattern (m_Fields message) ([], []) g in
    (g,
     set_Schemas
       (Doc_Schemas d
        ++ [{| nsr_Name := formatMessageName conf message;
               nsr_Value :=
                 inline (set_Required requiredProperties
                          (set_Properties (Some properties)
                            (set_Description messageDescription Schema_zero)))
            |}])%list d).

(** [addSchemasToDocumentV3] on one message: nested messages first. *)
Fixpoint addSchemasForMessage (message : Message) (st : Generator * Document)
  : Generator * Document :=
  addMessageSchema message
    (fold_left (fun st nested => addSchemasForMessage nested st)
       (m_Messages message) st).

(** [addSchemasToDocumentV3]. *)
Definition addSchemasToDocumentV3 (st : Generator * Document)
    (messages : list Message) : Generator * Document :=
  fold_left (fun st message => addSchemasForMessage message st) messages st.

(** One pass of the closure loop: every file's messages. *)
Definition addAllSchemas (files : list File) (st : Generator * Document)
  : Generator * Document :=
  fold_left (fun st file => addSchemasToDocumentV3 st (file_Messages file))
    files st.

(** The loop [for len(g.requiredSchemas) > 0 { ... }] of
    [buildDocumentV3], bounded by [fuel] iterations of its test. *)
Fixpoint schemaClosure (fuel : nat) (files : list File)
    (st : Generator * Document) : option (Generator * Document) :=
  match fuel with
  | O => None
  | S fuel' =>
      if (0 <? List.length (requiredSchemas (fst st)))%nat then
        let count := List.length (requiredSchemas (fst st)) in
        let (g, d) := addAllSchemas files st in
        schemaClosure fuel' files
          ({| requiredSchemas := skipn count (requiredSchemas g);
              generatedSchemas := generatedSchemas g |}, d)
      else Some st
  end.

End Schemas.

(* ================================================================== *)
(** ** Canonical order *)
(* ================================================================== *)

(** [sort.Slice(pairs, less)] with [less] comparing a string key of
    the entries byte by byte.  Go's library sorts a short slice (up to
    twelve entries; up to six before Go 1.19) by the insertion sort
    below, in which each entry moves left past the entries that are
    strictly greater.  For a longer slice it promises an ordered
    rearrangement of the input and nothing about the order among
    entries with equal keys; what is proved of the sorted lists of a
    document uses that promise only ([sortsByKey]). *)
Section SortSlice.

Context {A : Type} (key : A -> string).

Fixpoint insertSorted (x : A) (sorted : list A) : list A :=
  match sorted with
  | [] => [x]
  | y :: rest =>
      if String.ltb (key x) (key y) then x :: y :: rest
      else y :: insertSorted x rest
  end.

Definition sortSlice (pairs : list A) : list A :=
  fold_left (fun sorted x => insertSorted x sorted) pairs [].

(** Entries in non-decreasing order of their keys. *)
Definition keyOrdered (l : list A) : Prop :=
  StronglySorted (fun x y => String.ltb (key y) (key x) = false) l.

End SortSlice.

(* ================================================================== *)
(** ** [buildDocumentV3] *)
(* ================================================================== *)

Section Build.

Variable conf : Configuration.

(** The document before any file is read. *)
Definition initialDocument : Document :=
  {| Doc_Openapi := "3.0.3";
     Doc_Info := {| Info_Title := conf_Title conf;
                    Info_Version := conf_Version conf;
                    Info_Description := conf_Description conf |};
     Doc_Paths := []; Doc_Schemas := []; Doc_Tags := [] |}.

(** The loop over the files that are marked for generation. *)
Definition addAllPaths (files : list File) (st : Generator * Document)
  : Generator * Document :=
  fold_left (fun st file =>
               if file_Generate file then addPathsToDocumentV3 conf st file
               else st) files st.

(** The title taken from a single service. *)
Definition inferTitle (d : Document) : Document :=
  match Doc_Tags d with
  | [tag] =>
      let info := Doc_Info d in
      let title :=
        if String.eqb (Info_Title info) ""
           && negb (String.eqb (Tag_Name tag) "")
        then Tag_Name tag ++ " API" else Info_Title info in
      let description :=
        if String.eqb (Info_Description info) ""
        then Tag_Description tag else Info_Description info in
      set_Tags [{| Tag_Name := Tag_Name tag; Tag_Description := "" |}]
        (set_Info {| Info_Title := title; Info_Version := Info_Version info;
                     Info_Description := description |} d)
  | _ => d
  end.

(** The three final sorts. *)
Definition sortDocument (d : Document) : Document :=
  {| Doc_Openapi := Doc_Openapi d; Doc_Info := Doc_Info d;
     Doc_Paths := sortSlice npi_Name (Doc_Paths d);
     Doc_Schemas := sortSlice nsr_Name (Doc_Schemas d);
     Doc_Tags := sortSlice Tag_Name (Doc_Tags d) |}.

(** The state when the closure loop is entered. *)
Definition beforeClosure (files : list File) : Generator * Document :=
  let (g, d) := addAllPaths files (NewOpenAPIv3Generator, initialDocument) in
  (g, inferTitle d).

(** [buildDocumentV3]; [fuel] bounds the closure loop. *)
Definition buildDocumentV3 (fuel : nat) (files : list File) : option Document :=
  match schemaClosure conf fuel files (beforeClosure files) with
  | Some (_, d) => Some (sortDocument d)
  | None => None
  end.

End Build.

(* ================================================================== *)
(** ** Vocabulary of the statements *)
(* ================================================================== *)

(** A top-level message of a given name. *)
Definition topLevel (pkg name : string) (fields : list Field)
    (nested : list Message) : Message :=
  {| m_Desc := {| md_Name := name; md_ParentMessage := None;
                  md_Package := pkg |};
     m_Fields := fields; m_Messages := nested; m_Leading := "";
     m_Resource := None |}.

(** A singular scalar field without options. *)
Definition scalarField (name jsonName : string) (k : Kind) : FieldDescriptor :=
  {| fd_Name := name; fd_JSONName := jsonName; fd_Kind := k;
     fd_IsList := false; fd_MapValue := None;
     fd_Message := {| md_Name := ""; md_ParentMessage := None;
                      md_Package := "" |};
     fd_Enum := []; fd_Rules := None; fd_Behavior := None |}.

Definition withRules (rules : FieldRules) (f : FieldDescriptor)
  : FieldDescriptor :=
  {| fd_Name := fd_Name f; fd_JSONName := fd_JSONName f; fd_Kind := fd_Kind f;
     fd_IsList := fd_IsList f; fd_MapValue := fd_MapValue f;
     fd_Message := fd_Message f; fd_Enum := fd_Enum f;
     fd_Rules := Some rules; fd_Behavior := fd_Behavior f |}.

Definition withEnum (values : list string) (f : FieldDescriptor)
  : FieldDescriptor :=
  {| fd_Name := fd_Name f; fd_JSONName := fd_JSONName f; fd_Kind := fd_Kind f;
     fd_IsList := fd_IsList f; fd_MapValue := fd_MapValue f;
     fd_Message := fd_Message f; fd_Enum := values;
     fd_Rules := fd_Rules f; fd_Behavior := fd_Behavior f |}.

Definition withMessage (m : MessageDescriptor) (f : FieldDescriptor)
  : FieldDescriptor :=
  {| fd_Name := fd_Name f; fd_JSONName := fd_JSONName f; fd_Kind := fd_Kind f;
     fd_IsList := fd_IsList f; fd_MapValue := fd_MapValue f;
     fd_Message := m; fd_Enum := fd_Enum f;
     fd_Rules := fd_Rules f; fd_Behavior := fd_Behavior f |}.

(** The enum value names that survive: declaration order, names ending
    in [_UNSPECIFIED] left out. *)
Definition specifiedNames (values : list string) : list string :=
  filter (fun v => negb (HasSuffix v "_UNSPECIFIED")) values.

(** [fieldRules.GetInt32().GetGte()] and its siblings, selected by the
    kind of the field: the bound the rule-set gives, zero when absent. *)
Definition ruleGte (k : Kind) (rules : FieldRules) : Z :=
  match k with
  | Int32Kind =>
      match GetInt32 rules with Some r => getZ (i32_Gte r) | None => 0%Z end
  | Int64Kind =>
      match GetInt64 rules with Some r => getZ (i64_Gte r) | None => 0%Z end
  | _ => 0%Z
  end.

Definition ruleLte (k : Kind) (rules : FieldRules) : Z :=
  match k with
  | Int32Kind =>
      match GetInt32 rules with Some r => getZ (i32_Lte r) | None => 0%Z end
  | Int64Kind =>
      match GetInt64 rules with Some r => getZ (i64_Lte r) | None => 0%Z end
  | _ => 0%Z
  end.

(** The schema after the projection of the two bounds. *)
Definition projectBounds (gte lte : Z) (s : Schema) : Schema :=
  let s := if (0 <? gte)%Z then set_Minimum (float64_of_int gte) s else s in
  if (0 <? lte)%Z then set_Maximum (float64_of_int lte) s else s.

(** A sequence of [addOperationV3] calls: operation, path, method name. *)
Definition addOperations (calls : list (Operation * string * string))
    (d : Document) : Document :=
  fold_left (fun d c => addOperationV3 d (fst (fst c)) (snd (fst c)) (snd c))
    calls d.

(** The operation of the last call of a sequence that binds a given
    (path, verb) pair. *)
Fixpoint lastBinding (calls : list (Operation * string * string))
    (path methodName : string) (earlier : option Operation) : option Operation :=
  match calls with
  | [] => earlier
  | (op, p, v) :: rest =>
      lastBinding rest path methodName
        (if String.eqb p path && String.eqb v methodName then Some op
         else earlier)
  end.

(** Every operation the document holds for a (path, verb) pair, over
    all path items of that name. *)
Definition operationsAt (d : Document) (path methodName : string)
  : list Operation :=
  flat_map (fun i => match operationOf methodName (npi_Value i) with
                     | Some op => [op]
                     | None => []
                     end)
    (pathItemsOf d path).

(** The first path item of a given name. *)
Fixpoint lookupItem (paths : list NamedPathItem) (path : string)
  : option PathItem :=
  match paths with
  | [] => None
  | i :: rest =>
      if String.eqb (npi_Name i) path then Some (npi_Value i)
      else lookupItem rest path
  end.

(** The patterns for which [addPathsToDocumentV3] sets no method name. *)
Definition unsupportedPattern (p : HttpPattern) : bool :=
  match p with
  | HttpRule_Custom _ _ | HttpRule_Unset => true
  | _ => false
  end.

Definition annotated (method : Method) : bool :=
  match meth_Http method with Some _ => true | None => false end.

(** A method that is not annotated, or annotated with an unsupported
    pattern. *)
Definition unbound (method : Method) : bool :=
  match meth_Http method with
  | Some rule => unsupportedPattern (hr_Pattern rule)
  | None => true
  end.

(** The tag a service contributes. *)
Definition serviceTag (service : Service) : Tag :=
  {| Tag_Name := svc_GoName service;
     Tag_Description := filterCommentString (svc_Leading service) false |}.

(** The schema the translator gives a field, seen apart from the
    accumulators (which it only extends). *)
Definition fieldSchemaOf (conf : Configuration) (field : FieldDescriptor)
  : option SchemaOrReference :=
  fst (schemaOrReferenceForField conf field NewOpenAPIv3Generator).

(** What [coalesceToStringSchema schema "number" "integer"] amounts to. *)
Definition coalesced (schema : option SchemaOrReference) : SchemaOrReference :=
  match schema with
  | Some (SchemaOrReference_Schema t) =>
      if String.eqb (Schema_Type t) "number"
         || String.eqb (Schema_Type t) "integer"
      then SchemaOrReference_Schema t
      else inline (typed "string")
  | _ => inline (typed "string")
  end.

(** The query parameter expected for an uncovered field. *)
Definition expectedQueryParameter (conf : Configuration) (field : Field)
  : Parameter_ :=
  {| Param_Name := formatFieldName conf field;
     Param_In := "query";
     Param_Description := filterCommentString (f_Leading field) true;
     Param_Required := false;
     Param_Schema :=
       addValidationRules (coalesced (fieldSchemaOf conf (f_Desc field)))
         (f_Desc field) |}.

Definition uncovered (covered : list string) (field : Field) : bool :=
  negb (contains covered (fd_Name (f_Desc field))).

(** Small descriptors used to exercise the statements. *)
Module Sample.

Definition idField : Field :=
  {| f_Desc := scalarField "message_id" "messageId" StringKind;
     f_Leading := "" |}.

Definition dataField : Field :=
  {| f_Desc := scalarField "data" "data" BytesKind;
     f_Leading := " Raw payload.
" |}.

Definition countField : Field :=
  {| f_Desc := scalarField "page_size" "pageSize" Int32Kind;
     f_Leading := "" |}.

Definition GetMessageRequest : Message :=
  topLevel "lib.v1" "GetMessageRequest" [idField; dataField; countField] [].

Definition MessageOut : Message :=
  topLevel "lib.v1" "Message" [idField] [].

Definition getMethod : Method :=
  {| meth_GoName := "GetMessage"; meth_Leading := "";
     meth_Input := GetMessageRequest; meth_Output := MessageOut;
     meth_Http := Some {| hr_Pattern := HttpRule_Get "/v1/messages/{message_id}";
                          hr_Body := "" |} |}.

Definition customMethod : Method :=
  {| meth_GoName := "Watch"; meth_Leading := "";
     meth_Input := GetMessageRequest; meth_Output := MessageOut;
     meth_Http := Some {| hr_Pattern := HttpRule_Custom "WATCH" "/v1/messages";
                          hr_Body := "" |} |}.

Definition customService : Service :=
  {| svc_GoName := "Watcher"; svc_Leading := " Watches messages.
";
     svc_Methods := [customMethod] |}.

(** A small library: shelves that hold books. *)
Definition nameField : Field :=
  {| f_Desc := scalarField "name" "name" StringKind; f_Leading := "" |}.

Definition Book : Message := topLevel "lib.v1" "Book" [nameField] [].

Definition booksField : Field :=
  {| f_Desc :=
       {| fd_Name := "books"; fd_JSONName := "books"; fd_Kind := MessageKind;
          fd_IsList := true; fd_MapValue := None; fd_Message := m_Desc Book;
          fd_Enum := []; fd_Rules := None; fd_Behavior := None |};
     f_Leading := "" |}.

Definition Shelf : Message :=
  topLevel "lib.v1" "Shelf" [nameField; booksField] [].

Definition GetShelfRequest : Message :=
  topLevel "lib.v1" "GetShelfRequest" [nameField] [].

Definition libraryFile : File :=
  {| file_Generate := true;
     file_Services :=
       [{| svc_GoName := "Library"; svc_Leading := "";
           svc_Methods :=
             [{| meth_GoName := "GetShelf"; meth_Leading := "";
                 meth_Input := GetShelfRequest; meth_Output := Shelf;
                 meth_Http :=
                   Some {| hr_Pattern := HttpRule_Get "/v1/{name=shelves/*}";
                           hr_Body := "" |} |}] |}];
     file_Messages := [Book; Shelf; GetShelfRequest] |}.


(** Two files that declare a service of the same name. *)
Definition messagingV1 : File :=
  {| file_Generate := true;
     file_Services := [{| svc_GoName := "Messaging"; svc_Leading := " First API.
";
                          svc_Methods := [getMethod] |}];
     file_Messages := [GetMessageRequest; MessageOut] |}.

Definition messagingV2 : File :=
  {| file_Generate := true;
     file_Services := [{| svc_GoName := "Messaging"; svc_Leading := " Second API.
";
                          svc_Methods := [getMethod] |}];
     file_Messages := [] |}.

End Sample.

(** *** Declared messages, referenced types, references in a document *)

(** The messages under one declaration, in the order in which
    [addSchemasToDocumentV3] visits them: nested ones first. *)
Fixpoint flattenMessage (m : Message) : list Message :=
  (flat_map flattenMessage (m_Messages m) ++ [m])%list.

(** Every message of every file, in the order of one closure pass. *)
Definition declared (files : list File) : list Message :=
  flat_map (fun file => flat_map flattenMessage (file_Messages file)) files.

Definition typeNameOf (m : Message) : string := fullMessageTypeName (m_Desc m).

Definition declaredNames (files : list File) : list string :=
  map typeNameOf (declared files).

(** The type names for which [schemaOrReferenceForType] has a fixed
    schema (or none) and makes no reference. *)
Definition wellKnown (typeName : string) : bool :=
  contains [".google.protobuf.Timestamp"; ".google.type.Date";
            ".google.type.DateTime"; ".google.protobuf.Struct";
            ".google.protobuf.Empty"; ".google.protobuf.BoolValue";
            ".google.protobuf.BytesValue"; ".google.protobuf.DoubleValue";
            ".google.protobuf.FloatValue"; ".google.protobuf.Int64Value";
            ".google.protobuf.UInt64Value"; ".google.protobuf.Int32Value";
            ".google.protobuf.UInt32Value"; ".google.protobuf.StringValue"]
    typeName.

(** The message types a field refers to by name: that of a message
    field, or of the values of a map, unless well known. *)
Fixpoint fieldRefs (field : FieldDescriptor) : list string :=
  match fd_MapValue field with
  | Some value => fieldRefs value
  | None =>
      if is_MessageKind (fd_Kind field)
         && negb (wellKnown (fullMessageTypeName (fd_Message field)))
      then [fullMessageTypeName (fd_Message field)]
      else []
  end.

Definition messageRefs (m : Message) : list string :=
  flat_map (fun field => fieldRefs (f_Desc field)) (m_Fields m).

(** Every [$ref] string inside a schema node. *)
Fixpoint schemaRefs (s : SchemaOrReference) : list string :=
  match s with
  | SchemaOrReference_Reference r => [r]
  | SchemaOrReference_Schema t =>
      (match Schema_Items t with
       | Some items =>
           flat_map (fun item => match item with
                                 | Some c => schemaRefs c
                                 | None => []
                                 end) items
       | None => []
       end
       ++ match Schema_AdditionalProperties t with
          | Some (Some c) => schemaRefs c
          | _ => []
          end
       ++ match Schema_Properties t with
          | Some properties => flat_map (fun p => schemaRefs (snd p)) properties
          | None => []
          end)%list
  end.

Definition optionRefs (s : option SchemaOrReference) : list string :=
  match s with Some c => schemaRefs c | None => [] end.

Definition mediaTypesRefs (content : MediaTypes) : list string :=
  flat_map (fun n => optionRefs (MediaType_Schema (nmt_Value n))) content.

Definition operationRefs (op : Operation) : list string :=
  (flat_map (fun p => schemaRefs (Param_Schema p)) (Op_Parameters op)
   ++ match Op_RequestBody op with
      | Some body => mediaTypesRefs (RequestBody_Content body)
      | None => []
      end
   ++ flat_map (fun r => mediaTypesRefs (Response_Content (nr_Value r)))
        (Op_Responses op))%list.

Definition slotRefs (op : option Operation) : list string :=
  match op with Some o => operationRefs o | None => [] end.

Definition pathItemRefs (v : PathItem) : list string :=
  (slotRefs (PathItem_Get v) ++ slotRefs (PathItem_Put v)
   ++ slotRefs (PathItem_Post v) ++ slotRefs (PathItem_Delete v)
   ++ slotRefs (PathItem_Patch v))%list.

(** Every [$ref] string that appears anywhere in the document. *)
Definition documentRefs (d : Document) : list string :=
  (flat_map (fun i => pathItemRefs (npi_Value i)) (Doc_Paths d)
   ++ flat_map (fun e => schemaRefs (nsr_Value e)) (Doc_Schemas d))%list.

(** The reference string made for a type name. *)
Definition refOf (conf : Configuration) (typeName : string) : string :=
  "#/components/schemas/" ++ formatMessageRef conf (lastPart typeName).

(** The type names the operations of the generated files require:
    what [requiredSchemas] holds when the closure loop is entered. *)
Definition operationTypes (conf : Configuration) (files : list File)
  : list string :=
  requiredSchemas (fst (beforeClosure conf files)).

(** The message types reachable from the operations through the
    fields of declared messages. *)
Inductive Reachable (conf : Configuration) (files : list File)
  : string -> Prop :=
| Reachable_operation typeName :
    In typeName (operationTypes conf files) ->
    Reachable conf files typeName
| Reachable_field typeName m typeName' :
    Reachable conf files typeName ->
    In m (declared files) -> typeNameOf m = typeName ->
    In typeName' (messageRefs m) ->
    Reachable conf files typeName'.

(** [extends g g' names]: a computation that took [g] to [g'] left
    [generatedSchemas] alone, appended to [requiredSchemas] only names
    among [names], and [names] are all required afterwards. *)
Definition extends (g g' : Generator) (names : list string) : Prop :=
  generatedSchemas g' = generatedSchemas g
  /\ (exists extra,
         requiredSchemas g' = (requiredSchemas g ++ extra)%list
         /\ incl extra names)
  /\ incl names (requiredSchemas g').

(** Every reference of [refs] points at a type that is required. *)
Definition requiredRefs (conf : Configuration) (g : Generator)
    (refs : list string) : Prop :=
  forall r, In r refs ->
            exists typeName, In typeName (requiredSchemas g) /\ r = refOf conf typeName.


(** [grows g g']: [generatedSchemas] is the same and [requiredSchemas]
    has only been appended to. *)
Definition grows (g g' : Generator) : Prop :=
  generatedSchemas g' = generatedSchemas g
  /\ exists extra, requiredSchemas g' = (requiredSchemas g ++ extra)%list.

(** The [$ref] strings of a property list. *)
Definition propertiesRefs (properties : list (string * SchemaOrReference))
  : list string :=
  flat_map (fun p => schemaRefs (snd p)) properties.

(** What one generating step of [addSchemasToDocumentV3] does for the
    message [m]: from [(g, d)] to [(g', d')]. *)
Definition generatesSchema (conf : Configuration) (m : Message)
    (g : Generator) (d : Document) (g' : Generator) (d' : Document) : Prop :=
  In (typeNameOf m) (requiredSchemas g)
  /\ ~ In (typeNameOf m) (generatedSchemas g)
  /\ generatedSchemas g' = (generatedSchemas g ++ [typeNameOf m])%list
  /\ (exists extra,
         requiredSchemas g' = (requiredSchemas g ++ extra)%list
         /\ incl extra (messageRefs m))
  /\ incl (messageRefs m) (requiredSchemas g')
  /\ Doc_Paths d' = Doc_Paths d
  /\ exists e,
       Doc_Schemas d' = (Doc_Schemas d ++ [e])%list
       /\ nsr_Name e = formatMessageName conf m
       /\ incl (schemaRefs (nsr_Value e)) (map (refOf conf) (messageRefs m)).

(** One closure pass, message by message. *)
Definition addDeclared (conf : Configuration) (messages : list Message)
    (st : Generator * Document) : Generator * Document :=
  fold_left (fun st m => addMessageSchema conf m st) messages st.

(** The state with which the closure loop goes round again. *)
Definition nextRound (conf : Configuration) (files : list File)
    (st : Generator * Document) : Generator * Document :=
  let count := List.length (requiredSchemas (fst st)) in
  let (g, d) := addAllSchemas conf files st in
  ({| requiredSchemas := skipn count (requiredSchemas g);
      generatedSchemas := generatedSchemas g |}, d).

(** *** Distinct schema keys *)

Fixpoint distinct (l : list string) : bool :=
  match l with
  | [] => true
  | x :: rest => negb (contains rest x) && distinct rest
  end.


(** *** The types an operation names in its request body and response *)

(** The type referenced by the response of an operation. *)
Definition responseTypes (outputMessage : Message) : list string :=
  let typeName := typeNameOf outputMessage in
  if String.eqb typeName ".google.protobuf.Empty"
     || String.eqb typeName ".google.protobuf.Struct"
     || String.eqb typeName ".google.api.HttpBody"
  then [] else [typeName].

(** The type referenced by the request body of an operation. *)
Definition bodyTypes (bodyField : string) (inputMessage : Message)
  : list string :=
  if String.eqb bodyField "" then []
  else
    let '(scalar, typeName) :=
      if String.eqb bodyField "*" then ("", typeNameOf inputMessage)
      else bodyFieldTypeNames (m_Fields inputMessage) bodyField in
    if negb (String.eqb scalar "") then []
    else if String.eqb typeName "" then []
    else if String.eqb typeName ".google.protobuf.Empty"
            || String.eqb typeName ".google.protobuf.Struct"
    then [] else [typeName].

(** The types named by the operation of a method, when the method is
    registered as an operation. *)
Definition methodTypes (method : Method) : list string :=
  match meth_Http method with
  | Some rule =>
      if String.eqb (snd (patternBinding (hr_Pattern rule))) "" then []
      else (bodyTypes (hr_Body rule) (meth_Input method)
            ++ responseTypes (meth_Output method))%list
  | None => []
  end.

(** The methods of the services of the files marked for generation. *)
Definition generatedMethods (files : list File) : list Method :=
  flat_map (fun file =>
              if file_Generate file
              then flat_map svc_Methods (file_Services file) else [])
    files.

(** The request-body and response types of all registered operations. *)
Definition operationRoots (files : list File) : list string :=
  flat_map methodTypes (generatedMethods files).

(** *** Invariants of the two phases *)

(** The references a type name gives rise to. *)
Definition typeRefs (typeName : string) : list string :=
  if wellKnown typeName then [] else [typeName].

(** What holds of generator and document while paths are added. *)
Definition pathsInvariant (conf : Configuration) (g : Generator) (d : Document)
  : Prop :=
  generatedSchemas g = [] /\ Doc_Schemas d = []
  /\ requiredRefs conf g (documentRefs d).

(** What every state of the closure loop satisfies. *)
Definition loopState (files : list File) (st : Generator * Document) : Prop :=
  NoDup (generatedSchemas (fst st))
  /\ incl (generatedSchemas (fst st)) (declaredNames files).

Definition known (g : Generator) (typeName : string) : Prop :=
  In typeName (requiredSchemas g) \/ In typeName (generatedSchemas g).

(** A name without the separator of type names. *)
Fixpoint dotFree (s : string) : bool :=
  match s with
  | EmptyString => true
  | String c r => negb (Ascii.eqb c "."%char) && dotFree r
  end.

(* ================================================================== *)
(** ** Further vocabulary: the rest of the generator *)
(* ================================================================== *)

(** The first field of a message that bears a given name. *)
Fixpoint findField (name : string) (fields : list Field) : option Field :=
  match fields with
  | [] => None
  | field :: rest =>
      if String.eqb (fd_Name (f_Desc field)) name then Some field
      else findField name rest
  end.

(** The files that [buildDocumentV3] reads services from. *)
Definition generatedFiles (files : list File) : list File :=
  filter file_Generate files.

(** The part of the document that the closure loop leaves alone. *)
Definition frame (d : Document) : string * Info * list NamedPathItem * list Tag :=
  (Doc_Openapi d, Doc_Info d, Doc_Paths d, Doc_Tags d).

(** What the closure loop keeps true of the schemas it has generated:
    each belongs to a declared message, and every type that is
    required or generated is reachable from the operations. *)
Definition generatedReachable (conf : Configuration) (files : list File)
    (st : Generator * Document) : Prop :=
  (exists ms,
      generatedSchemas (fst st) = map typeNameOf ms
      /\ map nsr_Name (Doc_Schemas (snd st)) = map (formatMessageName conf) ms
      /\ incl ms (declared files))
  /\ forall t, known (fst st) t -> Reachable conf files t.

(** A sample service without any HTTP annotation. *)
Definition plainService : Service :=
  {| svc_GoName := "Internal"; svc_Leading := " Not exposed.
";
     svc_Methods :=
       [{| meth_GoName := "Ping"; meth_Leading := "";
           meth_Input := Sample.GetMessageRequest;
           meth_Output := Sample.MessageOut; meth_Http := None |}] |}.

(** A computation that keeps [requiredSchemas] free of repetition. *)
Definition keepsRequiredDistinct {A} (m : Gen A) : Prop :=
  forall g, NoDup (requiredSchemas g) -> NoDup (requiredSchemas (snd (m g))).

(** The keywords of a schema that no validation rule of
    [generator/validate.go] writes. *)
Definition outsideRules (s : Schema) :=
  (Schema_Type s, Schema_Description s, Schema_Nullable s, Schema_ReadOnly s,
   Schema_WriteOnly s, Schema_MinItems s, Schema_MaxItems s, Schema_Enum s,
   Schema_Required s, Schema_Items s, Schema_AdditionalProperties s,
   Schema_Properties s).

(** The keywords the string rules write, and those the numeric bounds
    write. *)
Definition stringKeywords (s : Schema) :=
  (Schema_Format s, Schema_Pattern s, Schema_MinLength s, Schema_MaxLength s).

Definition boundKeywords (s : Schema) := (Schema_Minimum s, Schema_Maximum s).

(** An enum rule-set that gives [not_in] but no [const]. *)
Definition notInWithoutConst (rules : FieldRules) : bool :=
  match GetEnum rules with
  | Some enumRules =>
      match er_Const enumRules, er_NotIn enumRules with
      | None, Some _ => true
      | _, _ => false
      end
  | None => false
  end.

(** [schema.Items.SchemaOrReference[0]] when it is there and inline. *)
Definition firstItem (s : Schema) : option Schema :=
  match Schema_Items s with
  | Some (Some (SchemaOrReference_Schema item) :: _) => Some item
  | _ => None
  end.

(** A page size between 1 and 100, and a list of books each of which
    carries message rules. *)
Definition boundedPageSize : FieldDescriptor :=
  withRules (Rules_Int32 {| i32_Gte := Some 1%Z; i32_Lte := Some 100%Z |})
    (f_Desc Sample.countField).

Definition checkedBooks : FieldDescriptor :=
  withRules (Rules_Repeated (Some 1%Z) None (Some Rules_Other))
    (f_Desc Sample.booksField).

(** [int32(v)]: two's complement wrap of an [int]. *)
Definition int32_of_int (v : Z) : Z := ((v + 2 ^ 31) mod 2 ^ 32 - 2 ^ 31)%Z.

(** Last revision of the enum helpers: the selection is passed on to
    [enumToStringSlice], and the names ending in [_UNSPECIFIED] are
    dropped only when nothing is selected. *)
Module EnumSelect.

Fixpoint has (list : list Z) (idx : Z) : bool :=
  match list with
  | [] => false
  | v :: rest => if Z.eqb v idx then true else has rest idx
  end.

(** The loop of [enumToStringSlice] from index [i] on. *)
Fixpoint enumToStringSlice_from (i : Z) (values : list string)
    (enumValues : list Z) : list string :=
  let removeUnspecified := (List.length enumValues =? 0)%nat in
  match values with
  | [] => []
  | v :: rest =>
      if (List.length enumValues =? 0)%nat
         || has enumValues (int32_of_int i) then
        if removeUnspecified && HasSuffix v "_UNSPECIFIED"
        then enumToStringSlice_from (i + 1) rest enumValues
        else v :: enumToStringSlice_from (i + 1) rest enumValues
      else enumToStringSlice_from (i + 1) rest enumValues
  end.

Definition enumToStringSlice (field : FieldDescriptor) (enumValues : list Z)
  : list string :=
  enumToStringSlice_from 0 (fd_Enum field) enumValues.

Definition enumsToV3Any (field : FieldDescriptor) (enumValues : list Z)
  : list Any :=
  let stringList := enumToStringSlice field enumValues in
  map (fun v => {| Yaml := v |}) stringList.

Definition enumKindSchema (field : FieldDescriptor) : SchemaOrReference :=
  let list := enumsToV3Any field [] in
  inline (set_Enum list (set_Type "string" (set_Format "enum" Schema_zero))).

(** The loop of [enumValues] from index [i] on. *)
Fixpoint enumValues_from (i : Z) (values : list string)
    (removeUnspecified : bool) : list Z :=
  match values with
  | [] => []
  | v :: rest =>
      if removeUnspecified && HasSuffix v "_UNSPECIFIED"
      then enumValues_from (i + 1) rest removeUnspecified
      else int32_of_int i :: enumValues_from (i + 1) rest removeUnspecified
  end.

(** [enumValues]. *)
Definition enumValues (field : FieldDescriptor) (removeUnspecified : bool)
  : list Z :=
  enumValues_from 0 (fd_Enum field) removeUnspecified.

(** [remove]: the entries of [idxs] that [list] does not hold. *)
Fixpoint remove (list : list Z) (idxs : Datatypes.list Z)
  : Datatypes.list Z :=
  match idxs with
  | [] => []
  | v :: rest =>
      if negb (has list v) then v :: remove list rest else remove list rest
  end.

End EnumSelect.

(** An enum field with a default value. *)
Definition statusField : FieldDescriptor :=
  withEnum ["STATUS_UNSPECIFIED"; "APPROVED"; "PENDING"]
    (scalarField "status" "status" EnumKind).

(** A text in which a given byte does not occur. *)
Fixpoint byteFree (b : ascii) (s : string) : bool :=
  match s with
  | EmptyString => true
  | String c r => negb (Ascii.eqb c b) && byteFree b r
  end.

(** A parameter whose schema is inline and of a scalar JSON type. *)
Definition scalarParameter (p : Parameter_) : Prop :=
  exists s,
    Param_Schema p = SchemaOrReference_Schema s
    /\ In (Schema_Type s) ["string"; "number"; "integer"].

(** A parameter is either a required path parameter or an optional
    query parameter. *)
Definition pathOrQuery (p : Parameter_) : Prop :=
  (Param_In p = "path" /\ Param_Required p = true)
  \/ (Param_In p = "query" /\ Param_Required p = false).

(** What [sort.Slice] promises of a slice sorted by a string key: an
    ordered rearrangement of the input, and nothing about the order
    among entries whose keys are equal. *)
Definition sortsByKey {A : Type} (key : A -> string)
    (sort : list A -> list A) : Prop :=
  forall l, Permutation l (sort l) /\ keyOrdered key (sort l).

(** The path after each simple path parameter has been renamed, as the
    first loop of [buildOperationV3] leaves it. *)
Definition renamedPath (conf : Configuration) (path : string)
    (inputMessage : Message) : string :=
  fold_left (fun p m => ReplaceFirst p m (findAndFormatFieldName conf m inputMessage))
    (Regexp.pathPattern_FindAll path) path.

(** The field names an operation covers: its body selector, the names
    of its simple path parameters [{name}], and the name of its named
    path parameter [{name=...}]. *)
Definition coveredNames (conf : Configuration) (path bodyField : string)
    (inputMessage : Message) : list string :=
  ((if String.eqb bodyField "" then [] else [bodyField])
   ++ Regexp.pathPattern_FindAll path
   ++ match Regexp.namedPathPattern_Find (renamedPath conf path inputMessage) with
      | Some (_, name, _) => [name]
      | None => []
      end)%list.

(** What the query parameter [p] made for the field [field] is: named
    after the field, optional, described by the field's comment; its
    schema is the coalesced field schema, up to the keywords that
    validation rules write (the string keywords on a string field, the
    bounds on an int32 or int64 field), and exactly that schema when
    the field has no rules. *)
Definition queryParameterFor (conf : Configuration) (field : Field)
    (p : Parameter_) : Prop :=
  Param_Name p = formatFieldName conf field
  /\ Param_In p = "query"
  /\ Param_Required p = false
  /\ Param_Description p = filterCommentString (f_Leading field) true
  /\ (exists s s0,
        Param_Schema p = SchemaOrReference_Schema s
        /\ coalesced (fieldSchemaOf conf (f_Desc field))
           = SchemaOrReference_Schema s0
        /\ outsideRules s = outsideRules s0
        /\ (fd_Kind (f_Desc field) <> StringKind ->
            stringKeywords s = stringKeywords s0)
        /\ (fd_Kind (f_Desc field) <> Int32Kind ->
            fd_Kind (f_Desc field) <> Int64Kind ->
            boundKeywords s = boundKeywords s0))
  /\ (fd_Rules (f_Desc field) = None ->
      Param_Schema p = coalesced (fieldSchemaOf conf (f_Desc field))).

(** The message types that the query parameters of an operation
    mention: those of the input fields that are not covered.  Their
    references are coalesced away, the types are registered all the
    same. *)
Definition queryTypes (conf : Configuration) (path bodyField : string)
    (inputMessage : Message) : list string :=
  if String.eqb bodyField "*" then []
  else flat_map (fun field => fieldRefs (f_Desc field))
         (filter (uncovered (coveredNames conf path bodyField inputMessage))
                 (m_Fields inputMessage)).

(** The message types that the operation of a method mentions, when
    the method is registered as an operation. *)
Definition methodMentions (conf : Configuration) (method : Method)
  : list string :=
  match meth_Http method with
  | Some rule =>
      if String.eqb (snd (patternBinding (hr_Pattern rule))) "" then []
      else (queryTypes conf (fst (patternBinding (hr_Pattern rule)))
              (hr_Body rule) (meth_Input method)
            ++ responseTypes (meth_Output method)
            ++ bodyTypes (hr_Body rule) (meth_Input method))%list
  | None => []
  end.

(** What the operations of the generated files mention. *)
Definition operationMentions (conf : Configuration) (files : list File)
  : list string :=
  flat_map (methodMentions conf) (generatedMethods files).

(** The message types requested by the descriptors: those an operation
    mentions, and those a field of a declared message of a requested
    type refers to. *)
Inductive Requested (conf : Configuration) (files : list File)
  : string -> Prop :=
| Requested_operation typeName :
    In typeName (operationMentions conf files) ->
    Requested conf files typeName
| Requested_field typeName m typeName' :
    Requested conf files typeName ->
    In m (declared files) -> typeNameOf m = typeName ->
    In typeName' (messageRefs m) ->
    Requested conf files typeName'.




(** The integer that a float stands for, when it stands for one. *)
Definition SFinteger (f : SpecFloat.spec_float) : option Z :=
  match f with
  | SpecFloat.S754_zero _ => Some 0%Z
  | SpecFloat.S754_finite s m e =>
      let sign := if s then (-1)%Z else 1%Z in
      if (0 <=? e)%Z then Some (sign * Zpos m * 2 ^ e)%Z
      else if (Zpos m mod 2 ^ (- e) =? 0)%Z
           then Some (sign * (Zpos m / 2 ^ (- e)))%Z
           else None
  | _ => None
  end.

Definition float64_integer (x : float64) : option Z :=
  SFinteger (FloatOps.Prim2SF x).

(** Float literals. *)
Module Literal.
Import PrimFloat.
Definition one : float64 := 1%float.
Definition thirty : float64 := 30%float.
Definition two_pow_53 : float64 := 9007199254740992%float.
End Literal.

(** The field [mynum] of the validation example: between 1 and 30. *)
Definition mynum : FieldDescriptor :=
  withRules (Rules_Int64 {| i64_Gte := Some 1%Z; i64_Lte := Some 30%Z |})
    (scalarField "mynum" "mynum" Int64Kind).

(** A lower bound just above [2^53]. *)
Definition largeBound : FieldDescriptor :=
  withRules (Rules_Int64 {| i64_Gte := Some 9007199254740993%Z;
                            i64_Lte := None |})
    (scalarField "serial" "serial" Int64Kind).





(** A configuration with the [validate] option off, and a request
    message with the bounded field [mynum]. *)
Definition noValidation : Configuration :=
  {| conf_Version := "1.2.3"; conf_Title := ""; conf_Description := "";
     conf_Naming := "json"; conf_Validate := false |}.

Definition ListRequest : Message :=
  topLevel "lib.v1" "ListRequest"
    [{| f_Desc := mynum; f_Leading := "" |}] [].

(* ================================================================== *)
(** ** The definitions at work on small inputs *)
(* ================================================================== *)

Example singular_shelves : singular "shelves" = "shelf".
Proof. reflexivity. Qed.

Example split_type_name :
  Split ".tests.enums.v1.Message" "." = [""; "tests"; "enums"; "v1"; "Message"].
Proof. reflexivity. Qed.

Example formatMessageRef_Message :
  formatMessageRef defaultConf "message" = "Message".
Proof. reflexivity. Qed.

Example formatMessageRef_A : formatMessageRef defaultConf "A" = "a".
Proof. reflexivity. Qed.

Example pathPattern_message_id :
  Regexp.pathPattern_FindAll "/v1/messages/{message_id}/{x=y}/{z}"
  = ["message_id"; "z"].
Proof. reflexivity. Qed.

Example namedPathPattern_shelves :
  Regexp.namedPathPattern_Find "/v1/{name=shelves/*/books/*}:get"
  = Some ("{name=shelves/*/books/*}", "name", "shelves/*/books/*").
Proof. reflexivity. Qed.

Example removeLinterRules_comment :
  Regexp.removeLinterRules "Updates. (-- api-linter: x=disabled --) Done."
  = "Updates.  Done.".
Proof. reflexivity. Qed.

Example filterCommentString_pipe :
  filterCommentString " Update Message Summary | This function updates a message.
" false = "This function updates a message.".
Proof. reflexivity. Qed.

Example resource_pattern_regex :
  "^" ++ ResourcePattern.replaceParams "shelves/{shelf}/books/{book}" "[a-z2-7]{26}"
      ++ "$"
  = "^shelves/[a-z2-7]{26}/books/[a-z2-7]{26}$".
Proof. reflexivity. Qed.

Example library_path_rewritten :
  pathParametersOf defaultConf "/v1/{name=shelves/*}" "" Sample.GetShelfRequest
  = (["name"], "/v1/shelves/{shelf}", [], ["shelf"]).
Proof. reflexivity. Qed.

Example message_id_path_rewritten :
  pathParametersOf defaultConf "/v1/messages/{message_id}" ""
    Sample.GetMessageRequest
  = (["message_id"], "/v1/messages/{messageId}", ["messageId"], [])
  /\ pathParametersOf protoConf "/v1/messages/{message_id}" ""
       Sample.GetMessageRequest
     = (["message_id"], "/v1/messages/{message_id}", ["message_id"], []).
Proof. split; reflexivity. Qed.

Example text_rules_projected :
  addValidationRules (inline (typed "string"))
    (withRules (Rules_String {| sr_MinLen := Some 1%Z; sr_MaxLen := Some 45%Z;
                                sr_Pattern := None;
                                sr_WellKnown := Some (WK_Uri true) |})
       (scalarField "text" "text" StringKind))
  = inline (set_MaxLength 45 (set_MinLength 1 (typed_format "string" "uri"))).
Proof. reflexivity. Qed.

Example library_document_schemas :
  option_map (fun d => (map npi_Name (Doc_Paths d), map nsr_Name (Doc_Schemas d),
                        documentRefs d))
    (buildDocumentV3 defaultConf 5 [Sample.libraryFile])
  = Some (["/v1/shelves/{shelf}"], ["Book"; "Shelf"],
          ["#/components/schemas/Shelf"; "#/components/schemas/Book"]).
Proof. vm_compute. reflexivity. Qed.

(* ================================================================== *)
(** * Properties *)
(* ================================================================== *)

(** ** Naming of references and of component schemas *)

Lemma append_empty_r (s : string) : s ++ "" = s.
Proof. induction s; simpl; congruence. Qed.

Lemma append_assoc (s t u : string) : (s ++ t) ++ u = s ++ (t ++ u).
Proof. induction s; simpl; congruence. Qed.

Lemma substring_zero (s : string) : substring 0 0 s = "".
Proof. destruct s; reflexivity. Qed.

Lemma substring_all (s : string) : substring 0 (String.length s) s = s.
Proof. induction s; simpl; congruence. Qed.

Lemma split_byte_no_sep sep n cur :
  (forall c, In c (list_ascii_of_string n) -> c <> sep) ->
  split_byte sep n cur = [cur ++ n].
Proof.
  revert cur. induction n as [|c n IH]; intros cur H; simpl.
  - now rewrite append_empty_r.
  - destruct (Ascii.eqb_spec c sep) as [->|_].
    + exfalso. apply (H sep); simpl; auto.
    + rewrite IH by (intros; apply H; simpl; auto).
      now rewrite append_assoc.
Qed.

Lemma split_byte_nonempty sep s cur : split_byte sep s cur <> [].
Proof.
  revert cur. induction s as [|c s IH]; intros cur; simpl; [discriminate|].
  destruct (Ascii.eqb c sep); [discriminate|apply IH].
Qed.

Lemma last_cons_nonempty {A} (x : A) l d : l <> [] -> last (x :: l) d = last l d.
Proof. destruct l; [congruence|reflexivity]. Qed.

Lemma split_byte_last sep pre n cur d :
  last (split_byte sep (pre ++ String sep n) cur) d
  = last (split_byte sep n EmptyString) d.
Proof.
  revert cur. induction pre as [|c pre IH]; intros cur; simpl.
  - rewrite Ascii.eqb_refl. apply last_cons_nonempty, split_byte_nonempty.
  - destruct (Ascii.eqb c sep).
    + rewrite last_cons_nonempty by apply split_byte_nonempty. apply IH.
    + apply IH.
Qed.

Lemma lastPart_fullMessageTypeName_letter pkg a :
  is_letter a = true ->
  lastPart ("." ++ pkg ++ "." ++ String a "") = String a "".
Proof.
  intros H. unfold lastPart, Split.
  change ("." ++ pkg ++ "." ++ String a "")
    with (("." ++ pkg) ++ String "."%char (String a "")).
  rewrite split_byte_last. simpl.
  destruct (Ascii.eqb_spec a ".") as [->|_]; [discriminate H|reflexivity].
Qed.

Lemma schemaReferenceForTypeName_fst conf typeName g :
  fst (schemaReferenceForTypeName conf typeName g)
  = "#/components/schemas/" ++ formatMessageRef conf (lastPart typeName).
Proof. reflexivity. Qed.

Lemma fullMessageTypeName_topLevel pkg name fields nested :
  fullMessageTypeName (m_Desc (topLevel pkg name fields nested))
  = "." ++ pkg ++ "." ++ name.
Proof. reflexivity. Qed.

Lemma lower_upper_differ a :
  is_letter a = true -> lower_byte a <> upper_byte a.
Proof.
  destruct a as [[] [] [] [] [] [] [] []]; cbv; intros H; congruence.
Qed.

Lemma dotFree_chars n :
  dotFree n = true -> forall c, In c (list_ascii_of_string n) -> c <> "."%char.
Proof.
  induction n as [|a n IH]; simpl; intros H c Hc; [destruct Hc|].
  apply andb_true_iff in H as [Ha Hn]. destruct Hc as [<-|Hc]; [|now apply IH].
  intros ->. discriminate Ha.
Qed.

Lemma lastPart_typeNameOf m :
  dotFree (getMessageName (m_Desc m)) = true ->
  lastPart (typeNameOf m) = getMessageName (m_Desc m).
Proof.
  intros H. unfold lastPart, Split, typeNameOf, fullMessageTypeName.
  change ("." ++ md_Package (m_Desc m) ++ "." ++ getMessageName (m_Desc m))
    with ("." ++ md_Package (m_Desc m) ++ String "."%char (getMessageName (m_Desc m))).
  rewrite <- append_assoc, split_byte_last.
  now rewrite (split_byte_no_sep _ _ _ (dotFree_chars _ H)).
Qed.

(** Outside the one-character case the name in a reference is the key
    of the schema. *)
Lemma reference_matches_key conf m :
  dotFree (getMessageName (m_Desc m)) = true ->
  conf_Naming conf = "proto" \/ String.length (getMessageName (m_Desc m)) <> 1 ->
  formatMessageRef conf (lastPart (typeNameOf m)) = formatMessageName conf m.
Proof.
  intros Hd Hl. rewrite (lastPart_typeNameOf m Hd).
  unfold formatMessageRef, formatMessageName.
  destruct (String.eqb_spec (conf_Naming conf) "proto") as [_|N]; [reflexivity|].
  destruct Hl as [Hl|Hl]; [contradiction|].
  destruct (getMessageName (m_Desc m)) as [|a [|b r]]; simpl in *;
    [reflexivity|congruence|reflexivity].
Qed.

(** C9 (as amended).  In the default naming mode [formatMessageRef]
    uppercases the first byte of a name of two or more bytes and
    lowercases a one-byte name, [formatMessageName] uppercases the
    first byte of every non-empty name; so for a top-level message
    whose name is a single ASCII letter the reference made by
    [schemaReferenceForTypeName] differs from the key under which
    [formatMessageName] files the schema.  A nested message is named
    [Parent_Name] by [getMessageName], a name of two bytes at least
    (or the bare [_]), and its reference does name its key. *)
Theorem single_letter_reference_misses_key
    (conf : Configuration) (message : Message) (a c b : ascii) (r : string)
    (g : Generator)
    (Hmode : String.eqb (conf_Naming conf) "proto" = false)
    (Hletter : is_letter a = true)
    (Htop : md_ParentMessage (m_Desc message) = None)
    (Hname : md_Name (m_Desc message) = String a "") :
  formatMessageRef conf (String c (String b r)) = String (upper_byte c) (String b r)
  /\ formatMessageRef conf (String c "") = String (lower_byte c) ""
  /\ (forall m x s,
         getMessageName (m_Desc m) = String x s ->
         formatMessageName conf m = String (upper_byte x) s)
  /\ fst (schemaReferenceForTypeName conf (fullMessageTypeName (m_Desc message)) g)
     = "#/components/schemas/" ++ String (lower_byte a) ""
  /\ formatMessageName conf message = String (upper_byte a) ""
  /\ fst (schemaReferenceForTypeName conf (fullMessageTypeName (m_Desc message)) g)
     <> "#/components/schemas/" ++ formatMessageName conf message
  /\ (forall m parent,
         md_ParentMessage (m_Desc m) = Some parent ->
         dotFree (getMessageName (m_Desc m)) = true ->
         fst (schemaReferenceForTypeName conf (fullMessageTypeName (m_Desc m)) g)
         = "#/components/schemas/" ++ formatMessageName conf m).
Proof.
  assert (Hfmt : forall m x s,
             getMessageName (m_Desc m) = String x s ->
             formatMessageName conf m = String (upper_byte x) s).
  { intros m x s E. unfold formatMessageName. rewrite E, Hmode.
    unfold slice, slice_from; simpl. rewrite Nat.sub_0_r.
    now rewrite substring_zero, substring_all. }
  assert (Hn : getMessageName (m_Desc message) = String a "").
  { unfold getMessageName. now rewrite Htop, Hname. }
  assert (Href : fst (schemaReferenceForTypeName conf
                        (fullMessageTypeName (m_Desc message)) g)
                 = "#/components/schemas/" ++ String (lower_byte a) "").
  { rewrite schemaReferenceForTypeName_fst. unfold fullMessageTypeName.
    rewrite Hn, lastPart_fullMessageTypeName_letter by assumption.
    unfold formatMessageRef. now rewrite Hmode. }
  split; [|split; [|split; [|split; [|split; [|split]]]]].
  - unfold formatMessageRef. rewrite Hmode. simpl.
    unfold slice, slice_from; simpl.
    now rewrite ?Nat.sub_0_r, ?substring_zero, substring_all.
  - unfold formatMessageRef. now rewrite Hmode.
  - exact Hfmt.
  - exact Href.
  - now apply Hfmt.
  - rewrite Href, (Hfmt message a "" Hn). intros E.
    apply (lower_upper_differ a Hletter). simpl in E. congruence.
  - intros m parent Hp Hd. rewrite schemaReferenceForTypeName_fst.
    change (fullMessageTypeName (m_Desc m)) with (typeNameOf m).
    rewrite (lastPart_typeNameOf m Hd).
    unfold formatMessageRef, formatMessageName. rewrite Hmode.
    unfold getMessageName in *. rewrite Hp in *.
    destruct (parent ++ "_" ++ "") as [|x [|y t]] eqn:P.
    + destruct parent; discriminate.
    + destruct parent as [|p0 [|p1 p2]]; simpl in P; try discriminate.
      injection P as <-.
      destruct (md_Name (m_Desc m)) as [|n0 n1]; reflexivity.
    + reflexivity.
Qed.

Lemma single_letter_reference_misses_key_witness :
  fst (schemaReferenceForTypeName defaultConf
         (fullMessageTypeName (m_Desc (topLevel "lib.v1" "A" [] [])))
         NewOpenAPIv3Generator)
  = "#/components/schemas/a"
  /\ formatMessageName defaultConf (topLevel "lib.v1" "A" [] []) = "A".
Proof.
  pose proof (single_letter_reference_misses_key defaultConf
                (topLevel "lib.v1" "A" [] [])
                "A"%char "A"%char "b"%char "" NewOpenAPIv3Generator
                eq_refl eq_refl eq_refl eq_refl) as (_ & _ & _ & Hr & Hn & _).
  split; [exact Hr | exact Hn].
Defined.

(** C9 as first stated fails for the one-byte name [_], which both
    functions leave as it is. *)
Lemma underscore_reference_hits_key :
  String.length (getMessageName (m_Desc (topLevel "lib.v1" "_" [] []))) = 1
  /\ fst (schemaReferenceForTypeName defaultConf
            (fullMessageTypeName (m_Desc (topLevel "lib.v1" "_" [] [])))
            NewOpenAPIv3Generator)
     = "#/components/schemas/"
       ++ formatMessageName defaultConf (topLevel "lib.v1" "_" [] []).
Proof. split; reflexivity. Qed.


(** ** Enum fields *)

Lemma enumList_specified values :
  EnumMethod.enumList values = map (fun v => {| Yaml := v |}) (specifiedNames values).
Proof.
  induction values as [|v values IH]; simpl; [reflexivity|].
  destruct (HasSuffix v "_UNSPECIFIED"); simpl; congruence.
Qed.

Lemma enumToStringSlice_from_specified i values :
  EnumFunc.enumToStringSlice_from i values [] = specifiedNames values.
Proof.
  revert i. induction values as [|v values IH]; intros i; simpl; [reflexivity|].
  destruct (HasSuffix v "_UNSPECIFIED"); simpl; now rewrite IH.
Qed.

(** C4 (as amended).  The schema of an enum field has type [string]
    and lists the value names in declaration order without those that
    end in [_UNSPECIFIED]; the free-function revision also sets the
    format [enum], the method revision that [schemaOrReferenceForField]
    calls leaves the format empty.  An enum declared as
    [STATUS_UNSPECIFIED, APPROVED, PENDING] yields [APPROVED, PENDING]. *)
Theorem enum_schema_lists_specified_names (conf : Configuration)
    (field : FieldDescriptor) (g : Generator) :
  EnumFunc.enumKindSchema field
  = inline (set_Enum (map (fun v => {| Yaml := v |}) (specifiedNames (fd_Enum field)))
              (typed_format "string" "enum"))
  /\ EnumMethod.enumKindSchema field
     = inline (set_Enum (map (fun v => {| Yaml := v |}) (specifiedNames (fd_Enum field)))
                 (typed "string"))
  /\ kindSchemaOf conf (withEnum (fd_Enum field) (scalarField "status" "status" EnumKind)) g
     = (Some (EnumMethod.enumKindSchema field), g)
  /\ specifiedNames ["STATUS_UNSPECIFIED"; "APPROVED"; "PENDING"]
     = ["APPROVED"; "PENDING"].
Proof.
  repeat split.
  - unfold EnumFunc.enumKindSchema, EnumFunc.enumsToV3Any,
      EnumFunc.enumToStringSlice.
    now rewrite enumToStringSlice_from_specified.
  - unfold EnumMethod.enumKindSchema. now rewrite enumList_specified.
Qed.

(** C4 as first stated fails twice: a value named plainly
    [UNSPECIFIED] does not end in [_UNSPECIFIED] and is kept, and the
    method revision sets no format. *)
Lemma bare_UNSPECIFIED_is_listed :
  let field := withEnum ["UNSPECIFIED"; "APPROVED"; "PENDING"]
                 (scalarField "status" "status" EnumKind) in
  EnumFunc.enumKindSchema field
  = inline (set_Enum [{| Yaml := "UNSPECIFIED" |}; {| Yaml := "APPROVED" |};
                      {| Yaml := "PENDING" |}]
              (typed_format "string" "enum"))
  /\ fst (schemaOrReferenceForField defaultConf field NewOpenAPIv3Generator)
     = Some (inline (set_Enum [{| Yaml := "UNSPECIFIED" |}; {| Yaml := "APPROVED" |};
                               {| Yaml := "PENDING" |}]
                       (typed_format "string" ""))).
Proof. split; reflexivity. Qed.

(** ** Operations per path and verb *)

Section AddOperation.

Local Ltac verbs :=
  repeat match goal with
         | |- context [String.eqb ?a ?b] =>
             destruct (String.eqb_spec a b); subst; simpl in *;
             try discriminate; try congruence
         | H : context [String.eqb ?a ?b] |- _ =>
             destruct (String.eqb_spec a b); subst; simpl in *;
             try discriminate; try congruence
         end.

Lemma operationOf_setOperation_same v op i :
  isVerb v = true -> operationOf v (setOperation v op i) = Some op.
Proof. unfold isVerb, operationOf, setOperation. intros H. verbs. Qed.

Lemma operationOf_setOperation_other v v' op i :
  v <> v' -> operationOf v' (setOperation v op i) = operationOf v' i.
Proof. unfold operationOf, setOperation. intros H. verbs. Qed.

Lemma operationOf_zero v : operationOf v PathItem_zero = None.
Proof. unfold operationOf. verbs. Qed.

Lemma hasPathItem_lookupItem paths p :
  hasPathItem paths p = match lookupItem paths p with Some _ => true | None => false end.
Proof.
  induction paths as [|i paths IH]; simpl; [reflexivity|].
  destruct (String.eqb (npi_Name i) p); auto.
Qed.

Lemma lookupItem_updateSelected paths p f p' :
  lookupItem (updateSelected paths p f) p'
  = if String.eqb p p' then option_map f (lookupItem paths p)
    else lookupItem paths p'.
Proof.
  induction paths as [|i paths IH]; simpl.
  - now destruct (String.eqb p p').
  - destruct (String.eqb_spec (npi_Name i) p) as [E|E]; simpl.
    + subst p. destruct (String.eqb (npi_Name i) p'); reflexivity.
    + rewrite IH. destruct (String.eqb_spec p p') as [E'|E'].
      * rewrite <- E'.
        destruct (String.eqb_spec (npi_Name i) p); [contradiction|reflexivity].
      * reflexivity.
Qed.

Lemma lookupItem_app paths i p :
  lookupItem (paths ++ [i]) p
  = match lookupItem paths p with
    | Some v => Some v
    | None => if String.eqb (npi_Name i) p then Some (npi_Value i) else None
    end.
Proof.
  induction paths as [|j paths IH]; simpl; [reflexivity|].
  destruct (String.eqb (npi_Name j) p); auto.
Qed.

Lemma lookupItem_addOperationV3 d op p v p' :
  lookupItem (Doc_Paths (addOperationV3 d op p v)) p'
  = if String.eqb p p'
    then Some (setOperation v op
                 (match lookupItem (Doc_Paths d) p with
                  | Some i => i
                  | None => PathItem_zero
                  end))
    else lookupItem (Doc_Paths d) p'.
Proof.
  unfold addOperationV3. simpl. rewrite lookupItem_updateSelected.
  rewrite hasPathItem_lookupItem.
  destruct (lookupItem (Doc_Paths d) p) as [i|] eqn:E.
  - rewrite E. reflexivity.
  - rewrite !lookupItem_app, E. simpl. rewrite String.eqb_refl. simpl.
    destruct (String.eqb_spec p p') as [<-|N]; [reflexivity|].
    destruct (lookupItem (Doc_Paths d) p'); [reflexivity|].
    destruct (String.eqb_spec p p'); [contradiction|reflexivity].
Qed.

Lemma lookupOperation_lookupItem d p v :
  lookupOperation d p v
  = match lookupItem (Doc_Paths d) p with
    | Some i => operationOf v i
    | None => None
    end.
Proof.
  unfold lookupOperation, pathItemsOf.
  induction (Doc_Paths d) as [|i paths IH]; simpl; [reflexivity|].
  destruct (String.eqb (npi_Name i) p); auto.
Qed.

Lemma names_updateSelected paths p f :
  map npi_Name (updateSelected paths p f) = map npi_Name paths.
Proof.
  induction paths as [|i paths IH]; simpl; [reflexivity|].
  destruct (String.eqb (npi_Name i) p); simpl; congruence.
Qed.

Lemma hasPathItem_In paths p :
  hasPathItem paths p = true <-> In p (map npi_Name paths).
Proof.
  induction paths as [|i paths IH]; simpl; [intuition discriminate|].
  destruct (String.eqb_spec (npi_Name i) p); intuition.
Qed.

Lemma names_addOperationV3 d op p v :
  map npi_Name (Doc_Paths (addOperationV3 d op p v))
  = (map npi_Name (Doc_Paths d)
     ++ (if hasPathItem (Doc_Paths d) p then [] else [p]))%list.
Proof.
  unfold addOperationV3. simpl. rewrite names_updateSelected.
  destruct (hasPathItem (Doc_Paths d) p).
  - now rewrite app_nil_r.
  - now rewrite map_app.
Qed.

Lemma NoDup_addOperationV3 d op p v :
  NoDup (map npi_Name (Doc_Paths d)) ->
  NoDup (map npi_Name (Doc_Paths (addOperationV3 d op p v))).
Proof.
  intros H. rewrite names_addOperationV3.
  destruct (hasPathItem (Doc_Paths d) p) eqn:E.
  - now rewrite app_nil_r.
  - apply NoDup_app; [assumption|repeat constructor; intros []|].
    intros x Hx [<-|[]]. apply hasPathItem_In in Hx. congruence.
Qed.

Lemma NoDup_addOperations calls d :
  NoDup (map npi_Name (Doc_Paths d)) ->
  NoDup (map npi_Name (Doc_Paths (addOperations calls d))).
Proof.
  revert d. induction calls as [|c calls IH]; intros d H; simpl; [assumption|].
  apply IH, NoDup_addOperationV3, H.
Qed.

Lemma lookupOperation_addOperationV3 d op p v p' v' :
  isVerb v = true ->
  lookupOperation (addOperationV3 d op p v) p' v'
  = if String.eqb p p' && String.eqb v v' then Some op
    else lookupOperation d p' v'.
Proof.
  intros Hv. rewrite !lookupOperation_lookupItem, lookupItem_addOperationV3.
  destruct (String.eqb_spec p p') as [<-|Np]; simpl; [|reflexivity].
  destruct (String.eqb_spec v v') as [<-|Nv].
  - now rewrite operationOf_setOperation_same.
  - rewrite operationOf_setOperation_other by assumption.
    destruct (lookupItem (Doc_Paths d) p); [reflexivity|apply operationOf_zero].
Qed.

Lemma lookupOperation_addOperationV3_noverb d op p v p' v' :
  isVerb v = false -> isVerb v' = true ->
  lookupOperation (addOperationV3 d op p v) p' v' = lookupOperation d p' v'.
Proof.
  intros Hv Hv'. rewrite !lookupOperation_lookupItem, lookupItem_addOperationV3.
  destruct (String.eqb_spec p p') as [<-|Np]; simpl; [|reflexivity].
  assert (v <> v') by congruence.
  rewrite operationOf_setOperation_other by assumption.
  destruct (lookupItem (Doc_Paths d) p); [reflexivity|apply operationOf_zero].
Qed.

Lemma lookupOperation_addOperations calls d p v :
  isVerb v = true ->
  lookupOperation (addOperations calls d) p v
  = lastBinding calls p v (lookupOperation d p v).
Proof.
  intros Hv. revert d.
  induction calls as [|[[op p0] v0] calls IH]; intros d; simpl; [reflexivity|].
  rewrite IH. f_equal.
  destruct (isVerb v0) eqn:E.
  - apply lookupOperation_addOperationV3, E.
  - rewrite lookupOperation_addOperationV3_noverb by assumption.
    destruct (String.eqb_spec v0 v) as [->|_]; [congruence|].
    now rewrite andb_false_r.
Qed.

Lemma operationsAt_NoDup d p v :
  NoDup (map npi_Name (Doc_Paths d)) ->
  operationsAt d p v
  = match lookupOperation d p v with Some op => [op] | None => [] end.
Proof.
  unfold operationsAt, lookupOperation, pathItemsOf.
  induction (Doc_Paths d) as [|i paths IH]; simpl; intros H; [reflexivity|].
  inversion H as [|? ? Hi Hn]; subst.
  destruct (String.eqb_spec (npi_Name i) p) as [<-|N]; [|auto].
  simpl. replace (filter _ paths) with (@nil NamedPathItem).
  - simpl. now rewrite app_nil_r.
  - symmetry. clear -Hi. induction paths as [|j paths IH]; simpl; [reflexivity|].
    destruct (String.eqb_spec (npi_Name j) (npi_Name i)) as [E|_].
    + exfalso. apply Hi. simpl. auto.
    + apply IH. intros Hin. apply Hi. simpl. auto.
Qed.

End AddOperation.

(** C3.  One [addOperationV3] call for a verb leaves its operation at
    that (path, verb) pair and changes no other pair, whatever the
    document.  Path names that are distinct stay distinct, and then the
    only operation held for a (path, verb) pair after a sequence of
    calls is that of the last call that bound the pair; in particular
    on the fresh document of [buildDocumentV3].  The function is
    total: no call fails. *)
Theorem path_verb_last_wins (conf : Configuration) (d : Document)
    (op : Operation) (calls : list (Operation * string * string))
    (path methodName : string) (Hverb : isVerb methodName = true) :
  lookupOperation (addOperationV3 d op path methodName) path methodName = Some op
  /\ (forall path' methodName',
        (path', methodName') <> (path, methodName) ->
        lookupOperation (addOperationV3 d op path methodName) path' methodName'
        = lookupOperation d path' methodName')
  /\ (NoDup (map npi_Name (Doc_Paths d)) ->
      NoDup (map npi_Name (Doc_Paths (addOperations calls d)))
      /\ operationsAt (addOperations calls d) path methodName
         = match lastBinding calls path methodName
                   (lookupOperation d path methodName) with
           | Some op' => [op']
           | None => []
           end)
  /\ NoDup (map npi_Name (Doc_Paths (addOperations calls (initialDocument conf))))
  /\ operationsAt (addOperations calls (initialDocument conf)) path methodName
     = match lastBinding calls path methodName None with
       | Some op' => [op']
       | None => []
       end.
Proof.
  split; [|split; [|split; [|split]]].
  - rewrite lookupOperation_addOperationV3 by assumption.
    now rewrite !String.eqb_refl.
  - intros p' v' N. rewrite lookupOperation_addOperationV3 by assumption.
    destruct (String.eqb_spec path p') as [<-|_]; [|reflexivity].
    destruct (String.eqb_spec methodName v') as [<-|_]; [congruence|reflexivity].
  - intros N. split; [now apply NoDup_addOperations|].
    rewrite operationsAt_NoDup by now apply NoDup_addOperations.
    now rewrite lookupOperation_addOperations.
  - apply NoDup_addOperations. constructor.
  - rewrite operationsAt_NoDup by (apply NoDup_addOperations; constructor).
    now rewrite lookupOperation_addOperations.
Qed.

Lemma path_verb_last_wins_witness :
  let op1 := {| Op_Tags := ["A"]; Op_Summary := ""; Op_Description := "";
                Op_OperationId := "A_Get"; Op_Parameters := [];
                Op_RequestBody := None; Op_Responses := [] |} in
  let op2 := {| Op_Tags := ["B"]; Op_Summary := ""; Op_Description := "";
                Op_OperationId := "B_Get"; Op_Parameters := [];
                Op_RequestBody := None; Op_Responses := [] |} in
  isVerb "GET" = true
  /\ operationsAt (addOperations [(op1, "/v1/a", "GET"); (op2, "/v1/a", "GET")]
                     (initialDocument defaultConf)) "/v1/a" "GET" = [op2].
Proof.
  intros op1 op2. split; [reflexivity|].
  exact (proj2 (proj2 (proj2 (proj2
    (path_verb_last_wins defaultConf (initialDocument defaultConf) op1
       [(op1, "/v1/a", "GET"); (op2, "/v1/a", "GET")] "/v1/a" "GET" eq_refl))))).
Defined.

(** ** Unsupported HTTP patterns and tags *)

Lemma patternBinding_unsupported p :
  unsupportedPattern p = true ->
  snd (patternBinding p) = ""
  /\ (fst (patternBinding p) = "custom-unsupported"
      \/ fst (patternBinding p) = "unknown-unsupported").
Proof. destruct p; simpl; intros H; try discriminate; auto. Qed.

Lemma addMethodV3_unbound conf service method g d n :
  unbound method = true ->
  addMethodV3 conf service method (g, d, n)
  = (g, d, if annotated method then S n else n).
Proof.
  unfold unbound, addMethodV3, methodBinding, annotated.
  destruct (meth_Http method) as [rule|]; [|reflexivity].
  intros H. destruct (hr_Pattern rule); simpl in H; try discriminate; reflexivity.
Qed.

(** C7.  A method whose HTTP rule carries a custom pattern, or no
    recognised pattern, gets one of the two sentinel paths and an empty
    method name; the loop body then leaves the document and the
    generator exactly as they were (no path item, no operation) and
    only counts the annotation.  The step is a total function: there is
    no error to report. *)
Theorem unsupported_pattern_registers_nothing (conf : Configuration)
    (service : Service) (method : Method) (rule : HttpRule)
    (g : Generator) (d : Document) (n : nat)
    (Hrule : meth_Http method = Some rule)
    (Hpattern : unsupportedPattern (hr_Pattern rule) = true) :
  (methodBinding method = (true, "custom-unsupported", "", hr_Body rule)
   \/ methodBinding method = (true, "unknown-unsupported", "", hr_Body rule))
  /\ addMethodV3 conf service method (g, d, n) = (g, d, S n)
  /\ Doc_Paths (snd (fst (addMethodV3 conf service method (g, d, n))))
     = Doc_Paths d.
Proof.
  assert (Hu : unbound method = true) by (unfold unbound; now rewrite Hrule).
  rewrite (addMethodV3_unbound conf service method g d n Hu).
  unfold annotated, methodBinding. rewrite Hrule.
  split; [|split; reflexivity].
  destruct (hr_Pattern rule); simpl in *; try discriminate; auto.
Qed.

Lemma addMethodV3_tags conf service method st :
  Doc_Tags (snd (fst (addMethodV3 conf service method st)))
  = Doc_Tags (snd (fst st)).
Proof.
  destruct st as [[g d] n]. unfold addMethodV3.
  destruct (methodBinding method) as [[[a p] v] b].
  destruct (negb (String.eqb v "")); [|reflexivity].
  destruct (buildOperationV3 _ _ _ _ _ _ _ _ _ _) as [[op p2] g'].
  reflexivity.
Qed.

Lemma addMethodV3_count conf service method st :
  snd (addMethodV3 conf service method st)
  = if annotated method then S (snd st) else snd st.
Proof.
  destruct st as [[g d] n]. unfold addMethodV3, methodBinding, annotated.
  destruct (meth_Http method) as [rule|]; simpl.
  - destruct (patternBinding (hr_Pattern rule)) as [p v].
    destruct (negb (String.eqb v "")); [|reflexivity].
    destruct (buildOperationV3 _ _ _ _ _ _ _ _ _ _) as [[op p2] g'].
    reflexivity.
  - reflexivity.
Qed.

Lemma addMethods_tags_count conf service methods st :
  let st' := fold_left (fun st method => addMethodV3 conf service method st)
               methods st in
  Doc_Tags (snd (fst st')) = Doc_Tags (snd (fst st))
  /\ ((0 <? snd st')%nat = (0 <? snd st)%nat || existsb annotated methods).
Proof.
  revert st. induction methods as [|m methods IH]; intros st; simpl.
  - now rewrite orb_false_r.
  - destruct (IH (addMethodV3 conf service m st)) as [Ht Hc].
    split.
    + rewrite Ht. apply addMethodV3_tags.
    + rewrite Hc, addMethodV3_count.
      destruct (annotated m); simpl; [|reflexivity].
      now rewrite orb_true_r.
Qed.

Lemma addMethods_unbound conf service methods g d n :
  forallb unbound methods = true ->
  exists n',
    fold_left (fun st method => addMethodV3 conf service method st)
      methods (g, d, n) = (g, d, n').
Proof.
  revert n. induction methods as [|m methods IH]; intros n H; cbn [fold_left].
  - now exists n.
  - simpl in H. apply andb_true_iff in H as [Hm Hr].
    rewrite addMethodV3_unbound by assumption. now apply IH.
Qed.

(** C10.  A service gets its tag exactly when one of its methods
    carries an HTTP annotation, whatever the pattern; so a service whose
    annotated methods all have unsupported patterns leaves the
    generator and the paths untouched and still appends its tag. *)
Theorem tag_counts_unsupported_patterns (conf : Configuration)
    (service : Service) (g : Generator) (d : Document)
    (Hunbound : forallb unbound (svc_Methods service) = true)
    (Hannotated : existsb annotated (svc_Methods service) = true) :
  (forall st,
      Doc_Tags (snd (addServiceV3 conf st service))
      = (Doc_Tags (snd st)
         ++ (if existsb annotated (svc_Methods service)
             then [serviceTag service] else []))%list)
  /\ addServiceV3 conf (g, d) service
     = (g, set_Tags (Doc_Tags d ++ [serviceTag service])%list d)
  /\ Doc_Paths (snd (addServiceV3 conf (g, d) service)) = Doc_Paths d.
Proof.
  assert (Htags : forall st,
      Doc_Tags (snd (addServiceV3 conf st service))
      = (Doc_Tags (snd st)
         ++ (if existsb annotated (svc_Methods service)
             then [serviceTag service] else []))%list).
  { intros st. unfold addServiceV3.
    pose proof (addMethods_tags_count conf service (svc_Methods service)
                  (fst st, snd st, O)) as [Ht Hc].
    destruct (fold_left _ _ _) as [[g' d'] n']. simpl in Ht, Hc.
    rewrite Hc. destruct (existsb annotated (svc_Methods service)); simpl.
    - now rewrite Ht.
    - now rewrite Ht, app_nil_r. }
  assert (Hsvc : addServiceV3 conf (g, d) service
     = (g, set_Tags (Doc_Tags d ++ [serviceTag service])%list d)).
  { unfold addServiceV3. simpl fst. simpl snd.
    pose proof (addMethods_tags_count conf service (svc_Methods service)
                  (g, d, O)) as [_ Hc].
    destruct (addMethods_unbound conf service (svc_Methods service) g d O Hunbound)
      as [n' E].
    rewrite E in *. simpl in Hc. rewrite Hc, Hannotated. reflexivity. }
  split; [exact Htags|split; [exact Hsvc|]].
  now rewrite Hsvc.
Qed.

(** ** Query parameters *)

Lemma FieldDescriptor_map_ind (P : FieldDescriptor -> Prop) :
  (forall f, fd_MapValue f = None -> P f) ->
  (forall f v, fd_MapValue f = Some v -> P v -> P f) ->
  forall f, P f.
Proof.
  intros Hn Hs. fix IH 1. intros [n j k l [v|] m e r b].
  - apply Hs with (v := v); [reflexivity|apply IH].
  - apply Hn. reflexivity.
Qed.

Lemma schemaOrReferenceForField_unfold conf field :
  schemaOrReferenceForField conf field
  = match fd_MapValue field with
    | Some value =>
        v <- schemaOrReferenceForField conf value ;;
        ret (Some (inline (set_AdditionalProperties (Some v) (typed "object"))))
    | None =>
        kindSchema <- kindSchemaOf conf field ;;
        match kindSchema with
        | None =>
            if is_MessageKind (fd_Kind field) then ret None
            else if fd_IsList field then
              ret (Some (inline (set_Items (Some [kindSchema]) (typed "array"))))
            else ret kindSchema
        | Some _ =>
            if fd_IsList field then
              ret (Some (inline (set_Items (Some [kindSchema]) (typed "array"))))
            else ret kindSchema
        end
    end.
Proof. destruct field; reflexivity. Qed.

Lemma schemaOrReferenceForType_schema conf typeName g g0 :
  fst (schemaOrReferenceForType conf typeName g)
  = fst (schemaOrReferenceForType conf typeName g0).
Proof.
  unfold schemaOrReferenceForType.
  repeat match goal with
         | |- context [if ?b then _ else _] => destruct b; [reflexivity|]
         end.
  reflexivity.
Qed.

Lemma kindSchemaOf_schema conf field g g0 :
  fst (kindSchemaOf conf field g) = fst (kindSchemaOf conf field g0).
Proof.
  unfold kindSchemaOf. destruct (fd_Kind field); try reflexivity.
  apply schemaOrReferenceForType_schema.
Qed.

Lemma schemaOrReferenceForField_schema conf field :
  forall g g0,
    fst (schemaOrReferenceForField conf field g)
    = fst (schemaOrReferenceForField conf field g0).
Proof.
  induction field as [f Hf|f v Hf IH] using FieldDescriptor_map_ind;
    intros g g0; rewrite schemaOrReferenceForField_unfold, Hf; unfold bind.
  - pose proof (kindSchemaOf_schema conf f g g0) as E.
    destruct (kindSchemaOf conf f g) as [k1 g1],
             (kindSchemaOf conf f g0) as [k2 g2].
    simpl in E. subst k2.
    destruct k1; [destruct (fd_IsList f); reflexivity|].
    destruct (is_MessageKind (fd_Kind f)); [reflexivity|].
    destruct (fd_IsList f); reflexivity.
  - specialize (IH g g0).
    destruct (schemaOrReferenceForField conf v g) as [k1 g1],
             (schemaOrReferenceForField conf v g0) as [k2 g2].
    simpl in IH. subst k2. reflexivity.
Qed.

Lemma contains_two a b x :
  contains [a; b] x = String.eqb x a || String.eqb x b.
Proof.
  cbn [contains]. rewrite (String.eqb_sym a), (String.eqb_sym b).
  destruct (String.eqb x a), (String.eqb x b); reflexivity.
Qed.

Lemma coalesceToStringSchema_coalesced schema :
  coalesceToStringSchema schema ["number"; "integer"] = coalesced schema.
Proof.
  unfold coalesceToStringSchema, coalesced.
  destruct schema as [[r|t]|]; try reflexivity.
  now rewrite contains_two.
Qed.

Lemma queryParameter_expected conf field g :
  fst (queryParameter conf field g) = expectedQueryParameter conf field.
Proof.
  unfold queryParameter, expectedQueryParameter, fieldSchemaOf, bind.
  pose proof (schemaOrReferenceForField_schema conf (f_Desc field) g
                NewOpenAPIv3Generator) as E.
  destruct (schemaOrReferenceForField conf (f_Desc field) g) as [s g'].
  simpl in E. subst s. simpl.
  now rewrite coalesceToStringSchema_coalesced.
Qed.

Lemma queryParameters_expected conf fields covered :
  forall g,
    fst (queryParameters conf fields covered g)
    = map (expectedQueryParameter conf) (filter (uncovered covered) fields).
Proof.
  induction fields as [|field fields IH]; intros g; simpl; [reflexivity|].
  unfold uncovered at 1.
  destruct (negb (contains covered (fd_Name (f_Desc field)))); [|apply IH].
  unfold bind. pose proof (queryParameter_expected conf field g) as E.
  destruct (queryParameter conf field g) as [p g1]. simpl in E. subst p.
  specialize (IH g1). destruct (queryParameters conf fields covered g1) as [ps g2].
  simpl in *. now subst ps.
Qed.

(** C6 as first stated fails on a [bytes] field: its schema has type
    [string], yet the query parameter does not keep it (the format is
    gone). *)
Lemma bytes_query_parameter_loses_format :
  let op := fst (fst (buildOperationV3 defaultConf "" "Messaging_GetMessage"
                        "Messaging" "" "/v1/messages/{message_id}" ""
                        Sample.GetMessageRequest Sample.MessageOut
                        NewOpenAPIv3Generator)) in
  fieldSchemaOf defaultConf (f_Desc Sample.dataField)
  = Some (inline (typed_format "string" "bytes"))
  /\ map (fun p => (Param_Name p, Param_In p, Param_Schema p)) (Op_Parameters op)
     = [("messageId", "path", inline (typed "string"));
        ("data", "query", inline (typed "string"));
        ("pageSize", "query", inline (typed_format "integer" "int32"))]
  /\ inline (typed "string") <> inline (typed_format "string" "bytes").
Proof. repeat split. discriminate. Qed.

Lemma unsupported_pattern_registers_nothing_witness :
  addMethodV3 defaultConf Sample.customService Sample.customMethod
    (NewOpenAPIv3Generator, initialDocument defaultConf, O)
  = (NewOpenAPIv3Generator, initialDocument defaultConf, 1).
Proof.
  exact (proj1 (proj2 (unsupported_pattern_registers_nothing defaultConf
                         Sample.customService Sample.customMethod
                         {| hr_Pattern := HttpRule_Custom "WATCH" "/v1/messages";
                            hr_Body := "" |}
                         NewOpenAPIv3Generator (initialDocument defaultConf) O
                         eq_refl eq_refl))).
Defined.

Lemma tag_counts_unsupported_patterns_witness :
  Doc_Tags (snd (addServiceV3 defaultConf
                   (NewOpenAPIv3Generator, initialDocument defaultConf)
                   Sample.customService))
  = [{| Tag_Name := "Watcher"; Tag_Description := "Watches messages." |}]
  /\ Doc_Paths (snd (addServiceV3 defaultConf
                       (NewOpenAPIv3Generator, initialDocument defaultConf)
                       Sample.customService)) = [].
Proof.
  pose proof (tag_counts_unsupported_patterns defaultConf Sample.customService
                NewOpenAPIv3Generator (initialDocument defaultConf)
                eq_refl eq_refl) as (_ & H & _).
  rewrite H. split; reflexivity.
Defined.

(** ** Canonical order *)

Section ByteOrder.

Lemma ltb_lt a b : String.ltb a b = true <-> String_as_OT.lt a b.
Proof.
  unfold String.ltb. rewrite <- String_as_OT.cmp_lt. unfold String_as_OT.cmp.
  destruct (String.compare a b); intuition discriminate.
Qed.

Lemma ltb_irrefl a : String.ltb a a = false.
Proof.
  destruct (String.ltb a a) eqn:E; [|reflexivity].
  apply ltb_lt in E. apply String_as_OT.lt_not_eq in E.
  exfalso. apply E. reflexivity.
Qed.

Lemma ltb_asym a b : String.ltb a b = true -> String.ltb b a = false.
Proof.
  intros H. destruct (String.ltb b a) eqn:E; [|reflexivity].
  apply ltb_lt in H, E.
  pose proof (String_as_OT.lt_trans _ _ _ H E) as C.
  apply String_as_OT.lt_not_eq in C. exfalso. apply C. reflexivity.
Qed.

Lemma ltb_trans a b c :
  String.ltb a b = true -> String.ltb b c = true -> String.ltb a c = true.
Proof.
  rewrite !ltb_lt. apply String_as_OT.lt_trans.
Qed.

(** Neither below the other: the same string. *)
Lemma ltb_antisym a b :
  String.ltb a b = false -> String.ltb b a = false -> a = b.
Proof.
  unfold String.ltb. rewrite (String.compare_antisym b a).
  destruct (String.compare a b) eqn:E; simpl; try discriminate.
  intros _ _. now apply String.compare_eq_iff.
Qed.

Lemma geb_trans a b c :
  String.ltb b a = false -> String.ltb c b = false -> String.ltb c a = false.
Proof.
  intros Hab Hbc. destruct (String.ltb c a) eqn:E; [|reflexivity].
  destruct (String.ltb a b) eqn:Eab.
  - rewrite (ltb_trans _ _ _ E Eab) in Hbc. discriminate.
  - assert (a = b) by now apply ltb_antisym. subst. congruence.
Qed.

End ByteOrder.

Section SortSliceProperties.

Context {A : Type} (key : A -> string).

Lemma insertSorted_perm x l : Permutation (x :: l) (insertSorted key x l).
Proof.
  induction l as [|y l IH]; simpl; [reflexivity|].
  destruct (String.ltb (key x) (key y)); [reflexivity|].
  rewrite perm_swap. now constructor.
Qed.

Lemma insertSorted_ordered x l :
  keyOrdered key l -> keyOrdered key (insertSorted key x l).
Proof.
  unfold keyOrdered. induction 1 as [|y l Hs IH Hy]; simpl.
  - repeat constructor.
  - destruct (String.ltb (key x) (key y)) eqn:E.
    + constructor; [now constructor|].
      constructor; [now apply ltb_asym|].
      rewrite Forall_forall in *. intros z Hz.
      apply geb_trans with (b := key y); [now apply ltb_asym|auto].
    + constructor; [assumption|].
      rewrite Forall_forall in *. intros z Hz.
      apply Permutation_in with (l' := x :: l) in Hz;
        [|symmetry; apply insertSorted_perm].
      destruct Hz as [<-|Hz]; auto.
Qed.

Lemma fold_insert_perm l acc :
  Permutation (acc ++ l)
    (fold_left (fun sorted x => insertSorted key x sorted) l acc).
Proof.
  revert acc. induction l as [|x l IH]; intros acc; simpl.
  - now rewrite app_nil_r.
  - rewrite <- IH, <- insertSorted_perm. simpl.
    symmetry. apply Permutation_middle.
Qed.

Lemma fold_insert_ordered l acc :
  keyOrdered key acc ->
  keyOrdered key (fold_left (fun sorted x => insertSorted key x sorted) l acc).
Proof.
  revert acc. induction l as [|x l IH]; intros acc H; simpl; [assumption|].
  apply IH, insertSorted_ordered, H.
Qed.

Lemma sortSlice_perm l : Permutation l (sortSlice key l).
Proof. apply (fold_insert_perm l []). Qed.

Lemma sortSlice_ordered l : keyOrdered key (sortSlice key l).
Proof. apply fold_insert_ordered. constructor. Qed.

Lemma insertSorted_last x acc :
  Forall (fun y => String.ltb (key x) (key y) = false) acc ->
  insertSorted key x acc = (acc ++ [x])%list.
Proof.
  induction 1 as [|y acc Hy _ IH]; simpl; [reflexivity|].
  now rewrite Hy, IH.
Qed.

Lemma keyOrdered_app_inv l1 l2 :
  keyOrdered key (l1 ++ l2) ->
  forall x y, In x l1 -> In y l2 -> String.ltb (key y) (key x) = false.
Proof.
  unfold keyOrdered. induction l1 as [|a l1 IH]; simpl; intros H x y Hx Hy.
  - destruct Hx.
  - inversion H as [|? ? Hs Ha]; subst. destruct Hx as [<-|Hx].
    + rewrite Forall_forall in Ha. apply Ha, in_or_app. now right.
    + now apply IH.
Qed.

Lemma fold_insert_ordered_id l acc :
  keyOrdered key (acc ++ l) ->
  fold_left (fun sorted x => insertSorted key x sorted) l acc = (acc ++ l)%list.
Proof.
  revert acc. induction l as [|x l IH]; intros acc H; simpl.
  - now rewrite app_nil_r.
  - rewrite insertSorted_last.
    + rewrite IH; rewrite <- app_assoc; [reflexivity|exact H].
    + apply Forall_forall. intros y Hy.
      apply (keyOrdered_app_inv acc (x :: l) H y x Hy). now left.
Qed.

(** Sorting a slice that is in order leaves it as it is. *)
Lemma sortSlice_ordered_id l : keyOrdered key l -> sortSlice key l = l.
Proof. intros H. apply (fold_insert_ordered_id l [] H). Qed.

Lemma sortSlice_idempotent l : sortSlice key (sortSlice key l) = sortSlice key l.
Proof. apply sortSlice_ordered_id, sortSlice_ordered. Qed.

(** Two ordered arrangements of the same entries coincide when entries
    with equal keys are equal. *)
Lemma keyOrdered_perm_unique l1 :
  forall l2,
    (forall a b, In a l1 -> In b l1 -> key a = key b -> a = b) ->
    keyOrdered key l1 -> keyOrdered key l2 -> Permutation l1 l2 -> l1 = l2.
Proof.
  unfold keyOrdered.
  induction l1 as [|a l1 IH]; intros l2 Hinj H1 H2 P.
  - now apply Permutation_nil in P.
  - destruct l2 as [|b l2]; [now apply Permutation_sym, Permutation_nil in P|].
    inversion H1 as [|? ? Hs1 Ha]; inversion H2 as [|? ? Hs2 Hb]; subst.
    rewrite Forall_forall in Ha, Hb.
    assert (Hab : a = b).
    { assert (Ina : In a (b :: l2)) by (apply (Permutation_in _ P); now left).
      assert (Inb : In b (a :: l1))
        by (apply (Permutation_in _ (Permutation_sym P)); now left).
      destruct Ina as [E|Ina]; [now symmetry|].
      destruct Inb as [E|Inb]; [assumption|].
      apply Hinj; [now left|now right|].
      apply ltb_antisym; [apply Hb, Ina|apply Ha, Inb]. }
    subst b. f_equal. apply IH; auto.
    + intros x y Hx Hy. apply Hinj; now right.
    + now apply Permutation_cons_inv in P.
Qed.

Lemma NoDup_keys_injective l :
  NoDup (map key l) ->
  forall a b, In a l -> In b l -> key a = key b -> a = b.
Proof.
  induction l as [|x l IH]; simpl; intros H a b Ha Hb E; [destruct Ha|].
  inversion H as [|? ? Hx Hn]; subst.
  destruct Ha as [<-|Ha], Hb as [<-|Hb]; auto.
  - exfalso. apply Hx. rewrite E. now apply in_map.
  - exfalso. apply Hx. rewrite <- E. now apply in_map.
Qed.

Lemma keyOrdered_map l : keyOrdered key l -> keyOrdered (fun s => s) (map key l).
Proof.
  unfold keyOrdered. induction 1 as [|x l Hs IH Hx]; simpl; constructor; auto.
  rewrite Forall_forall in *. intros s Hs'.
  apply in_map_iff in Hs' as (y & <- & Hy). auto.
Qed.

End SortSliceProperties.

(** The order of the keys after sorting depends on the entries only,
    not on the order in which they arrive. *)
Lemma sortSlice_keys_perm {A} (key : A -> string) l1 l2 :
  Permutation l1 l2 ->
  map key (sortSlice key l1) = map key (sortSlice key l2).
Proof.
  intros P. apply (keyOrdered_perm_unique (fun s => s)).
  - auto.
  - apply keyOrdered_map, sortSlice_ordered.
  - apply keyOrdered_map, sortSlice_ordered.
  - apply Permutation_map.
    now rewrite <- (sortSlice_perm key l1), <- (sortSlice_perm key l2).
Qed.

(** With distinct keys the sorted slice itself depends on the entries
    only. *)
Lemma sortSlice_perm_NoDup {A} (key : A -> string) l1 l2 :
  NoDup (map key l1) -> Permutation l1 l2 ->
  sortSlice key l1 = sortSlice key l2.
Proof.
  intros N P. apply (keyOrdered_perm_unique key).
  - apply NoDup_keys_injective.
    eapply Permutation_NoDup; [|exact N].
    apply Permutation_map, sortSlice_perm.
  - apply sortSlice_ordered.
  - apply sortSlice_ordered.
  - now rewrite <- (sortSlice_perm key l1), <- (sortSlice_perm key l2).
Qed.


(** C8 (as amended).  The last pass of [buildDocumentV3] sorts the
    tags, the paths and the component schemas by name, in byte order.
    Whatever function meets the contract of [sort.Slice] (an ordered
    rearrangement of its input; the sort of the model is one), the
    sequence of names it returns is the same: it does not change when
    the list is sorted again, nor with the order in which the entries
    were produced.  When the names are pairwise distinct the same holds
    of the entries themselves.  Nothing is promised about the order
    among entries of the same name. *)
Theorem sorted_output_order (A : Type) (key : A -> string)
    (sort : list A -> list A) (Hsort : sortsByKey key sort) :
  sortsByKey key (sortSlice key)
  /\ (forall d,
        Doc_Tags (sortDocument d) = sortSlice Tag_Name (Doc_Tags d)
        /\ Doc_Paths (sortDocument d) = sortSlice npi_Name (Doc_Paths d)
        /\ Doc_Schemas (sortDocument d) = sortSlice nsr_Name (Doc_Schemas d))
  /\ (forall l, map key (sort l) = map key (sortSlice key l))
  /\ (forall l, map key (sort (sort l)) = map key (sort l))
  /\ (forall l l', Permutation l l' -> map key (sort l') = map key (sort l))
  /\ (forall l,
        NoDup (map key l) ->
        sort l = sortSlice key l
        /\ sort (sort l) = sort l
        /\ forall l', Permutation l l' -> sort l' = sort l).
Proof.
  assert (Hmodel : sortsByKey key (sortSlice key))
    by (intros l; split; [apply sortSlice_perm|apply sortSlice_ordered]).
  assert (Keys : forall (s1 s2 : list A -> list A) l l',
             sortsByKey key s1 -> sortsByKey key s2 -> Permutation l l' ->
             map key (s1 l) = map key (s2 l')).
  { intros s1 s2 l l' H1 H2 P.
    destruct (H1 l) as [P1 O1]. destruct (H2 l') as [P2 O2].
    apply (keyOrdered_perm_unique (fun s => s)).
    - auto.
    - now apply keyOrdered_map.
    - now apply keyOrdered_map.
    - apply Permutation_map. now rewrite <- P1, <- P2. }
  assert (Entries : forall (s1 s2 : list A -> list A) l l',
             sortsByKey key s1 -> sortsByKey key s2 -> Permutation l l' ->
             NoDup (map key l) -> s1 l = s2 l').
  { intros s1 s2 l l' H1 H2 P N.
    destruct (H1 l) as [P1 O1]. destruct (H2 l') as [P2 O2].
    apply (keyOrdered_perm_unique key); try assumption.
    - apply NoDup_keys_injective.
      eapply Permutation_NoDup; [|exact N]. now apply Permutation_map.
    - now rewrite <- P1, <- P2. }
  split; [exact Hmodel|split; [|split; [|split; [|split]]]].
  - intros d. repeat split.
  - intros l. now apply Keys.
  - intros l. apply Keys; try assumption.
    apply Permutation_sym, Hsort.
  - intros l l' P. apply Keys; try assumption. now apply Permutation_sym.
  - intros l N. split; [|split].
    + now apply Entries.
    + apply Entries; try assumption.
      * apply Permutation_sym, Hsort.
      * eapply Permutation_NoDup; [|exact N].
        apply Permutation_map, Hsort.
    + intros l' P. apply Entries; try assumption.
      * now apply Permutation_sym.
      * eapply Permutation_NoDup; [|exact N]. now apply Permutation_map.
Qed.

Lemma sorted_output_order_witness :
  let a := {| Tag_Name := "Library"; Tag_Description := "" |} in
  let b := {| Tag_Name := "Bookstore"; Tag_Description := "" |} in
  sortSlice Tag_Name [a; b] = sortSlice Tag_Name [b; a]
  /\ map Tag_Name (sortSlice Tag_Name [a; b]) = ["Bookstore"; "Library"].
Proof.
  intros a b.
  destruct (sorted_output_order Tag Tag_Name (sortSlice Tag_Name)
              (fun l => conj (sortSlice_perm Tag_Name l)
                             (sortSlice_ordered Tag_Name l)))
    as (_ & _ & _ & _ & _ & H).
  split; [|reflexivity].
  apply (H [b; a]).
  - simpl. repeat constructor; simpl; intuition discriminate.
  - apply perm_swap.
Defined.

(** C8 as first stated fails when two entries share a name: two files
    that each declare a service [Messaging] yield the two tags in the
    order in which the files are read.  (A slice of two entries is
    sorted by insertion in every release of Go.) *)
Lemma same_name_tags_keep_traversal_order :
  Permutation [Sample.messagingV1; Sample.messagingV2]
              [Sample.messagingV2; Sample.messagingV1]
  /\ option_map Doc_Tags
       (buildDocumentV3 defaultConf 4 [Sample.messagingV1; Sample.messagingV2])
     = Some [{| Tag_Name := "Messaging"; Tag_Description := "First API." |};
             {| Tag_Name := "Messaging"; Tag_Description := "Second API." |}]
  /\ option_map Doc_Tags
       (buildDocumentV3 defaultConf 4 [Sample.messagingV2; Sample.messagingV1])
     = Some [{| Tag_Name := "Messaging"; Tag_Description := "Second API." |};
             {| Tag_Name := "Messaging"; Tag_Description := "First API." |}].
Proof. split; [apply perm_swap|split; vm_compute; reflexivity]. Qed.

(** ** How the translator extends the accumulators *)

Section Accumulators.

Variable conf : Configuration.

Lemma contains_In l e : contains l e = true <-> In e l.
Proof.
  induction l as [|a l IH]; simpl; [intuition discriminate|].
  destruct (String.eqb_spec a e); intuition.
Qed.

Lemma contains_not_In l e : contains l e = false <-> ~ In e l.
Proof.
  rewrite <- contains_In. destruct (contains l e); intuition congruence.
Qed.

Lemma extends_refl g : extends g g [].
Proof.
  split; [reflexivity|split].
  - exists []. split; [now rewrite app_nil_r|apply incl_refl].
  - intros x [].
Qed.

Lemma extends_trans g g1 g2 n1 n2 :
  extends g g1 n1 -> extends g1 g2 n2 -> extends g g2 (n1 ++ n2).
Proof.
  intros (G1 & (e1 & R1 & I1) & N1) (G2 & (e2 & R2 & I2) & N2).
  split; [congruence|split].
  - exists (e1 ++ e2)%list. split.
    + now rewrite R2, R1, app_assoc.
    + apply incl_app; [now apply incl_appl|now apply incl_appr].
  - apply incl_app; [|assumption].
    intros x Hx. rewrite R2. apply in_or_app. left. now apply N1.
Qed.

Lemma extends_weaken g g' n n' :
  extends g g' n -> incl n n' -> incl n' n -> extends g g' n'.
Proof.
  intros (G & (e & R & I) & N) H H'. split; [assumption|split].
  - exists e. split; [assumption|]. eapply incl_tran; eassumption.
  - eapply incl_tran; eassumption.
Qed.

Lemma schemaReferenceForTypeName_extends typeName g :
  fst (schemaReferenceForTypeName conf typeName g) = refOf conf typeName
  /\ extends g (snd (schemaReferenceForTypeName conf typeName g)) [typeName].
Proof.
  split; [reflexivity|]. unfold schemaReferenceForTypeName. simpl snd.
  destruct (contains (requiredSchemas g) typeName) eqn:E; simpl.
  - apply contains_In in E. split; [reflexivity|split].
    + exists []. split; [now rewrite app_nil_r|intros x []].
    + intros x [<-|[]]. assumption.
  - split; [reflexivity|split].
    + exists [typeName]. split; [reflexivity|apply incl_refl].
    + intros x [<-|[]]. apply in_or_app. right. now left.
Qed.

Lemma schemaOrReferenceForType_extends typeName g :
  extends g (snd (schemaOrReferenceForType conf typeName g)) (typeRefs typeName)
  /\ incl (optionRefs (fst (schemaOrReferenceForType conf typeName g)))
          (map (refOf conf) (typeRefs typeName)).
Proof.
  unfold schemaOrReferenceForType, typeRefs.
  repeat match goal with
         | |- context [String.eqb typeName ?c] =>
             destruct (String.eqb_spec typeName c) as [->|?];
             [simpl; split; [apply extends_refl|intros x []]|]
         end.
  assert (W : wellKnown typeName = false).
  { apply contains_not_In. simpl. intuition congruence. }
  rewrite W. cbv beta iota delta [orb bind ret].
  destruct (schemaReferenceForTypeName_extends typeName g) as [E X].
  destruct (schemaReferenceForTypeName conf typeName g) as [r g'].
  simpl in *. subst r. split; [assumption|]. intros x [<-|[]]. now left.
Qed.

Lemma kindSchemaOf_extends field g :
  fd_MapValue field = None ->
  extends g (snd (kindSchemaOf conf field g)) (fieldRefs field)
  /\ incl (optionRefs (fst (kindSchemaOf conf field g)))
          (map (refOf conf) (fieldRefs field)).
Proof.
  intros Hm.
  assert (E : fieldRefs field
              = if is_MessageKind (fd_Kind field)
                then typeRefs (fullMessageTypeName (fd_Message field)) else []).
  { destruct field; simpl in *. subst. unfold typeRefs.
    destruct (is_MessageKind _); [|reflexivity].
    destruct (wellKnown _); reflexivity. }
  rewrite E. unfold kindSchemaOf.
  destruct (fd_Kind field); simpl is_MessageKind; cbv iota;
    try (split; [apply extends_refl|intros x []]).
  apply schemaOrReferenceForType_extends.
Qed.

Lemma fieldRefs_map field value :
  fd_MapValue field = Some value -> fieldRefs field = fieldRefs value.
Proof. destruct field; simpl; intros ->; reflexivity. Qed.

Lemma schemaOrReferenceForField_extends field :
  forall g,
    extends g (snd (schemaOrReferenceForField conf field g)) (fieldRefs field)
    /\ incl (optionRefs (fst (schemaOrReferenceForField conf field g)))
            (map (refOf conf) (fieldRefs field)).
Proof.
  induction field as [f Hf|f v Hf IH] using FieldDescriptor_map_ind;
    intros g; rewrite schemaOrReferenceForField_unfold, Hf; unfold bind.
  - destruct (kindSchemaOf_extends f g Hf) as [X R].
    destruct (kindSchemaOf conf f g) as [k g1]. simpl in X, R.
    destruct k as [k|].
    + destruct (fd_IsList f); simpl; split; auto.
      now rewrite !app_nil_r.
    + destruct (is_MessageKind (fd_Kind f)); [split; auto|].
      destruct (fd_IsList f); simpl; split; auto; intros x [].
  - rewrite (fieldRefs_map f v Hf).
    destruct (IH g) as [X R].
    destruct (schemaOrReferenceForField conf v g) as [s g1]. simpl in X, R.
    simpl. split; [assumption|].
    destruct s; simpl in *; [now rewrite app_nil_r|intros x []].
Qed.

End Accumulators.

(** ** References inside operations *)

Section OperationRefs.

Variable conf : Configuration.

Lemma grows_refl g : grows g g.
Proof. split; [reflexivity|exists []; now rewrite app_nil_r]. Qed.

Lemma grows_trans g g1 g2 : grows g g1 -> grows g1 g2 -> grows g g2.
Proof.
  intros (G1 & e1 & R1) (G2 & e2 & R2). split; [congruence|].
  exists (e1 ++ e2)%list. now rewrite R2, R1, app_assoc.
Qed.

Lemma extends_grows g g' names : extends g g' names -> grows g g'.
Proof. intros (G & (e & R & _) & _). split; [assumption|now exists e]. Qed.

Lemma grows_In g g' x :
  grows g g' -> In x (requiredSchemas g) -> In x (requiredSchemas g').
Proof. intros (_ & e & R) H. rewrite R. apply in_or_app. now left. Qed.

Lemma requiredRefs_grows g g' refs :
  grows g g' -> requiredRefs conf g refs -> requiredRefs conf g' refs.
Proof.
  intros G H r Hr. destruct (H r Hr) as (T & HT & E).
  exists T. split; [eapply grows_In; eassumption|assumption].
Qed.

Lemma requiredRefs_app g l1 l2 :
  requiredRefs conf g l1 -> requiredRefs conf g l2 ->
  requiredRefs conf g (l1 ++ l2).
Proof. intros H1 H2 r Hr. apply in_app_or in Hr as [Hr|Hr]; auto. Qed.

Lemma requiredRefs_nil g : requiredRefs conf g [].
Proof. intros r []. Qed.

Lemma requiredRefs_incl g l l' :
  incl l l' -> requiredRefs conf g l' -> requiredRefs conf g l.
Proof. intros I H r Hr. apply H, I, Hr. Qed.

Lemma requiredRefs_extends g g' names refs :
  extends g g' names -> incl refs (map (refOf conf) names) ->
  requiredRefs conf g' refs.
Proof.
  intros (_ & _ & N) I r Hr. apply I in Hr. apply in_map_iff in Hr as (T & <- & HT).
  exists T. split; [now apply N|reflexivity].
Qed.

Lemma schemaRefs_applyStringRules r s :
  schemaRefs (inline (applyStringRules r s)) = schemaRefs (inline s).
Proof.
  unfold applyStringRules.
  destruct (0 <? getZ (sr_MinLen r))%Z, (0 <? getZ (sr_MaxLen r))%Z,
    (negb (String.eqb (getS (sr_Pattern r)) "")); reflexivity.
Qed.

Lemma schemaRefs_applyBounds gte lte s :
  schemaRefs (inline (applyBounds gte lte s)) = schemaRefs (inline s).
Proof.
  unfold applyBounds.
  destruct (0 <? getZ gte)%Z, (0 <? getZ lte)%Z; reflexivity.
Qed.

Lemma schemaRefs_addValidationRules s field :
  schemaRefs (addValidationRules s field) = schemaRefs s.
Proof.
  unfold addValidationRules.
  destruct (fd_Rules field) as [rules|]; [|reflexivity].
  destruct s as [r|t]; [reflexivity|].
  destruct (fd_IsMap field); [reflexivity|].
  destruct (fd_Kind field); try reflexivity.
  - destruct (GetInt32 rules); [apply schemaRefs_applyBounds|reflexivity].
  - destruct (GetInt64 rules); [apply schemaRefs_applyBounds|reflexivity].
  - destruct (GetString_ rules); [apply schemaRefs_applyStringRules|reflexivity].
Qed.

Lemma schemaRefs_coalesce s allowed :
  incl (schemaRefs (coalesceToStringSchema s allowed)) (optionRefs s).
Proof.
  unfold coalesceToStringSchema. destruct s as [[r|t]|]; simpl; try (intros x []).
  destruct (contains allowed (Schema_Type t)); [apply incl_refl|intros x []].
Qed.

Lemma queryParameter_refs field g :
  grows g (snd (queryParameter conf field g))
  /\ requiredRefs conf (snd (queryParameter conf field g))
       (schemaRefs (Param_Schema (fst (queryParameter conf field g)))).
Proof.
  unfold queryParameter, bind.
  destruct (schemaOrReferenceForField_extends conf (f_Desc field) g) as [X R].
  destruct (schemaOrReferenceForField conf (f_Desc field) g) as [s g1].
  simpl in *. split; [eapply extends_grows; eassumption|].
  rewrite schemaRefs_addValidationRules.
  eapply requiredRefs_extends; [eassumption|].
  eapply incl_tran; [apply schemaRefs_coalesce|assumption].
Qed.

Lemma queryParameters_refs fields covered :
  forall g,
    grows g (snd (queryParameters conf fields covered g))
    /\ requiredRefs conf (snd (queryParameters conf fields covered g))
         (flat_map (fun p => schemaRefs (Param_Schema p))
            (fst (queryParameters conf fields covered g))).
Proof.
  induction fields as [|field fields IH]; intros g; simpl.
  - split; [apply grows_refl|apply requiredRefs_nil].
  - destruct (negb (contains covered (fd_Name (f_Desc field)))); [|apply IH].
    unfold bind. destruct (queryParameter_refs field g) as [G1 R1].
    destruct (queryParameter conf field g) as [p g1]. simpl in G1, R1.
    destruct (IH g1) as [G2 R2].
    destruct (queryParameters conf fields covered g1) as [ps g2].
    simpl in *. split; [eapply grows_trans; eassumption|].
    apply requiredRefs_app; [|assumption].
    eapply requiredRefs_grows; eassumption.
Qed.

Lemma responseContentForMessage_refs outputMessage g :
  grows g (snd (responseContentForMessage conf outputMessage g))
  /\ requiredRefs conf (snd (responseContentForMessage conf outputMessage g))
       (mediaTypesRefs (fst (responseContentForMessage conf outputMessage g))).
Proof.
  unfold responseContentForMessage.
  repeat match goal with
         | |- context [if ?b then _ else _] =>
             destruct b; [simpl; split; [apply grows_refl|apply requiredRefs_nil]|]
         end.
  unfold bind.
  destruct (schemaReferenceForTypeName_extends conf
              (fullMessageTypeName (m_Desc outputMessage)) g) as [E X].
  destruct (schemaReferenceForTypeName conf _ g) as [r g1]. simpl in *. subst r.
  split; [eapply extends_grows; eassumption|].
  eapply requiredRefs_extends; [eassumption|]. simpl. apply incl_refl.
Qed.

Lemma requestSchemaFor_refs bodyField inputMessage g :
  grows g (snd (requestSchemaFor conf bodyField inputMessage g))
  /\ requiredRefs conf (snd (requestSchemaFor conf bodyField inputMessage g))
       (optionRefs (fst (requestSchemaFor conf bodyField inputMessage g))).
Proof.
  unfold requestSchemaFor.
  destruct (if String.eqb bodyField "*" then _ else _) as [scalar msg].
  destruct (negb (String.eqb scalar ""));
    [simpl; split; [apply grows_refl|apply requiredRefs_nil]|].
  destruct (negb (String.eqb msg ""));
    [|simpl; split; [apply grows_refl|apply requiredRefs_nil]].
  destruct (_ || _);
    [simpl; split; [apply grows_refl|apply requiredRefs_nil]|].
  unfold bind.
  destruct (schemaReferenceForTypeName_extends conf msg g) as [E X].
  destruct (schemaReferenceForTypeName conf msg g) as [r g1]. simpl in *. subst r.
  split; [eapply extends_grows; eassumption|].
  eapply requiredRefs_extends; [eassumption|]. simpl. apply incl_refl.
Qed.

Lemma pathParameter_refs (f : string -> string) names :
  flat_map (fun p => schemaRefs (Param_Schema p))
    (map (fun p => pathParameter p (f p)) names) = [].
Proof. induction names; simpl; auto. Qed.

Lemma buildOperationV3_refs summary operationID tagName description path
    bodyField inputMessage outputMessage g :
  let r := buildOperationV3 conf summary operationID tagName description path
             bodyField inputMessage outputMessage g in
  grows g (snd r) /\ requiredRefs conf (snd r) (operationRefs (fst (fst r))).
Proof.
  unfold buildOperationV3.
  destruct (pathParametersOf conf path bodyField inputMessage)
    as [[[covered p'] pp] np]. unfold bind.
  set (q := if negb (String.eqb bodyField "*")
            then queryParameters conf (m_Fields inputMessage) covered
            else ret []).
  assert (Q : grows g (snd (q g))
              /\ requiredRefs conf (snd (q g))
                   (flat_map (fun p => schemaRefs (Param_Schema p)) (fst (q g)))).
  { unfold q. destruct (negb (String.eqb bodyField "*"));
      [apply queryParameters_refs|].
    split; [apply grows_refl|apply requiredRefs_nil]. }
  destruct (q g) as [query g1]. destruct Q as [G1 R1]. simpl in G1, R1.
  destruct (responseContentForMessage_refs outputMessage g1) as [G2 R2].
  destruct (responseContentForMessage conf outputMessage g1) as [content g2].
  simpl in G2, R2.
  assert (P : requiredRefs conf g2
                (flat_map (fun p => schemaRefs (Param_Schema p))
                   ((map (fun p => pathParameter p "") pp
                     ++ map (fun p => pathParameter p ("The " ++ p ++ " id.")) np)
                    ++ query))).
  { rewrite !flat_map_app, (pathParameter_refs (fun _ => "")),
      (pathParameter_refs (fun p => "The " ++ p ++ " id.")). simpl.
    eapply requiredRefs_grows; eassumption. }
  destruct (negb (String.eqb bodyField "")).
  - destruct (requestSchemaFor_refs bodyField inputMessage g2) as [G3 R3].
    destruct (requestSchemaFor conf bodyField inputMessage g2) as [rs g3].
    simpl in *. split; [eauto using grows_trans|].
    unfold operationRefs. simpl. rewrite !app_nil_r.
    apply requiredRefs_app; [eapply requiredRefs_grows; eassumption|].
    apply requiredRefs_app; [assumption|].
    eapply requiredRefs_grows; eassumption.
  - simpl. split; [eauto using grows_trans|].
    unfold operationRefs. simpl. rewrite !app_nil_r.
    apply requiredRefs_app; assumption.
Qed.

End OperationRefs.

(** ** The state in which the closure loop starts *)

Section PathsPhase.

Variable conf : Configuration.

Lemma pathItemRefs_setOperation v op i :
  incl (pathItemRefs (setOperation v op i)) (pathItemRefs i ++ operationRefs op).
Proof.
  unfold setOperation, pathItemRefs.
  repeat match goal with
         | |- context [if ?b then _ else _] => destruct b
         end; simpl;
    intros x Hx; repeat rewrite in_app_iff in *; intuition.
Qed.

Lemma pathsRefs_updateSelected paths p f extra :
  (forall i, incl (pathItemRefs (f i)) (pathItemRefs i ++ extra)) ->
  incl (flat_map (fun i => pathItemRefs (npi_Value i)) (updateSelected paths p f))
       (flat_map (fun i => pathItemRefs (npi_Value i)) paths ++ extra).
Proof.
  intros H. induction paths as [|i paths IH]; simpl; [intros x []|].
  destruct (String.eqb (npi_Name i) p); simpl; intros x Hx;
    repeat rewrite in_app_iff in *.
  - destruct Hx as [Hx|Hx]; [|tauto].
    apply H in Hx. rewrite in_app_iff in Hx. tauto.
  - destruct Hx as [Hx|Hx]; [tauto|].
    apply IH in Hx. rewrite in_app_iff in Hx. tauto.
Qed.

Lemma documentRefs_addOperationV3 d op p v :
  incl (documentRefs (addOperationV3 d op p v)) (documentRefs d ++ operationRefs op)
  /\ Doc_Schemas (addOperationV3 d op p v) = Doc_Schemas d.
Proof.
  split; [|reflexivity]. unfold documentRefs, addOperationV3. simpl.
  intros x Hx. apply in_app_or in Hx as [Hx|Hx].
  - apply (pathsRefs_updateSelected _ _ _ (operationRefs op)) in Hx;
      [|intros i; apply pathItemRefs_setOperation].
    destruct (hasPathItem (Doc_Paths d) p).
    + repeat rewrite in_app_iff in *. tauto.
    + rewrite flat_map_app in Hx. simpl in Hx.
      repeat rewrite in_app_iff in *. simpl in Hx. tauto.
  - repeat rewrite in_app_iff. tauto.
Qed.

Lemma addMethodV3_invariant service method g d n :
  pathsInvariant conf g d ->
  pathsInvariant conf (fst (fst (addMethodV3 conf service method (g, d, n))))
                 (snd (fst (addMethodV3 conf service method (g, d, n)))).
Proof.
  intros (G & S & R). unfold addMethodV3.
  destruct (methodBinding method) as [[[a p] v] b].
  destruct (negb (String.eqb v "")); [|now repeat split].
  match goal with
  | |- context [buildOperationV3 ?c ?s ?o ?t ?ds ?pa ?bo ?i ?ou ?gg] =>
      destruct (buildOperationV3_refs c s o t ds pa bo i ou gg) as [Gr Rr];
      destruct (buildOperationV3 c s o t ds pa bo i ou gg) as [[op p2] g']
  end.
  simpl in *. destruct (documentRefs_addOperationV3 d op p2 v) as [I Sd].
  split; [destruct Gr; congruence|split; [congruence|]].
  eapply requiredRefs_incl; [exact I|].
  apply requiredRefs_app; [|assumption].
  eapply requiredRefs_grows; eassumption.
Qed.

Lemma addMethods_invariant service methods :
  forall g d n,
    pathsInvariant conf g d ->
    let st := fold_left (fun st method => addMethodV3 conf service method st)
                methods (g, d, n) in
    pathsInvariant conf (fst (fst st)) (snd (fst st)).
Proof.
  induction methods as [|m methods IH]; intros g d n H; cbn [fold_left].
  - exact H.
  - pose proof (addMethodV3_invariant service m g d n H) as H'.
    destruct (addMethodV3 conf service m (g, d, n)) as [[g' d'] n'].
    now apply IH.
Qed.

Lemma documentRefs_set_Tags tags d :
  documentRefs (set_Tags tags d) = documentRefs d.
Proof. reflexivity. Qed.

Lemma addServiceV3_invariant st service :
  pathsInvariant conf (fst st) (snd st) ->
  pathsInvariant conf (fst (addServiceV3 conf st service))
                 (snd (addServiceV3 conf st service)).
Proof.
  intros H. unfold addServiceV3.
  pose proof (addMethods_invariant service (svc_Methods service)
                (fst st) (snd st) O H) as H'.
  destruct (fold_left _ _ _) as [[g d] n]. simpl in H'.
  destruct (0 <? n)%nat; exact H'.
Qed.

Lemma addPathsToDocumentV3_invariant file st :
  pathsInvariant conf (fst st) (snd st) ->
  pathsInvariant conf (fst (addPathsToDocumentV3 conf st file))
                 (snd (addPathsToDocumentV3 conf st file)).
Proof.
  unfold addPathsToDocumentV3. revert st.
  induction (file_Services file) as [|s ss IH]; intros st H; simpl; [exact H|].
  apply IH, addServiceV3_invariant, H.
Qed.

Lemma addAllPaths_invariant files st :
  pathsInvariant conf (fst st) (snd st) ->
  pathsInvariant conf (fst (addAllPaths conf files st))
                 (snd (addAllPaths conf files st)).
Proof.
  unfold addAllPaths. revert st.
  induction files as [|f files IH]; intros st H; simpl; [exact H|].
  apply IH. destruct (file_Generate f); [|exact H].
  now apply addPathsToDocumentV3_invariant.
Qed.

Lemma documentRefs_inferTitle d : documentRefs (inferTitle d) = documentRefs d.
Proof.
  unfold inferTitle. destruct (Doc_Tags d) as [|t [|]]; reflexivity.
Qed.

Lemma Doc_Schemas_inferTitle d : Doc_Schemas (inferTitle d) = Doc_Schemas d.
Proof.
  unfold inferTitle. destruct (Doc_Tags d) as [|t [|]]; reflexivity.
Qed.

Lemma beforeClosure_invariant files :
  pathsInvariant conf (fst (beforeClosure conf files)) (snd (beforeClosure conf files)).
Proof.
  unfold beforeClosure.
  pose proof (addAllPaths_invariant files
                (NewOpenAPIv3Generator, initialDocument conf)) as H.
  destruct (addAllPaths conf files _) as [g d]. simpl in *.
  destruct H as (G & S & R).
  - repeat split; try reflexivity. intros r [].
  - repeat split; [assumption|now rewrite Doc_Schemas_inferTitle|].
    now rewrite documentRefs_inferTitle.
Qed.

End PathsPhase.

(** ** One message, one pass *)

Section MessageSchemas.

Variable conf : Configuration.

Lemma schemaRefs_decorateField field pattern o i s :
  schemaRefs (inline (decorateField field pattern o i s)) = schemaRefs (inline s).
Proof.
  unfold decorateField.
  destruct (_ && _), o, i; reflexivity.
Qed.

Lemma addField_extends pattern field acc g :
  let r := addField conf pattern field acc g in
  extends g (snd r) (fieldRefs (f_Desc field))
  /\ incl (propertiesRefs (fst (fst r)))
          (propertiesRefs (fst acc) ++ map (refOf conf) (fieldRefs (f_Desc field))).
Proof.
  unfold addField. destruct acc as [properties requiredProperties]. unfold bind.
  destruct (schemaOrReferenceForField_extends conf (f_Desc field) g) as [X R].
  destruct (schemaOrReferenceForField conf (f_Desc field) g) as [s g1].
  simpl in X, R.
  assert (E : forall s s', schemaRefs s' = schemaRefs s ->
                schemaRefs (if conf_Validate conf
                            then addValidationRules s' (f_Desc field) else s')
                = schemaRefs s).
  { intros s0 s' Hs'. destruct (conf_Validate conf); [|assumption].
    now rewrite schemaRefs_addValidationRules. }
  destruct s as [[r|t]|]; cbv beta iota zeta delta [ret]; cbn [fst snd].
  - split; [assumption|]. unfold propertiesRefs.
    rewrite flat_map_app. cbn [flat_map snd]. rewrite app_nil_r.
    rewrite (E (SchemaOrReference_Reference r) _ eq_refl).
    apply incl_app; [apply incl_appl, incl_refl|]. apply incl_appr. exact R.
  - split; [assumption|]. unfold propertiesRefs.
    rewrite flat_map_app. cbn [flat_map snd]. rewrite app_nil_r.
    rewrite (E (SchemaOrReference_Schema t) _
               (schemaRefs_decorateField field pattern _ _ t)).
    apply incl_app; [apply incl_appl, incl_refl|]. apply incl_appr. exact R.
  - split; [assumption|]. apply incl_appl, incl_refl.
Qed.

Lemma addFields_extends pattern fields :
  forall acc g,
    let r := addFields conf pattern fields acc g in
    extends g (snd r) (flat_map (fun f => fieldRefs (f_Desc f)) fields)
    /\ incl (propertiesRefs (fst (fst r)))
            (propertiesRefs (fst acc)
             ++ map (refOf conf) (flat_map (fun f => fieldRefs (f_Desc f)) fields)).
Proof.
  induction fields as [|field fields IH]; intros acc g; simpl.
  - split; [apply extends_refl|]. rewrite app_nil_r. apply incl_refl.
  - unfold bind. destruct (addField_extends pattern field acc g) as [X1 R1].
    destruct (addField conf pattern field acc g) as [acc1 g1].
    simpl in X1, R1. destruct (IH acc1 g1) as [X2 R2].
    destruct (addFields conf pattern fields acc1 g1) as [acc2 g2].
    simpl in *. split; [eapply extends_trans; eassumption|].
    rewrite map_app. intros x Hx. apply R2 in Hx.
    repeat rewrite in_app_iff in *. destruct Hx as [Hx|Hx]; [|tauto].
    apply R1 in Hx. rewrite in_app_iff in Hx. tauto.
Qed.

(** A step of the message loop either skips the message or generates
    its schema. *)
Lemma addMessageSchema_cases m g d :
  addMessageSchema conf m (g, d) = (g, d)
  /\ (~ In (typeNameOf m) (requiredSchemas g)
      \/ In (typeNameOf m) (generatedSchemas g))
  \/ generatesSchema conf m g d (fst (addMessageSchema conf m (g, d)))
       (snd (addMessageSchema conf m (g, d))).
Proof.
  unfold addMessageSchema. fold (typeNameOf m).
  destruct (contains (requiredSchemas g) (typeNameOf m)) eqn:Er; simpl negb.
  2:{ left. split; [reflexivity|]. left. now apply contains_not_In. }
  destruct (contains (generatedSchemas g) (typeNameOf m)) eqn:Eg; simpl orb.
  { left. split; [reflexivity|]. right. now apply contains_In. }
  right. cbv iota.
  set (g0 := {| requiredSchemas := requiredSchemas g;
                generatedSchemas := (generatedSchemas g ++ [typeNameOf m])%list |}).
  match goal with
  | |- context [addFields conf ?p (m_Fields m) ([], []) g0] =>
      destruct (addFields_extends p (m_Fields m) ([], []) g0) as [X R];
      destruct (addFields conf p (m_Fields m) ([], []) g0) as [[props req] g1]
  end.
  simpl in X, R. destruct X as (G & (extra & Rq & Ix) & N).
  unfold generatesSchema. simpl.
  split; [now apply contains_In|].
  split; [now apply contains_not_In|].
  split; [exact G|].
  split; [exists extra; split; assumption|].
  split; [exact N|].
  split; [reflexivity|].
  eexists. split; [reflexivity|]. split; [reflexivity|].
  simpl. exact R.
Qed.

End MessageSchemas.

Section ClosurePass.

Variable conf : Configuration.

Lemma Message_nested_ind (P : Message -> Prop) :
  (forall m, Forall P (m_Messages m) -> P m) -> forall m, P m.
Proof.
  intros H.
  refine (fix IH (m : Message) : P m :=
            match m with
            | Build_Message desc fields nested leading resource =>
                H (Build_Message desc fields nested leading resource)
                  ((fix all (ms : list Message) : Forall P ms :=
                      match ms with
                      | [] => Forall_nil P
                      | x :: xs => Forall_cons x (IH x) (all xs)
                      end) nested)
            end).
Qed.

Lemma fold_left_flat_map {S X Y} (f : S -> Y -> S) (h : X -> list Y) l :
  forall a,
    fold_left f (flat_map h l) a
    = fold_left (fun a x => fold_left f (h x) a) l a.
Proof.
  induction l as [|x l IH]; intros a; simpl; [reflexivity|].
  now rewrite fold_left_app, IH.
Qed.

Lemma addSchemasForMessage_unfold m st :
  addSchemasForMessage conf m st
  = addMessageSchema conf m
      (fold_left (fun st nested => addSchemasForMessage conf nested st)
         (m_Messages m) st).
Proof. destruct m; reflexivity. Qed.

Lemma flattenMessage_unfold m :
  flattenMessage m = (flat_map flattenMessage (m_Messages m) ++ [m])%list.
Proof. destruct m; reflexivity. Qed.

Lemma addSchemasForMessage_flatten m :
  forall st,
    addSchemasForMessage conf m st = addDeclared conf (flattenMessage m) st.
Proof.
  induction m as [m IH] using Message_nested_ind. intros st.
  rewrite addSchemasForMessage_unfold, flattenMessage_unfold.
  unfold addDeclared. rewrite fold_left_app. simpl. f_equal.
  rewrite fold_left_flat_map. revert st.
  induction IH as [|x xs Hx _ IHxs]; intros st; simpl; [reflexivity|].
  rewrite Hx. apply IHxs.
Qed.

Lemma addSchemasToDocumentV3_flatten messages :
  forall st,
    addSchemasToDocumentV3 conf st messages
    = addDeclared conf (flat_map flattenMessage messages) st.
Proof.
  unfold addSchemasToDocumentV3, addDeclared.
  induction messages as [|m ms IH]; intros st; simpl; [reflexivity|].
  rewrite fold_left_app, IH. f_equal. apply addSchemasForMessage_flatten.
Qed.

(** A closure pass visits the declared messages one after the other. *)
Lemma addAllSchemas_declared files :
  forall st, addAllSchemas conf files st = addDeclared conf (declared files) st.
Proof.
  unfold addAllSchemas, declared, addDeclared.
  induction files as [|f files IH]; intros st; simpl; [reflexivity|].
  rewrite fold_left_app, IH. f_equal. apply addSchemasToDocumentV3_flatten.
Qed.

Lemma addDeclared_cons m ms st :
  addDeclared conf (m :: ms) st = addDeclared conf ms (addMessageSchema conf m st).
Proof. reflexivity. Qed.

(** What a pass over [messages] does to the two accumulators. *)
Lemma addDeclared_accumulators messages :
  forall g d,
    let g' := fst (addDeclared conf messages (g, d)) in
    (exists extra, requiredSchemas g' = (requiredSchemas g ++ extra)%list)
    /\ (exists new,
           generatedSchemas g' = (generatedSchemas g ++ new)%list
           /\ incl new (map typeNameOf messages)
           /\ (NoDup (generatedSchemas g) -> NoDup (generatedSchemas g'))
           /\ (new = [] -> addDeclared conf messages (g, d) = (g, d)))
    /\ (forall m, In m messages ->
                  In (typeNameOf m) (requiredSchemas g) ->
                  In (typeNameOf m) (generatedSchemas g')).
Proof.
  induction messages as [|m ms IH]; intros g d; cbv zeta.
  - simpl. split; [exists []; now rewrite app_nil_r|]. split.
    + exists []. rewrite app_nil_r. repeat split; auto. intros x [].
    + intros m [].
  - rewrite addDeclared_cons.
    destruct (addMessageSchema_cases conf m g d) as [[E S]|G].
    + rewrite E.
      destruct (IH g d) as (R & (new & Gn & Inc & Nd & Nil) & Hall).
      split; [exact R|]. split.
      * exists new. repeat split; auto. now apply incl_tl.
      * intros m' [<-|Hm] Hr; [|now apply Hall].
        destruct S as [S|S]; [contradiction|].
        rewrite Gn. apply in_or_app. now left.
    + destruct (addMessageSchema conf m (g, d)) as [g1 d1]. simpl in G.
      destruct G as (Hr & Hg & G1 & (e1 & R1 & _) & _).
      destruct (IH g1 d1) as ((e2 & R2) & (new & Gn & Inc & Nd & Nil) & Hall).
      split; [exists (e1 ++ e2)%list; now rewrite R2, R1, app_assoc|]. split.
      * exists (typeNameOf m :: new). rewrite Gn, G1, <- app_assoc. simpl.
        repeat split.
        -- intros x [<-|Hx]; [now left|right; now apply Inc].
        -- intros N. change (typeNameOf m :: new) with ([typeNameOf m] ++ new)%list.
           rewrite app_assoc, <- G1, <- Gn. apply Nd. rewrite G1.
           apply NoDup_app; [assumption|repeat constructor; intros []|].
           intros x Hx [<-|[]]. contradiction.
        -- discriminate.
      * intros m' [<-|Hm] Hr'.
        -- rewrite Gn, G1. apply in_or_app. left. apply in_or_app. right. now left.
        -- apply Hall; [assumption|]. rewrite R1. apply in_or_app. now left.
Qed.

End ClosurePass.

(** ** Termination of the closure loop *)

Section ClosureLoop.

Variable conf : Configuration.
Variable files : list File.

Lemma schemaClosure_S fuel st :
  schemaClosure conf (S fuel) files st
  = if (0 <? List.length (requiredSchemas (fst st)))%nat
    then schemaClosure conf fuel files (nextRound conf files st)
    else Some st.
Proof.
  simpl. unfold nextRound.
  destruct (0 <? _)%nat; [|reflexivity].
  destruct (addAllSchemas conf files st); reflexivity.
Qed.

Lemma schemaClosure_more fuel :
  forall st r k,
    schemaClosure conf fuel files st = Some r ->
    schemaClosure conf (fuel + k) files st = Some r.
Proof.
  induction fuel as [|fuel IH]; intros st r k H; [discriminate|].
  change (S fuel + k) with (S (fuel + k)). rewrite schemaClosure_S in *.
  destruct (0 <? _)%nat; [now apply IH|assumption].
Qed.

(** One round of the loop: the generated names grow by [new], and what
    stays required is what the pass appended. *)
Lemma nextRound_accumulators g d :
  let st' := nextRound conf files (g, d) in
  exists new,
    generatedSchemas (fst st') = (generatedSchemas g ++ new)%list
    /\ incl new (declaredNames files)
    /\ (NoDup (generatedSchemas g) -> NoDup (generatedSchemas (fst st')))
    /\ (new = [] -> requiredSchemas (fst st') = []).
Proof.
  unfold nextRound. rewrite addAllSchemas_declared.
  destruct (addDeclared_accumulators conf (declared files) g d)
    as ((extra & R) & (new & G & Inc & Nd & Nil) & _).
  destruct (addDeclared conf (declared files) (g, d)) as [g' d'] eqn:E.
  simpl in *. exists new. repeat split; auto.
  intros ->. specialize (Nil eq_refl). injection Nil as -> ->.
  apply skipn_all.
Qed.

Lemma nextRound_loopState st :
  loopState files st -> loopState files (nextRound conf files st).
Proof.
  destruct st as [g d]. intros [N I].
  destruct (nextRound_accumulators g d) as (new & G & Inc & Nd & _).
  split; [auto|]. rewrite G. now apply incl_app.
Qed.

Lemma schemaClosure_done fuel st :
  requiredSchemas (fst st) = [] ->
  schemaClosure conf (S fuel) files st = Some st.
Proof. intros H. now rewrite schemaClosure_S, H. Qed.

Lemma schemaClosure_step fuel st :
  requiredSchemas (fst st) <> [] ->
  schemaClosure conf (S fuel) files st
  = schemaClosure conf fuel files (nextRound conf files st).
Proof.
  intros H. rewrite schemaClosure_S.
  destruct (requiredSchemas (fst st)); [congruence|reflexivity].
Qed.

(** The loop stops within [k + 2] tests when at most [k] declared
    names are still to be generated, and whatever the rounds preserve
    holds of the state in which it stops. *)
Lemma closure_terminates k :
  forall st,
    loopState files st ->
    List.length (declaredNames files)
    - List.length (generatedSchemas (fst st)) <= k ->
    exists st',
      schemaClosure conf (S (S k)) files st = Some st'
      /\ requiredSchemas (fst st') = []
      /\ loopState files st'
      /\ forall P : Generator * Document -> Prop,
           (forall s, loopState files s -> requiredSchemas (fst s) <> [] -> P s ->
                      P (nextRound conf files s)) ->
           P st -> P st'.
Proof.
  induction k as [|k IH]; intros st L M;
    (destruct (requiredSchemas (fst st)) as [|x xs] eqn:R;
     [exists st; rewrite (schemaClosure_done _ _ R); repeat split;
        try apply L; auto|]);
    (assert (Rn : requiredSchemas (fst st) <> []) by (rewrite R; discriminate));
    rewrite (schemaClosure_step _ _ Rn);
    pose proof (nextRound_loopState st L) as L';
    destruct st as [g d];
    destruct (nextRound_accumulators g d) as (new & G & Inc & Nd & Nil);
    (destruct new as [|n new];
     [exists (nextRound conf files (g, d));
      rewrite (schemaClosure_done _ _ (Nil eq_refl)); repeat split;
      try apply L'; auto|]).
  - exfalso. destruct L as [N I], L' as [N' I']. simpl in *.
    pose proof (NoDup_incl_length N I).
    pose proof (NoDup_incl_length N' I') as Hl.
    rewrite G, length_app in Hl. simpl in Hl. lia.
  - destruct (IH (nextRound conf files (g, d)) L') as (st' & E & R' & L'' & HP').
    { destruct L as [N I], L' as [N' I']. simpl in *.
      pose proof (NoDup_incl_length N' I') as Hl.
      rewrite G, length_app in *. simpl in *. lia. }
    exists st'. repeat split; try apply L''; auto.
    intros P HP H0. apply HP'; [assumption|]. apply HP; assumption.
Qed.

End ClosureLoop.

Lemma beforeClosure_loopState conf files :
  loopState files (beforeClosure conf files).
Proof.
  destruct (beforeClosure_invariant conf files) as (G & _).
  unfold loopState. rewrite G. split; [constructor|intros x []].
Qed.

(** C2.  Whatever the input files, the closure loop of
    [buildDocumentV3] comes to an end: with any bound of at least two
    more than the number of declared messages the loop returns, with
    nothing left required, and [buildDocumentV3] returns a document.
    A type name is appended to [generatedSchemas] only where the guard
    has found it absent, so the list never holds a name twice. *)
Theorem schema_closure_terminates (conf : Configuration) (files : list File) :
  exists st',
    (forall k,
        schemaClosure conf (2 + List.length (declaredNames files) + k) files
          (beforeClosure conf files) = Some st'
        /\ buildDocumentV3 conf (2 + List.length (declaredNames files) + k) files
           = Some (sortDocument (snd st')))
    /\ requiredSchemas (fst st') = []
    /\ NoDup (generatedSchemas (fst st'))
    /\ forall m g d,
         generatedSchemas (fst (addMessageSchema conf m (g, d)))
         = generatedSchemas g
         \/ (~ In (typeNameOf m) (generatedSchemas g)
             /\ generatedSchemas (fst (addMessageSchema conf m (g, d)))
                = (generatedSchemas g ++ [typeNameOf m])%list).
Proof.
  destruct (closure_terminates conf files (List.length (declaredNames files))
              (beforeClosure conf files) (beforeClosure_loopState conf files))
    as (st' & E & R & [N _] & _); [lia|].
  exists st'. split; [|split; [exact R|split; [exact N|]]].
  - intros k.
    assert (E' : schemaClosure conf (2 + List.length (declaredNames files) + k)
                   files (beforeClosure conf files) = Some st')
      by (apply schemaClosure_more; exact E).
    split; [exact E'|]. unfold buildDocumentV3. rewrite E'.
    destruct st'; reflexivity.
  - intros m g d.
    destruct (addMessageSchema_cases conf m g d) as [[-> _]|G]; [now left|].
    right. destruct G as (_ & Hn & Hg & _). now split.
Qed.

(** ** Request bodies and responses are required *)

Section OperationRoots.

Variable conf : Configuration.

Lemma responseContentForMessage_types outputMessage g :
  incl (responseTypes outputMessage)
       (requiredSchemas (snd (responseContentForMessage conf outputMessage g))).
Proof.
  unfold responseContentForMessage, responseTypes, typeNameOf.
  destruct (String.eqb _ ".google.protobuf.Empty"); [intros x []|].
  destruct (String.eqb _ ".google.protobuf.Struct"); [intros x []|].
  destruct (String.eqb _ ".google.api.HttpBody"); [intros x []|].
  simpl orb. cbv iota. unfold bind.
  destruct (schemaReferenceForTypeName_extends conf
              (fullMessageTypeName (m_Desc outputMessage)) g) as [_ (_ & _ & N)].
  destruct (schemaReferenceForTypeName conf _ g) as [r g1]. exact N.
Qed.

Lemma requestSchemaFor_types bodyField inputMessage g :
  String.eqb bodyField "" = false ->
  incl (bodyTypes bodyField inputMessage)
       (requiredSchemas (snd (requestSchemaFor conf bodyField inputMessage g))).
Proof.
  intros Hb. unfold requestSchemaFor, bodyTypes, typeNameOf. rewrite Hb.
  destruct (if String.eqb bodyField "*" then _ else _) as [scalar msg].
  destruct (negb (String.eqb scalar "")); [intros x []|].
  destruct (String.eqb msg ""); [intros x []|]. cbn [negb].
  destruct (_ || _); [intros x []|].
  unfold bind.
  destruct (schemaReferenceForTypeName_extends conf msg g) as [_ (_ & _ & N)].
  destruct (schemaReferenceForTypeName conf msg g) as [r g1]. exact N.
Qed.

Lemma bodyTypes_empty inputMessage : bodyTypes "" inputMessage = [].
Proof. reflexivity. Qed.

Lemma buildOperationV3_types summary operationID tagName description path
    bodyField inputMessage outputMessage g :
  incl (bodyTypes bodyField inputMessage ++ responseTypes outputMessage)
       (requiredSchemas
          (snd (buildOperationV3 conf summary operationID tagName description
                  path bodyField inputMessage outputMessage g))).
Proof.
  unfold buildOperationV3.
  destruct (pathParametersOf conf path bodyField inputMessage)
    as [[[covered p'] pp] np]. unfold bind.
  destruct ((if negb (String.eqb bodyField "*")
             then queryParameters conf (m_Fields inputMessage) covered
             else ret []) g) as [query g1].
  pose proof (responseContentForMessage_types outputMessage g1) as Rs.
  destruct (responseContentForMessage conf outputMessage g1) as [content g2].
  simpl in Rs.
  destruct (String.eqb bodyField "") eqn:Eb.
  - apply String.eqb_eq in Eb. subst bodyField. simpl. exact Rs.
  - cbn [negb].
    pose proof (requestSchemaFor_types bodyField inputMessage g2 Eb) as Rb.
    destruct (requestSchemaFor_refs conf bodyField inputMessage g2) as [G3 _].
    destruct (requestSchemaFor conf bodyField inputMessage g2) as [rs g3].
    simpl in *. apply incl_app; [exact Rb|].
    intros x Hx. eapply grows_In; [exact G3|]. now apply Rs.
Qed.

Lemma addMethodV3_grows service method g d n :
  let st := addMethodV3 conf service method (g, d, n) in
  grows g (fst (fst st)) /\ incl (methodTypes method) (requiredSchemas (fst (fst st))).
Proof.
  unfold addMethodV3, methodBinding, methodTypes.
  destruct (meth_Http method) as [rule|];
    [|simpl; split; [apply grows_refl|intros x []]].
  destruct (patternBinding (hr_Pattern rule)) as [p v]. simpl snd.
  destruct (String.eqb v ""); cbn [negb];
    [simpl; split; [apply grows_refl|intros x []]|].
  match goal with
  | |- context [buildOperationV3 ?c ?s ?o ?t ?ds ?pa ?bo ?i ?ou ?gg] =>
      destruct (buildOperationV3_refs c s o t ds pa bo i ou gg) as [Gr _];
      pose proof (buildOperationV3_types s o t ds pa bo i ou gg) as Ty;
      destruct (buildOperationV3 c s o t ds pa bo i ou gg) as [[op p2] g']
  end.
  simpl in *. split; assumption.
Qed.

Lemma addMethods_grows service methods :
  forall g d n,
    let st := fold_left (fun st method => addMethodV3 conf service method st)
                methods (g, d, n) in
    grows g (fst (fst st))
    /\ incl (flat_map methodTypes methods) (requiredSchemas (fst (fst st))).
Proof.
  induction methods as [|m methods IH]; intros g d n; cbn [fold_left flat_map].
  - split; [apply grows_refl|intros x []].
  - destruct (addMethodV3_grows service m g d n) as [G1 T1].
    destruct (addMethodV3 conf service m (g, d, n)) as [[g1 d1] n1].
    simpl in G1, T1. destruct (IH g1 d1 n1) as [G2 T2]. cbv zeta.
    split; [eapply grows_trans; eassumption|].
    apply incl_app; [|assumption].
    intros x Hx. eapply grows_In; [exact G2|]. now apply T1.
Qed.

Lemma addServiceV3_grows st service :
  grows (fst st) (fst (addServiceV3 conf st service))
  /\ incl (flat_map methodTypes (svc_Methods service))
          (requiredSchemas (fst (addServiceV3 conf st service))).
Proof.
  unfold addServiceV3.
  pose proof (addMethods_grows service (svc_Methods service) (fst st) (snd st) O) as H.
  destruct (fold_left _ _ _) as [[g d] n]. simpl in H.
  destruct (0 <? n)%nat; exact H.
Qed.

Lemma addPathsToDocumentV3_grows file :
  forall st,
    grows (fst st) (fst (addPathsToDocumentV3 conf st file))
    /\ incl (flat_map methodTypes (flat_map svc_Methods (file_Services file)))
            (requiredSchemas (fst (addPathsToDocumentV3 conf st file))).
Proof.
  unfold addPathsToDocumentV3.
  induction (file_Services file) as [|s ss IH]; intros st; simpl.
  - split; [apply grows_refl|intros x []].
  - destruct (addServiceV3_grows st s) as [G1 T1].
    destruct (IH (addServiceV3 conf st s)) as [G2 T2].
    split; [eapply grows_trans; eassumption|].
    rewrite flat_map_app. apply incl_app; [|assumption].
    intros x Hx. eapply grows_In; [exact G2|]. now apply T1.
Qed.

Lemma addAllPaths_grows files :
  forall st,
    grows (fst st) (fst (addAllPaths conf files st))
    /\ incl (operationRoots files)
            (requiredSchemas (fst (addAllPaths conf files st))).
Proof.
  unfold addAllPaths, operationRoots, generatedMethods.
  induction files as [|f files IH]; intros st; simpl.
  - split; [apply grows_refl|intros x []].
  - set (st1 := if file_Generate f then addPathsToDocumentV3 conf st f else st).
    assert (H1 : grows (fst st) (fst st1)
                 /\ incl (flat_map methodTypes
                            (if file_Generate f
                             then flat_map svc_Methods (file_Services f) else []))
                         (requiredSchemas (fst st1))).
    { unfold st1. destruct (file_Generate f);
        [apply addPathsToDocumentV3_grows|].
      split; [apply grows_refl|intros x []]. }
    destruct H1 as [G1 T1]. destruct (IH st1) as [G2 T2].
    split; [eapply grows_trans; eassumption|].
    rewrite flat_map_app. apply incl_app; [|assumption].
    intros x Hx. eapply grows_In; [exact G2|]. now apply T1.
Qed.

(** The request-body and response types of the registered operations
    are among the types required when the closure loop starts. *)
Lemma operationRoots_required files :
  incl (operationRoots files) (operationTypes conf files).
Proof.
  unfold operationTypes, beforeClosure.
  destruct (addAllPaths_grows files (NewOpenAPIv3Generator, initialDocument conf))
    as [_ T].
  destruct (addAllPaths conf files _) as [g d]. exact T.
Qed.

End OperationRoots.

(** ** The closure of the component schemas *)


Lemma distinct_NoDup l : distinct l = true -> NoDup l.
Proof.
  induction l as [|x l IH]; simpl; intros H; constructor;
    apply andb_true_iff in H as [Hx Hl]; auto.
  apply negb_true_iff in Hx. now apply contains_not_In.
Qed.




(** The reference of a message named by one letter points at no entry:
    the entry is filed under [A], the reference asks for [a]. *)
Lemma single_letter_message_dangles :
  let message := topLevel "lib.v1" "A" [Sample.idField] [] in
  let file :=
    {| file_Generate := true;
       file_Services :=
         [{| svc_GoName := "Letters"; svc_Leading := "";
             svc_Methods :=
               [{| meth_GoName := "GetA"; meth_Leading := "";
                   meth_Input := Sample.GetMessageRequest; meth_Output := message;
                   meth_Http :=
                     Some {| hr_Pattern := HttpRule_Get "/v1/a/{message_id}";
                             hr_Body := "" |} |}] |}];
       file_Messages := [message] |} in
  option_map (fun d => (documentRefs d, map nsr_Name (Doc_Schemas d)))
    (buildDocumentV3 defaultConf 5 [file])
  = Some (["#/components/schemas/a"], ["A"]).
Proof. vm_compute. reflexivity. Qed.

(* ================================================================== *)
(** * Further properties of the generator *)
(* ================================================================== *)

(** ** Small helpers *)

(** X1.  [appendUnique] leaves the element in the slice, changes
    nothing when applied again, adds no other element, and keeps a
    slice without repetition free of repetition. *)
Theorem appendUnique_keeps_distinct (s : list string) (e : string) :
  contains (appendUnique s e) e = true
  /\ appendUnique (appendUnique s e) e = appendUnique s e
  /\ (forall x, In x (appendUnique s e) <-> In x s \/ x = e)
  /\ (NoDup s -> NoDup (appendUnique s e)).
Proof.
  unfold appendUnique.
  destruct (contains s e) eqn:E; simpl.
  - split; [exact E|]. split; [now rewrite E|].
    apply contains_In in E. split; [|tauto].
    intros x. split; [tauto|]. intros [H| ->]; assumption.
  - assert (C : contains (s ++ [e]) e = true)
      by (apply contains_In, in_or_app; right; now left).
    split; [exact C|]. split; [now rewrite C|]. split.
    + intros x. rewrite in_app_iff. simpl. intuition.
    + intros N. apply NoDup_app; [assumption|repeat constructor; intros []|].
      intros x Hx [<-|[]]. apply contains_not_In in E. contradiction.
Qed.

Lemma findAndFormatFieldName_in_findField conf name fields :
  findAndFormatFieldName_in conf name fields
  = match findField name fields with
    | Some field => formatFieldName conf field
    | None => name
    end.
Proof.
  induction fields as [|f fields IH]; simpl; [reflexivity|].
  destruct (String.eqb (fd_Name (f_Desc f)) name); auto.
Qed.

Lemma findField_name name fields field :
  findField name fields = Some field -> fd_Name (f_Desc field) = name.
Proof.
  induction fields as [|f fields IH]; simpl; [discriminate|].
  destruct (String.eqb_spec (fd_Name (f_Desc f)) name) as [E|_]; [|exact IH].
  intros [= <-]. exact E.
Qed.

(** X2.  [findAndFormatFieldName] answers with the formatted name of
    the first field that bears the name, and with the name itself when
    the message has no such field; under the [proto] naming it is the
    identity on every name. *)
Theorem findAndFormatFieldName_lookup (conf : Configuration) (name : string)
    (inMessage : Message) :
  findAndFormatFieldName conf name inMessage
  = match findField name (m_Fields inMessage) with
    | Some field =>
        if String.eqb (conf_Naming conf) "proto" then name
        else fd_JSONName (f_Desc field)
    | None => name
    end.
Proof.
  unfold findAndFormatFieldName. rewrite findAndFormatFieldName_in_findField.
  destruct (findField name (m_Fields inMessage)) as [field|] eqn:E; [|reflexivity].
  unfold formatFieldName. rewrite (findField_name _ _ _ E). reflexivity.
Qed.

(** ** Services, tags and the title *)

(** X3.  A service none of whose methods carries an HTTP annotation
    changes nothing: no tag, no path, no required schema. *)
Theorem unannotated_service_is_skipped (conf : Configuration)
    (service : Service) (st : Generator * Document)
    (Hplain : existsb annotated (svc_Methods service) = false) :
  addServiceV3 conf st service = st.
Proof.
  assert (Hu : forallb unbound (svc_Methods service) = true).
  { apply forallb_forall. intros m Hm.
    assert (A : annotated m = false).
    { destruct (annotated m) eqn:E; [|reflexivity].
      assert (existsb annotated (svc_Methods service) = true)
        by (apply existsb_exists; exists m; split; assumption).
      congruence. }
    unfold unbound, annotated in *. now destruct (meth_Http m). }
  destruct st as [g d]. unfold addServiceV3. simpl fst. simpl snd.
  pose proof (addMethods_tags_count conf service (svc_Methods service)
                (g, d, O)) as [_ Hc].
  destruct (addMethods_unbound conf service (svc_Methods service) g d O Hu)
    as [n E].
  rewrite E in *. simpl in Hc. now rewrite Hc, Hplain.
Qed.

Lemma unannotated_service_is_skipped_witness :
  addServiceV3 defaultConf (NewOpenAPIv3Generator, initialDocument defaultConf)
    plainService
  = (NewOpenAPIv3Generator, initialDocument defaultConf).
Proof.
  exact (unannotated_service_is_skipped defaultConf plainService
           (NewOpenAPIv3Generator, initialDocument defaultConf) eq_refl).
Defined.

Lemma append_nonempty (s t : string) : t <> "" -> String.eqb (s ++ t) "" = false.
Proof.
  intros H. apply String.eqb_neq. destruct s; simpl; [assumption|discriminate].
Qed.

(** X4.  The title inference touches a document with exactly one tag
    only: with none or several it is the identity.  It never replaces
    a title or a description that is set, keeps the tag names, the
    version, the paths and the schemas, and applying it twice is the
    same as applying it once. *)
Theorem inferTitle_only_fills_blanks (d : Document) :
  (List.length (Doc_Tags d) <> 1 -> inferTitle d = d)
  /\ (Info_Title (Doc_Info d) <> "" ->
      Info_Title (Doc_Info (inferTitle d)) = Info_Title (Doc_Info d))
  /\ (Info_Description (Doc_Info d) <> "" ->
      Info_Description (Doc_Info (inferTitle d)) = Info_Description (Doc_Info d))
  /\ map Tag_Name (Doc_Tags (inferTitle d)) = map Tag_Name (Doc_Tags d)
  /\ Info_Version (Doc_Info (inferTitle d)) = Info_Version (Doc_Info d)
  /\ Doc_Paths (inferTitle d) = Doc_Paths d
  /\ Doc_Schemas (inferTitle d) = Doc_Schemas d
  /\ inferTitle (inferTitle d) = inferTitle d.
Proof.
  unfold inferTitle.
  destruct (Doc_Tags d) as [|tag [|tag' tags]] eqn:T; simpl;
    rewrite ?T; repeat split; try reflexivity; try (intros; reflexivity);
    try (intros H; exfalso; apply H; reflexivity).
  - intros H. apply String.eqb_neq in H. now rewrite H.
  - intros H. apply String.eqb_neq in H. now rewrite H.
  - unfold set_Tags, set_Info. simpl. f_equal. f_equal.
    + destruct (String.eqb_spec (Info_Title (Doc_Info d)) "") as [Et|Nt];
        destruct (String.eqb_spec (Tag_Name tag) "") as [En|Nn]; simpl;
        rewrite ?Et, ?En; simpl; try reflexivity.
      * rewrite append_nonempty by discriminate. reflexivity.
      * apply String.eqb_neq in Nt. now rewrite Nt.
      * apply String.eqb_neq in Nt. now rewrite Nt.
    + destruct (String.eqb_spec (Info_Description (Doc_Info d)) "") as [Ed|Nd].
      * destruct (String.eqb_spec (Tag_Description tag) ""); congruence.
      * apply String.eqb_neq in Nd. now rewrite Nd.
Qed.

(** ** The path table *)

Lemma hasPathItem_contains paths p :
  hasPathItem paths p = contains (map npi_Name paths) p.
Proof.
  induction paths as [|i paths IH]; simpl; [reflexivity|].
  destruct (String.eqb (npi_Name i) p); auto.
Qed.

(** X5.  The path table lists the URL templates in the order in which
    they were first registered: a call for a template already present
    adds no item, a call for a new one appends exactly one, and no call
    moves or removes an item. *)
Theorem paths_in_first_registration_order (d : Document)
    (calls : list (Operation * string * string)) :
  map npi_Name (Doc_Paths (addOperations calls d))
  = fold_left appendUnique (map (fun c => snd (fst c)) calls)
      (map npi_Name (Doc_Paths d)).
Proof.
  revert d. induction calls as [|c calls IH]; intros d; simpl; [reflexivity|].
  rewrite IH, names_addOperationV3, hasPathItem_contains. unfold appendUnique.
  destruct (contains (map npi_Name (Doc_Paths d)) (snd (fst c))); simpl;
    [now rewrite app_nil_r|reflexivity].
Qed.

(** ** The run of [buildDocumentV3] as a whole *)

Lemma fold_left_preserves {S X} (P : S -> Prop) (f : S -> X -> S) l :
  (forall s x, In x l -> P s -> P (f s x)) ->
  forall s, P s -> P (fold_left f l s).
Proof.
  induction l as [|x l IH]; intros H s Hs; simpl; [assumption|].
  apply IH; [intros; apply H; simpl; auto|apply H; simpl; auto].
Qed.

(** The closure loop returns, and what its rounds preserve holds of
    the state it returns. *)
Lemma closure_result conf files :
  exists st',
    (forall k,
        schemaClosure conf (2 + List.length (declaredNames files) + k) files
          (beforeClosure conf files) = Some st')
    /\ requiredSchemas (fst st') = []
    /\ forall P : Generator * Document -> Prop,
         (forall s, P s -> P (nextRound conf files s)) ->
         P (beforeClosure conf files) -> P st'.
Proof.
  destruct (closure_terminates conf files (List.length (declaredNames files))
              (beforeClosure conf files) (beforeClosure_loopState conf files))
    as (st' & E & R & _ & HP); [lia|].
  exists st'. split; [|split; [exact R|]].
  - intros k. apply schemaClosure_more. exact E.
  - intros P Hn H0. apply HP; [|assumption]. intros s _ _. apply Hn.
Qed.

Lemma buildDocumentV3_result conf files st' k :
  schemaClosure conf (2 + List.length (declaredNames files) + k) files
    (beforeClosure conf files) = Some st' ->
  buildDocumentV3 conf (2 + List.length (declaredNames files) + k) files
  = Some (sortDocument (snd st')).
Proof. intros E. unfold buildDocumentV3. rewrite E. now destruct st'. Qed.

Lemma addMessageSchema_frame conf m st :
  frame (snd (addMessageSchema conf m st)) = frame (snd st).
Proof.
  destruct st as [g d]. unfold addMessageSchema.
  destruct (_ || _); [reflexivity|].
  destruct (addFields _ _ _ _ _) as [[props req] g1]. reflexivity.
Qed.

Lemma nextRound_frame conf files st :
  frame (snd (nextRound conf files st)) = frame (snd st).
Proof.
  unfold nextRound. rewrite addAllSchemas_declared.
  assert (H : frame (snd (addDeclared conf (declared files) st)) = frame (snd st)).
  { unfold addDeclared.
    apply (fold_left_preserves (fun s => frame (snd s) = frame (snd st))
             (fun s m => addMessageSchema conf m s)); [|reflexivity].
    intros s m _ Hs. now rewrite addMessageSchema_frame. }
  destruct (addDeclared conf (declared files) st) as [g d]. exact H.
Qed.

Lemma addAllPaths_generatedFiles conf files :
  forall st,
    addAllPaths conf files st = addAllPaths conf (generatedFiles files) st.
Proof.
  unfold addAllPaths, generatedFiles.
  induction files as [|f files IH]; intros st; simpl; [reflexivity|].
  destruct (file_Generate f) eqn:E; simpl; [rewrite E|]; apply IH.
Qed.

Lemma addMethodV3_info conf service method st :
  Doc_Info (snd (fst (addMethodV3 conf service method st)))
  = Doc_Info (snd (fst st))
  /\ Doc_Openapi (snd (fst (addMethodV3 conf service method st)))
     = Doc_Openapi (snd (fst st)).
Proof.
  destruct st as [[g d] n]. unfold addMethodV3.
  destruct (methodBinding method) as [[[a p] v] b].
  destruct (negb (String.eqb v "")); [|split; reflexivity].
  destruct (buildOperationV3 _ _ _ _ _ _ _ _ _ _) as [[op p2] g'].
  split; reflexivity.
Qed.

Lemma addServiceV3_info conf st service :
  Doc_Info (snd (addServiceV3 conf st service)) = Doc_Info (snd st)
  /\ Doc_Openapi (snd (addServiceV3 conf st service)) = Doc_Openapi (snd st).
Proof.
  unfold addServiceV3.
  assert (H : let r := fold_left (fun st method => addMethodV3 conf service method st)
                         (svc_Methods service) (fst st, snd st, O) in
              Doc_Info (snd (fst r)) = Doc_Info (snd st)
              /\ Doc_Openapi (snd (fst r)) = Doc_Openapi (snd st)).
  { apply (fold_left_preserves
             (fun r => Doc_Info (snd (fst r)) = Doc_Info (snd st)
                       /\ Doc_Openapi (snd (fst r)) = Doc_Openapi (snd st))
             (fun st method => addMethodV3 conf service method st));
      [|split; reflexivity].
    intros s m _ [H1 H2].
    destruct (addMethodV3_info conf service m s) as [I1 I2].
    split; congruence. }
  destruct (fold_left _ _ _) as [[g d] n]. simpl in H.
  destruct (0 <? n)%nat; exact H.
Qed.

Lemma addAllPaths_info conf files st :
  Doc_Info (snd (addAllPaths conf files st)) = Doc_Info (snd st)
  /\ Doc_Openapi (snd (addAllPaths conf files st)) = Doc_Openapi (snd st).
Proof.
  unfold addAllPaths.
  apply (fold_left_preserves
           (fun r => Doc_Info (snd r) = Doc_Info (snd st)
                     /\ Doc_Openapi (snd r) = Doc_Openapi (snd st)));
    [|split; reflexivity].
  intros s f _ [H1 H2]. destruct (file_Generate f); [|now split].
  unfold addPathsToDocumentV3.
  apply (fold_left_preserves
           (fun r => Doc_Info (snd r) = Doc_Info (snd st)
                     /\ Doc_Openapi (snd r) = Doc_Openapi (snd st)));
    [|now split].
  intros s' sv _ [H1' H2'].
  destruct (addServiceV3_info conf s' sv) as [I1 I2]. split; congruence.
Qed.

Lemma inferTitle_version_paths d :
  Info_Version (Doc_Info (inferTitle d)) = Info_Version (Doc_Info d)
  /\ Doc_Paths (inferTitle d) = Doc_Paths d
  /\ Doc_Openapi (inferTitle d) = Doc_Openapi d.
Proof.
  unfold inferTitle. destruct (Doc_Tags d) as [|t [|]]; repeat split.
Qed.

(** X6.  Whatever the files, [buildDocumentV3] returns a document of
    OpenAPI version 3.0.3 that carries the configured version; its
    paths and tags are, sorted, those that the files marked for
    generation produce (files not so marked add none, and the schema
    closure adds, removes and changes none). *)
Theorem paths_and_tags_come_from_generated_files (conf : Configuration)
    (files : list File) (k : nat) :
  exists d,
    buildDocumentV3 conf (2 + List.length (declaredNames files) + k) files = Some d
    /\ Doc_Openapi d = "3.0.3"
    /\ Info_Version (Doc_Info d) = conf_Version conf
    /\ Doc_Paths d
       = sortSlice npi_Name
           (Doc_Paths (snd (addAllPaths conf (generatedFiles files)
                              (NewOpenAPIv3Generator, initialDocument conf))))
    /\ Doc_Tags d
       = sortSlice Tag_Name
           (Doc_Tags (inferTitle
                        (snd (addAllPaths conf (generatedFiles files)
                                (NewOpenAPIv3Generator, initialDocument conf))))).
Proof.
  destruct (closure_result conf files) as (st' & E & _ & HP).
  pose proof (HP (fun s => frame (snd s) = frame (snd (beforeClosure conf files)))
                (fun s H => eq_trans (nextRound_frame conf files s) H) eq_refl) as F.
  exists (sortDocument (snd st')).
  split; [apply buildDocumentV3_result, E|].
  unfold frame in F. injection F as Fo Fi Fp Ft.
  unfold beforeClosure in Fo, Fi, Fp, Ft.
  rewrite (addAllPaths_generatedFiles conf files) in Fo, Fi, Fp, Ft.
  destruct (addAllPaths_info conf (generatedFiles files)
              (NewOpenAPIv3Generator, initialDocument conf)) as [Ii Io].
  destruct (addAllPaths conf (generatedFiles files) _) as [g d].
  simpl in *.
  destruct (inferTitle_version_paths d) as (Hv & Hp & Ho).
  repeat split.
  - now rewrite Fo, Ho.
  - rewrite Fi, Hv, Ii. reflexivity.
  - now rewrite Fp, Hp.
  - now rewrite Ft.
Qed.

Lemma addMessageSchema_generatedReachable conf files m st :
  In m (declared files) -> generatedReachable conf files st ->
  generatedReachable conf files (addMessageSchema conf m st).
Proof.
  destruct st as [g d]. intros Hm Inv.
  destruct (addMessageSchema_cases conf m g d) as [[-> _]|G]; [exact Inv|].
  destruct (addMessageSchema conf m (g, d)) as [g' d']. simpl in G.
  destruct G as (Hr & Hg & G' & (extra & R' & Ix) & _ & _ & e & S' & Ne & _).
  destruct Inv as ((ms & I1 & I2 & I3) & K). simpl in *. split.
  - exists (ms ++ [m])%list. simpl. repeat split.
    + now rewrite G', I1, map_app.
    + rewrite S', !map_app, I2. simpl. now rewrite Ne.
    + apply incl_app; [assumption|]. intros x [<-|[]]. assumption.
  - assert (Rm : Reachable conf files (typeNameOf m)) by (apply K; now left).
    intros t [H|H]; cbn [fst snd] in H.
    + rewrite R' in H. apply in_app_or in H as [H|H]; [apply K; now left|].
      eapply Reachable_field; [exact Rm|exact Hm|reflexivity|now apply Ix].
    + rewrite G' in H. apply in_app_or in H as [H|[<-|[]]];
        [apply K; now right|exact Rm].
Qed.

Lemma skipn_In {A} n (l : list A) x : In x (skipn n l) -> In x l.
Proof.
  revert l. induction n as [|n IH]; intros l H; [exact H|].
  destruct l as [|y l]; [exact H|]. right. now apply IH.
Qed.

Lemma nextRound_generatedReachable conf files st :
  generatedReachable conf files st ->
  generatedReachable conf files (nextRound conf files st).
Proof.
  intros Inv. unfold nextRound. rewrite addAllSchemas_declared.
  assert (H : generatedReachable conf files (addDeclared conf (declared files) st)).
  { unfold addDeclared.
    apply (fold_left_preserves (generatedReachable conf files)
             (fun s m => addMessageSchema conf m s)); [|exact Inv].
    intros s m Hm Hs. now apply addMessageSchema_generatedReachable. }
  destruct (addDeclared conf (declared files) st) as [g d].
  destruct H as (Hms & K). split; [exact Hms|].
  intros t [Ht|Ht]; simpl in Ht; apply K; [left|now right].
  eapply skipn_In, Ht.
Qed.

(** *** [requiredSchemas] never repeats a name *)

Lemma keeps_ret {A} (a : A) : keepsRequiredDistinct (ret a).
Proof. intros g H. exact H. Qed.

Lemma keeps_bind {A B} (m : Gen A) (f : A -> Gen B) :
  keepsRequiredDistinct m -> (forall a, keepsRequiredDistinct (f a)) ->
  keepsRequiredDistinct (bind m f).
Proof.
  intros Hm Hf g H. unfold bind. specialize (Hm g H).
  destruct (m g) as [a g1]. now apply Hf.
Qed.

Lemma keeps_schemaReferenceForTypeName conf typeName :
  keepsRequiredDistinct (schemaReferenceForTypeName conf typeName).
Proof.
  intros g H. unfold schemaReferenceForTypeName. simpl.
  destruct (contains (requiredSchemas g) typeName) eqn:E; simpl; [assumption|].
  apply NoDup_app; [assumption|repeat constructor; intros []|].
  intros x Hx [<-|[]]. apply contains_not_In in E. contradiction.
Qed.

Lemma keeps_schemaOrReferenceForType conf typeName :
  keepsRequiredDistinct (schemaOrReferenceForType conf typeName).
Proof.
  unfold schemaOrReferenceForType.
  repeat match goal with
         | |- context [if ?b then _ else _] => destruct b; [apply keeps_ret|]
         end.
  apply keeps_bind; [apply keeps_schemaReferenceForTypeName|].
  intros a. apply keeps_ret.
Qed.

Lemma keeps_schemaOrReferenceForField conf field :
  keepsRequiredDistinct (schemaOrReferenceForField conf field).
Proof.
  induction field as [f Hf|f v Hf IH] using FieldDescriptor_map_ind;
    rewrite schemaOrReferenceForField_unfold, Hf.
  - apply keeps_bind.
    + unfold kindSchemaOf. destruct (fd_Kind f); try apply keeps_ret.
      apply keeps_schemaOrReferenceForType.
    + intros [s|]; repeat match goal with
                          | |- context [if ?b then _ else _] => destruct b
                          end; apply keeps_ret.
  - apply keeps_bind; [exact IH|]. intros a. apply keeps_ret.
Qed.

Lemma keeps_queryParameters conf fields covered :
  keepsRequiredDistinct (queryParameters conf fields covered).
Proof.
  induction fields as [|f fields IH]; simpl; [apply keeps_ret|].
  destruct (negb _); [|exact IH].
  apply keeps_bind.
  - unfold queryParameter. apply keeps_bind;
      [apply keeps_schemaOrReferenceForField|intros a; apply keeps_ret].
  - intros p. apply keeps_bind; [exact IH|intros a; apply keeps_ret].
Qed.

Lemma keeps_buildOperationV3 conf summary operationID tagName description path
    bodyField inputMessage outputMessage :
  keepsRequiredDistinct
    (buildOperationV3 conf summary operationID tagName description path
       bodyField inputMessage outputMessage).
Proof.
  unfold buildOperationV3.
  destruct (pathParametersOf conf path bodyField inputMessage)
    as [[[covered p'] pp] np].
  apply keeps_bind.
  { destruct (negb _); [apply keeps_queryParameters|apply keeps_ret]. }
  intros query. apply keeps_bind.
  { unfold responseContentForMessage.
    repeat match goal with
           | |- context [if ?b then _ else _] => destruct b; [apply keeps_ret|]
           end.
    apply keeps_bind; [apply keeps_schemaReferenceForTypeName|].
    intros a. apply keeps_ret. }
  intros content. apply keeps_bind; [|intros a; apply keeps_ret].
  destruct (negb _); [|apply keeps_ret].
  apply keeps_bind; [|intros a; apply keeps_ret].
  unfold requestSchemaFor.
  destruct (if String.eqb bodyField "*" then _ else _) as [scalar msg].
  repeat match goal with
         | |- context [if ?b then _ else _] => destruct b; try apply keeps_ret
         end.
  apply keeps_bind; [apply keeps_schemaReferenceForTypeName|].
  intros a. apply keeps_ret.
Qed.

Lemma keeps_addMethodV3 conf service method st :
  NoDup (requiredSchemas (fst (fst st))) ->
  NoDup (requiredSchemas (fst (fst (addMethodV3 conf service method st)))).
Proof.
  destruct st as [[g d] n]. intros H. unfold addMethodV3.
  destruct (methodBinding method) as [[[a p] v] b].
  destruct (negb (String.eqb v "")); [|exact H].
  match goal with
  | |- context [buildOperationV3 ?c ?s ?o ?t ?ds ?pa ?bo ?i ?ou ?gg] =>
      pose proof (keeps_buildOperationV3 c s o t ds pa bo i ou gg H) as K;
      destruct (buildOperationV3 c s o t ds pa bo i ou gg) as [[op p2] g']
  end.
  exact K.
Qed.

Lemma keeps_addAllPaths conf files st :
  NoDup (requiredSchemas (fst st)) ->
  NoDup (requiredSchemas (fst (addAllPaths conf files st))).
Proof.
  unfold addAllPaths.
  apply (fold_left_preserves (fun s => NoDup (requiredSchemas (fst s)))).
  intros s f _ Hs. destruct (file_Generate f); [|exact Hs].
  unfold addPathsToDocumentV3. revert Hs.
  apply (fold_left_preserves (fun s => NoDup (requiredSchemas (fst s)))).
  intros s' sv _ Hs'. unfold addServiceV3.
  assert (H : NoDup (requiredSchemas
                       (fst (fst (fold_left
                                    (fun st method => addMethodV3 conf sv method st)
                                    (svc_Methods sv) (fst s', snd s', O)))))).
  { apply (fold_left_preserves
             (fun r => NoDup (requiredSchemas (fst (fst r))))
             (fun st method => addMethodV3 conf sv method st)); [|exact Hs'].
    intros r m _. apply keeps_addMethodV3. }
  destruct (fold_left _ _ _) as [[g d] n]. simpl in H.
  destruct (0 <? n)%nat; exact H.
Qed.

Lemma keeps_addFields conf pattern fields :
  forall acc, keepsRequiredDistinct (addFields conf pattern fields acc).
Proof.
  induction fields as [|f fields IH]; intros acc; simpl; [apply keeps_ret|].
  apply keeps_bind; [|intros a; apply IH].
  unfold addField. destruct acc as [props req].
  apply keeps_bind; [apply keeps_schemaOrReferenceForField|].
  intros [[r|t]|]; apply keeps_ret.
Qed.

Lemma keeps_addMessageSchema conf m st :
  NoDup (requiredSchemas (fst st)) ->
  NoDup (requiredSchemas (fst (addMessageSchema conf m st))).
Proof.
  destruct st as [g d]. intros H. unfold addMessageSchema.
  destruct (_ || _); [exact H|].
  match goal with
  | |- context [addFields conf ?p ?fs ?acc ?g0] =>
      pose proof (keeps_addFields conf p fs acc g0 H) as K;
      destruct (addFields conf p fs acc g0) as [[props req] g1]
  end.
  exact K.
Qed.

Lemma NoDup_skipn {A} n (l : list A) : NoDup l -> NoDup (skipn n l).
Proof.
  revert l. induction n as [|n IH]; intros l H; [exact H|].
  destruct l as [|x l]; [exact H|]. simpl. apply IH. now inversion H.
Qed.

(** X8.  [requiredSchemas] never holds a name twice: it is free of
    repetition when the closure loop is entered, every pass over the
    files keeps it so, and so does the truncation that ends a round. *)
Theorem requiredSchemas_never_repeats (conf : Configuration)
    (files : list File) :
  NoDup (operationTypes conf files)
  /\ (forall typeName g,
         NoDup (requiredSchemas g) ->
         NoDup (requiredSchemas (snd (schemaReferenceForTypeName conf typeName g))))
  /\ (forall st,
         NoDup (requiredSchemas (fst st)) ->
         NoDup (requiredSchemas (fst (addAllSchemas conf files st)))
         /\ NoDup (requiredSchemas (fst (nextRound conf files st)))).
Proof.
  split; [|split].
  - unfold operationTypes, beforeClosure.
    pose proof (keeps_addAllPaths conf files
                  (NewOpenAPIv3Generator, initialDocument conf)) as H.
    destruct (addAllPaths conf files _) as [g d]. apply H. constructor.
  - intros t g. apply keeps_schemaReferenceForTypeName.
  - intros st H.
    assert (P : NoDup (requiredSchemas (fst (addAllSchemas conf files st)))).
    { rewrite addAllSchemas_declared. unfold addDeclared. revert H.
      apply (fold_left_preserves (fun s => NoDup (requiredSchemas (fst s)))
               (fun s m => addMessageSchema conf m s)).
      intros s m _. apply keeps_addMessageSchema. }
    split; [exact P|]. unfold nextRound.
    destruct (addAllSchemas conf files st) as [g d]. simpl in *.
    now apply NoDup_skipn.
Qed.

(* ================================================================== *)
(** ** Suffixes, and [singular] *)
(* ================================================================== *)

Lemma length_append (a b : string) :
  String.length (a ++ b) = String.length a + String.length b.
Proof. induction a as [|c a IH]; simpl; [reflexivity|now rewrite IH]. Qed.

Lemma substring_append_l (a b : string) :
  substring 0 (String.length a) (a ++ b) = a.
Proof.
  induction a as [|c a IH]; simpl; [apply substring_zero|now rewrite IH].
Qed.

Lemma substring_append_r (a b : string) :
  substring (String.length a) (String.length b) (a ++ b) = b.
Proof. induction a as [|c a IH]; simpl; [apply substring_all|exact IH]. Qed.

Lemma substring_split (k : nat) (s : string) :
  k <= String.length s ->
  s = substring 0 k s ++ substring k (String.length s - k) s.
Proof.
  revert k. induction s as [|c s IH]; intros k Hk.
  - destruct k; reflexivity.
  - destruct k as [|k].
    + simpl. now rewrite substring_all.
    + simpl in *. rewrite <- IH by lia. reflexivity.
Qed.

Lemma HasSuffix_iff (s suf : string) :
  HasSuffix s suf = true <-> exists w, s = w ++ suf.
Proof.
  unfold HasSuffix, slice_from. split.
  - intros H. apply andb_prop in H as [L E].
    apply Nat.leb_le in L. apply String.eqb_eq in E.
    exists (substring 0 (String.length s - String.length suf) s).
    assert (X := substring_split (String.length s - String.length suf) s).
    rewrite E in X. apply X. lia.
  - intros [w ->]. rewrite length_append.
    replace (String.length w + String.length suf - String.length suf)
      with (String.length w) by lia.
    replace (String.length w + String.length suf - String.length w)
      with (String.length suf) by lia.
    rewrite substring_append_r, String.eqb_refl, Bool.andb_true_r.
    apply Nat.leb_le. lia.
Qed.

Lemma HasSuffix_append (w suf : string) : HasSuffix (w ++ suf) suf = true.
Proof. apply HasSuffix_iff. now exists w. Qed.

Lemma TrimSuffix_append (w suf : string) : TrimSuffix (w ++ suf) suf = w.
Proof.
  unfold TrimSuffix, slice. rewrite HasSuffix_append, length_append.
  replace (String.length w + String.length suf - String.length suf - 0)
    with (String.length w) by lia.
  apply substring_append_l.
Qed.

Lemma append_byte_cancel (c : ascii) (w x : string) :
  w ++ String c "" = x ++ String c "" -> w = x.
Proof.
  revert x. induction w as [|a w IH]; intros [|b x] H; simpl in H.
  - reflexivity.
  - injection H as _ H. destruct x; discriminate.
  - injection H as _ H. destruct w; discriminate.
  - injection H as -> H. f_equal. now apply IH.
Qed.

Lemma HasSuffix_false (s suf : string) :
  (forall w, s <> w ++ suf) -> HasSuffix s suf = false.
Proof.
  intros H. destruct (HasSuffix s suf) eqn:E; [|reflexivity].
  apply HasSuffix_iff in E as [w ->]. now destruct (H w).
Qed.

(** X9.  [singular] rewrites a final "ves" to "f" and a final "ies" to
    "y", drops any other final "s", and returns every other word as it
    is. *)
Theorem singular_suffix_rules (w : string) :
  singular (w ++ "ves") = w ++ "f"
  /\ singular (w ++ "ies") = w ++ "y"
  /\ (HasSuffix w "ve" = false -> HasSuffix w "ie" = false ->
      singular (w ++ "s") = w)
  /\ (HasSuffix w "s" = false -> singular w = w).
Proof.
  split; [|split; [|split]].
  - unfold singular. now rewrite HasSuffix_append, TrimSuffix_append.
  - unfold singular. rewrite (HasSuffix_append w "ies"), TrimSuffix_append.
    rewrite HasSuffix_false; [reflexivity|].
    intros x E.
    change "ies" with ("ie" ++ "s") in E. change "ves" with ("ve" ++ "s") in E.
    rewrite <- !append_assoc in E. apply append_byte_cancel in E.
    change "ie" with ("i" ++ "e") in E. change "ve" with ("v" ++ "e") in E.
    rewrite <- !append_assoc in E. apply append_byte_cancel in E.
    apply (f_equal rev_string) in E. revert E. clear.
    assert (R : forall a c, rev_string (a ++ String c "") = String c (rev_string a)).
    { induction a as [|b a IH]; intros c; simpl; [reflexivity|].
      now rewrite IH. }
    change (w ++ "i") with (w ++ String "i" ""). change (x ++ "v") with (x ++ String "v" "").
    rewrite !R. discriminate.
  - intros Hve Hie. unfold singular.
    rewrite (HasSuffix_false (w ++ "s") "ves"), (HasSuffix_false (w ++ "s") "ies").
    + now rewrite HasSuffix_append, TrimSuffix_append.
    + intros x E. change "ies" with ("ie" ++ "s") in E.
      rewrite <- append_assoc in E. apply append_byte_cancel in E.
      assert (T : HasSuffix w "ie" = true) by (apply HasSuffix_iff; now exists x).
      congruence.
    + intros x E. change "ves" with ("ve" ++ "s") in E.
      rewrite <- append_assoc in E. apply append_byte_cancel in E.
      assert (T : HasSuffix w "ve" = true) by (apply HasSuffix_iff; now exists x).
      congruence.
  - intros Hs. unfold singular.
    rewrite (HasSuffix_false w "ves"), (HasSuffix_false w "ies"), Hs; [reflexivity| |].
    + intros x E. change "ies" with ("ie" ++ "s") in E.
      rewrite <- append_assoc in E.
      assert (T : HasSuffix w "s" = true)
        by (apply HasSuffix_iff; now exists (x ++ "ie")).
      congruence.
    + intros x E. change "ves" with ("ve" ++ "s") in E.
      rewrite <- append_assoc in E.
      assert (T : HasSuffix w "s" = true)
        by (apply HasSuffix_iff; now exists (x ++ "ve")).
      congruence.
Qed.

(* ================================================================== *)
(** ** The schema translator *)
(* ================================================================== *)

Lemma schemaOrReferenceForType_wellKnown conf typeName g :
  wellKnown typeName = true ->
  snd (schemaOrReferenceForType conf typeName g) = g
  /\ (fst (schemaOrReferenceForType conf typeName g) = None
      <-> typeName = ".google.protobuf.Empty")
  /\ (forall ref, fst (schemaOrReferenceForType conf typeName g)
                  <> Some (SchemaOrReference_Reference ref)).
Proof.
  intros W. unfold schemaOrReferenceForType.
  repeat match goal with
         | |- context [String.eqb typeName ?c] =>
             destruct (String.eqb_spec typeName c) as [->|?];
             [simpl; split; [reflexivity|split;
                [split; intros; (reflexivity || discriminate)
                |intros ref; discriminate]]|]
         end.
  assert (W' : wellKnown typeName = false).
  { apply contains_not_In. simpl. intuition congruence. }
  congruence.
Qed.

Lemma schemaOrReferenceForType_other conf typeName g :
  wellKnown typeName = false ->
  schemaOrReferenceForType conf typeName g
  = (Some (SchemaOrReference_Reference (refOf conf typeName)),
     {| requiredSchemas := appendUnique (requiredSchemas g) typeName;
        generatedSchemas := generatedSchemas g |}).
Proof.
  intros W. unfold schemaOrReferenceForType.
  repeat match goal with
         | |- context [String.eqb typeName ?c] =>
             destruct (String.eqb_spec typeName c) as [->|?];
             [discriminate W|]
         end.
  cbv beta iota delta [orb bind ret].
  unfold schemaReferenceForTypeName, appendUnique, refOf.
  destruct (contains (requiredSchemas g) typeName); simpl; [|reflexivity].
  destruct g; reflexivity.
Qed.

(** X10.  [schemaOrReferenceForType] inlines the fourteen well-known
    types without touching the generator, is [nil] for
    [google.protobuf.Empty] alone, and for every other type returns the
    reference to its component and records the type as required, once. *)
Theorem well_known_types_are_inlined (conf : Configuration)
    (typeName : string) (g : Generator) :
  (wellKnown typeName = true ->
     snd (schemaOrReferenceForType conf typeName g) = g
     /\ (fst (schemaOrReferenceForType conf typeName g) = None
         <-> typeName = ".google.protobuf.Empty")
     /\ (forall ref, fst (schemaOrReferenceForType conf typeName g)
                     <> Some (SchemaOrReference_Reference ref)))
  /\ (wellKnown typeName = false ->
        fst (schemaOrReferenceForType conf typeName g)
        = Some (SchemaOrReference_Reference (refOf conf typeName))
        /\ requiredSchemas (snd (schemaOrReferenceForType conf typeName g))
           = appendUnique (requiredSchemas g) typeName
        /\ generatedSchemas (snd (schemaOrReferenceForType conf typeName g))
           = generatedSchemas g).
Proof.
  split; intros W.
  - now apply schemaOrReferenceForType_wellKnown.
  - rewrite schemaOrReferenceForType_other by exact W. now repeat split.
Qed.

Lemma kindSchemaOf_scalar conf field g :
  fd_Kind field <> MessageKind ->
  snd (kindSchemaOf conf field g) = g
  /\ (fst (kindSchemaOf conf field g) = None <-> fd_Kind field = GroupKind)
  /\ (forall ref, fst (kindSchemaOf conf field g)
                  <> Some (SchemaOrReference_Reference ref)).
Proof.
  intros Hk. unfold kindSchemaOf.
  destruct (fd_Kind field); try congruence;
    (split; [reflexivity|split;
       [split; intros; (reflexivity || discriminate)
       |intros ref; discriminate]]).
Qed.

(** X11.  [schemaOrReferenceForField] returns [nil] only for a message
    field of type [google.protobuf.Empty] and for a group field that is
    not repeated; it returns a reference only for a singular message
    field whose type is not well known, and then the reference to that
    type's component.  So a map always gets an inline schema, and so
    does a repeated field of any type but [google.protobuf.Empty], for
    which the result is [nil] even when the field is repeated. *)
Theorem field_schema_nil_or_reference (conf : Configuration)
    (field : FieldDescriptor) (g : Generator) :
  (fst (schemaOrReferenceForField conf field g) = None
   <-> fd_MapValue field = None
       /\ ((fd_Kind field = MessageKind
            /\ fullMessageTypeName (fd_Message field) = ".google.protobuf.Empty")
           \/ (fd_Kind field = GroupKind /\ fd_IsList field = false)))
  /\ (forall ref,
        fst (schemaOrReferenceForField conf field g)
        = Some (SchemaOrReference_Reference ref)
        <-> fd_MapValue field = None
            /\ fd_IsList field = false
            /\ fd_Kind field = MessageKind
            /\ wellKnown (fullMessageTypeName (fd_Message field)) = false
            /\ ref = refOf conf (fullMessageTypeName (fd_Message field))).
Proof.
  rewrite schemaOrReferenceForField_unfold.
  destruct (fd_MapValue field) as [v|] eqn:Hm.
  { unfold bind. destruct (schemaOrReferenceForField conf v g) as [s g1].
    simpl. split; [|intros ref]; split; try discriminate;
      intros (H & _); discriminate. }
  unfold bind.
  destruct (is_MessageKind (fd_Kind field)) eqn:Hk.
  - assert (K : fd_Kind field = MessageKind)
      by (destruct (fd_Kind field); (reflexivity || discriminate)).
    unfold kindSchemaOf. rewrite K.
    set (T := fullMessageTypeName (fd_Message field)).
    destruct (wellKnown T) eqn:W.
    + destruct (schemaOrReferenceForType_wellKnown conf T g W) as (_ & N & R).
      destruct (schemaOrReferenceForType conf T g) as [[s|] g1]; simpl in *.
      * split.
        -- split.
           ++ destruct (fd_IsList field); discriminate.
           ++ intros (_ & [[_ E]|[E _]]); [|discriminate].
              apply N in E. discriminate.
        -- intros ref. split.
           ++ destruct (fd_IsList field); simpl; [discriminate|].
              intros E. now destruct (R ref).
           ++ intros (_ & _ & _ & E & _). discriminate.
      * split.
        -- split; [|reflexivity]. intros _. split; [reflexivity|].
           left. split; [reflexivity|]. now apply N.
        -- intros ref. split; [discriminate|].
           intros (_ & _ & _ & E & _). discriminate.
    + rewrite schemaOrReferenceForType_other by exact W. simpl.
      split.
      * split.
        -- destruct (fd_IsList field); discriminate.
        -- intros (_ & [[_ E]|[E _]]); [|discriminate].
           fold T in E. rewrite E in W. discriminate.
      * intros ref. destruct (fd_IsList field); simpl.
        -- split; [discriminate|]. intros (_ & E & _). discriminate.
        -- split.
           ++ intros E. injection E as <-. now repeat split.
           ++ intros (_ & _ & _ & _ & ->). reflexivity.
  - assert (K : fd_Kind field <> MessageKind)
      by (intros E; rewrite E in Hk; discriminate).
    destruct (kindSchemaOf_scalar conf field g K) as (_ & N & R).
    destruct (kindSchemaOf conf field g) as [[s|] g1]; simpl in *.
    + split.
      * split.
        -- destruct (fd_IsList field); discriminate.
        -- intros (_ & [[E _]|[E _]]); [contradiction|].
           apply N in E. discriminate.
      * intros ref. split.
        -- destruct (fd_IsList field); simpl; [discriminate|].
           intros E. now destruct (R ref).
        -- intros (_ & _ & E & _). contradiction.
    + assert (G : fd_Kind field = GroupKind) by now apply N.
      split.
      * destruct (fd_IsList field); simpl.
        -- split; [discriminate|].
           intros (_ & [[E _]|[_ E]]); [contradiction|discriminate].
        -- split; [|reflexivity]. intros _. split; [reflexivity|].
           right. now split.
      * intros ref. split.
        -- destruct (fd_IsList field); discriminate.
        -- intros (_ & _ & E & _). contradiction.
Qed.

(* ================================================================== *)
(** ** Validation rules: what they leave alone *)
(* ================================================================== *)

Lemma applyStringRules_idempotent r s :
  applyStringRules r (applyStringRules r s) = applyStringRules r s.
Proof.
  unfold applyStringRules, stringFormat.
  destruct (GetEmail r), (GetHostname r), (GetIp r), (GetIpv4 r), (GetIpv6 r),
    (GetUri r), (GetUriRef r), (GetUuid r);
    destruct (0 <? getZ (sr_MinLen r))%Z, (0 <? getZ (sr_MaxLen r))%Z,
      (negb (String.eqb (getS (sr_Pattern r)) "")); reflexivity.
Qed.

Lemma applyStringRules_frame r s :
  outsideRules (applyStringRules r s) = outsideRules s
  /\ boundKeywords (applyStringRules r s) = boundKeywords s.
Proof.
  unfold applyStringRules.
  destruct (0 <? getZ (sr_MinLen r))%Z, (0 <? getZ (sr_MaxLen r))%Z,
    (negb (String.eqb (getS (sr_Pattern r)) "")); split; reflexivity.
Qed.

Lemma applyBounds_idempotent gte lte s :
  applyBounds gte lte (applyBounds gte lte s) = applyBounds gte lte s.
Proof.
  unfold applyBounds.
  destruct (0 <? getZ gte)%Z, (0 <? getZ lte)%Z; reflexivity.
Qed.

Lemma applyBounds_frame gte lte s :
  outsideRules (applyBounds gte lte s) = outsideRules s
  /\ stringKeywords (applyBounds gte lte s) = stringKeywords s.
Proof.
  unfold applyBounds.
  destruct (0 <? getZ gte)%Z, (0 <? getZ lte)%Z; split; reflexivity.
Qed.

Lemma addValidationRules_inline s field :
  exists s',
    addValidationRules (SchemaOrReference_Schema s) field
    = SchemaOrReference_Schema s'
    /\ outsideRules s' = outsideRules s
    /\ (fd_Kind field <> StringKind -> stringKeywords s' = stringKeywords s)
    /\ (fd_Kind field <> Int32Kind -> fd_Kind field <> Int64Kind ->
        boundKeywords s' = boundKeywords s).
Proof.
  unfold addValidationRules.
  destruct (fd_Rules field) as [rules|]; [|exists s; now repeat split].
  destruct (fd_IsMap field); [exists s; now repeat split|].
  destruct (fd_Kind field); try (exists s; now repeat split).
  all: match goal with
       | |- context [GetString_ ?r] =>
           destruct (GetString_ r) as [sr|]; [|exists s; now repeat split];
           exists (applyStringRules sr s);
           destruct (applyStringRules_frame sr s) as [O B];
           repeat split; [exact O|congruence|intros _ _; exact B]
       | |- context [GetInt32 ?r] =>
           destruct (GetInt32 r) as [ir|]; [|exists s; now repeat split];
           exists (applyBounds (i32_Gte ir) (i32_Lte ir) s);
           destruct (applyBounds_frame (i32_Gte ir) (i32_Lte ir) s) as [O B];
           repeat split; [exact O|intros _; exact B|congruence]
       | |- context [GetInt64 ?r] =>
           destruct (GetInt64 r) as [ir|]; [|exists s; now repeat split];
           exists (applyBounds (i64_Gte ir) (i64_Lte ir) s);
           destruct (applyBounds_frame (i64_Gte ir) (i64_Lte ir) s) as [O B];
           repeat split; [exact O|intros _; exact B|congruence]
       end.
Qed.

(** X12.  [addValidationRules] is idempotent, returns a reference as it
    is, and on an inline schema writes only the keywords of its rules:
    type, description, nullable, readOnly, writeOnly, enum, items,
    properties and the rest are kept, string keywords change only on a
    string field and numeric bounds only on an int32 or int64 field. *)
Theorem validation_rules_write_only_their_keywords
    (fieldSchema : SchemaOrReference) (field : FieldDescriptor) :
  addValidationRules (addValidationRules fieldSchema field) field
  = addValidationRules fieldSchema field
  /\ match fieldSchema with
     | SchemaOrReference_Reference _ =>
         addValidationRules fieldSchema field = fieldSchema
     | SchemaOrReference_Schema s =>
         exists s',
           addValidationRules fieldSchema field = SchemaOrReference_Schema s'
           /\ outsideRules s' = outsideRules s
           /\ (fd_Kind field <> StringKind -> stringKeywords s' = stringKeywords s)
           /\ (fd_Kind field <> Int32Kind -> fd_Kind field <> Int64Kind ->
               boundKeywords s' = boundKeywords s)
     end.
Proof.
  unfold addValidationRules.
  destruct (fd_Rules field) as [rules|].
  2:{ split; [reflexivity|]. destruct fieldSchema as [r|s]; [reflexivity|].
      exists s. now repeat split. }
  destruct fieldSchema as [r|s]; [now split|].
  destruct (fd_IsMap field).
  { split; [reflexivity|]. exists s. now repeat split. }
  destruct (fd_Kind field);
    try (split; [reflexivity|]; exists s; now repeat split).
  all: match goal with
       | |- context [GetString_ _] =>
           destruct (GetString_ rules) as [sr|];
           [|split; [reflexivity|]; exists s; now repeat split];
           unfold inline; split; [now rewrite applyStringRules_idempotent|];
           exists (applyStringRules sr s);
           destruct (applyStringRules_frame sr s) as [O B];
           repeat split; [exact O|congruence|intros _ _; exact B]
       | |- context [GetInt32 _] =>
           destruct (GetInt32 rules) as [ir|];
           [|split; [reflexivity|]; exists s; now repeat split];
           unfold inline; split; [now rewrite applyBounds_idempotent|];
           exists (applyBounds (i32_Gte ir) (i32_Lte ir) s);
           destruct (applyBounds_frame (i32_Gte ir) (i32_Lte ir) s) as [O B];
           repeat split; [exact O|intros _; exact B|congruence]
       | |- context [GetInt64 _] =>
           destruct (GetInt64 rules) as [ir|];
           [|split; [reflexivity|]; exists s; now repeat split];
           unfold inline; split; [now rewrite applyBounds_idempotent|];
           exists (applyBounds (i64_Gte ir) (i64_Lte ir) s);
           destruct (applyBounds_frame (i64_Gte ir) (i64_Lte ir) s) as [O B];
           repeat split; [exact O|intros _; exact B|congruence]
       end.
Qed.

(* ================================================================== *)
(** ** The later revision of the validation rules *)
(* ================================================================== *)

(** X13.  Off repeated fields and enum fields the later revision of
    [addValidationRules] (with [fieldRule]) never panics and computes
    the schema of the first revision. *)
Theorem later_revision_agrees_off_lists_and_enums
    (fieldSchema : SchemaOrReference) (field : FieldDescriptor) :
  fd_IsMap field = true
  \/ (fd_IsList field = false /\ fd_Kind field <> EnumKind) ->
  ItemRules.addValidationRules fieldSchema field
  = Some (addValidationRules fieldSchema field).
Proof.
  intros H. unfold ItemRules.addValidationRules, addValidationRules.
  destruct (fd_Rules field) as [rules|]; [|reflexivity].
  destruct fieldSchema as [r|s]; [reflexivity|].
  destruct (fd_IsMap field); [reflexivity|].
  destruct H as [H|[L K]]; [discriminate|]. rewrite L.
  unfold ItemRules.fieldRule.
  destruct (fd_Kind field); try reflexivity; try congruence.
  all: match goal with
       | |- context [GetString_ ?r] => now destruct (GetString_ r)
       | |- context [GetInt32 ?r] => now destruct (GetInt32 r)
       | |- context [GetInt64 ?r] => now destruct (GetInt64 r)
       end.
Qed.

Lemma later_revision_agrees_off_lists_and_enums_witness :
  ItemRules.addValidationRules (inline (typed "integer")) boundedPageSize
  = Some (addValidationRules (inline (typed "integer")) boundedPageSize).
Proof.
  apply later_revision_agrees_off_lists_and_enums.
  right. split; [reflexivity|discriminate].
Defined.

Lemma fieldRule_None rules field s :
  ItemRules.fieldRule rules field s = None
  <-> fd_Kind field = EnumKind /\ notInWithoutConst rules = true.
Proof.
  unfold ItemRules.fieldRule, notInWithoutConst.
  destruct (fd_Kind field);
    try (split; [discriminate|intros [E _]; discriminate]).
  all: try match goal with
           | |- context [GetString_ ?r] => destruct (GetString_ r)
           | |- context [GetInt32 ?r] => destruct (GetInt32 r)
           | |- context [GetInt64 ?r] => destruct (GetInt64 r)
           end;
    try (split; [discriminate|intros [E _]; discriminate]).
  destruct (GetEnum rules) as [er|];
    [|split; [discriminate|intros [_ E]; discriminate]].
  destruct (er_Const er), (er_NotIn er);
    split; try discriminate; try (intros [_ E]; discriminate); auto.
Qed.

(** X14.  The later revision of [addValidationRules] dereferences
    without a check in two places, and panics exactly there: on an enum
    rule-set with [not_in] but no [const] (reached for a singular enum
    field, or as the item rules of a repeated one), and on item rules
    of a repeated field whose schema has no inline first item. *)
Theorem later_revision_panics_exactly_when
    (fieldSchema : SchemaOrReference) (field : FieldDescriptor) :
  ItemRules.addValidationRules fieldSchema field = None
  <-> exists rules s,
        fd_Rules field = Some rules
        /\ fieldSchema = SchemaOrReference_Schema s
        /\ fd_IsMap field = false
        /\ if fd_IsList field then
             exists min_items max_items itemRules,
               rules = Rules_Repeated min_items max_items (Some itemRules)
               /\ (firstItem s = None
                   \/ (fd_Kind field = EnumKind
                       /\ notInWithoutConst itemRules = true))
           else fd_Kind field = EnumKind /\ notInWithoutConst rules = true.
Proof.
  unfold ItemRules.addValidationRules.
  destruct (fd_Rules field) as [rules|];
    [|split; [discriminate|intros (r & s & E & _); discriminate]].
  destruct fieldSchema as [ref|s];
    [split; [discriminate|intros (r & s & _ & E & _); discriminate]|].
  destruct (fd_IsMap field);
    [split; [discriminate|intros (r & s0 & _ & _ & E & _); discriminate]|].
  destruct (fd_IsList field).
  - destruct rules as [|sr|ir|ir|er|mn mx items|];
      try (split; [discriminate
                  |intros (r & s0 & E & _ & _ & a & b & c & E' & _);
                   injection E as <-; discriminate]).
    set (s1 := match mn with
               | Some n => set_MinItems (int64_of_uint64 n) s
               | None => s
               end).
    set (s2 := match mx with
               | Some n => set_MaxItems (int64_of_uint64 n) s1
               | None => s1
               end).
    assert (I : Schema_Items s2 = Schema_Items s)
      by (subst s1 s2; destruct mn, mx; reflexivity).
    destruct items as [itemRules|].
    2:{ split; [discriminate|].
        intros (r & s0 & E & _ & _ & a & b & c & E' & _).
        injection E as <-. discriminate. }
    rewrite I. unfold firstItem.
    split.
    + intros H. exists (Rules_Repeated mn mx (Some itemRules)), s.
      repeat split. exists mn, mx, itemRules. split; [reflexivity|].
      destruct (Schema_Items s) as [[|[[r|item]|] rest]|]; auto.
      destruct (ItemRules.fieldRule itemRules field item) eqn:F;
        [discriminate|].
      right. now apply fieldRule_None in F.
    + intros (r & s0 & E & Es & _ & a & b & c & E' & H).
      injection E as <-. injection Es as <-. injection E' as <- <- <-.
      destruct (Schema_Items s) as [[|[[r|item]|] rest]|]; try reflexivity.
      destruct H as [H|H]; [discriminate|].
      apply (fieldRule_None itemRules field item) in H. now rewrite H.
  - split.
    + intros H. exists rules, s. repeat split.
      * destruct (ItemRules.fieldRule rules field s) eqn:F; [discriminate|].
        now apply fieldRule_None in F.
      * destruct (ItemRules.fieldRule rules field s) eqn:F; [discriminate|].
        now apply fieldRule_None in F.
    + intros (r & s0 & E & Es & _ & H).
      injection E as <-. injection Es as <-.
      apply (fieldRule_None rules field s) in H. now rewrite H.
Qed.

(** X15.  A repeated message field whose type is not well known gets an
    array of references; item rules on such a field make the later
    revision of [addValidationRules] panic on the schema that
    [schemaOrReferenceForField] has just built for it. *)
Theorem item_rules_on_repeated_messages_panic (conf : Configuration)
    (field : FieldDescriptor) (g : Generator)
    (min_items max_items : option Z) (itemRules : FieldRules) :
  fd_MapValue field = None -> fd_IsList field = true ->
  fd_Kind field = MessageKind ->
  wellKnown (fullMessageTypeName (fd_Message field)) = false ->
  fd_Rules field = Some (Rules_Repeated min_items max_items (Some itemRules)) ->
  exists fieldSchema,
    fst (schemaOrReferenceForField conf field g) = Some fieldSchema
    /\ ItemRules.addValidationRules fieldSchema field = None.
Proof.
  intros Hm Hl Hk Hw Hr.
  rewrite schemaOrReferenceForField_unfold, Hm. unfold bind, kindSchemaOf.
  rewrite Hk, schemaOrReferenceForType_other by exact Hw.
  rewrite Hl. simpl. eexists. split; [reflexivity|].
  unfold ItemRules.addValidationRules, fd_IsMap. rewrite Hr, Hm, Hl.
  destruct min_items, max_items; reflexivity.
Qed.

Lemma item_rules_on_repeated_messages_panic_witness :
  exists fieldSchema,
    fst (schemaOrReferenceForField defaultConf checkedBooks NewOpenAPIv3Generator)
    = Some fieldSchema
    /\ ItemRules.addValidationRules fieldSchema checkedBooks = None.
Proof.
  apply (item_rules_on_repeated_messages_panic defaultConf checkedBooks
           NewOpenAPIv3Generator (Some 1%Z) None Rules_Other);
    reflexivity.
Defined.

(* ================================================================== *)
(** ** Enum values: selection by index (last revision) *)
(* ================================================================== *)

Lemma has_In (l : list Z) (x : Z) : EnumSelect.has l x = true <-> In x l.
Proof.
  induction l as [|v l IH]; simpl; [split; [discriminate|intros []]|].
  destruct (Z.eqb_spec v x) as [->|N].
  - split; auto.
  - rewrite IH. split; [auto|]. intros [E|H]; [contradiction|exact H].
Qed.

Lemma int32_of_int_small (v : Z) :
  (0 <= v < 2 ^ 31)%Z -> int32_of_int v = v.
Proof.
  intros H. unfold int32_of_int. rewrite Z.mod_small; lia.
Qed.

Lemma enumToStringSlice_from_nil i values :
  EnumSelect.enumToStringSlice_from i values [] = specifiedNames values.
Proof.
  revert i. induction values as [|v values IH]; intros i; simpl; [reflexivity|].
  destruct (HasSuffix v "_UNSPECIFIED"); simpl; now rewrite IH.
Qed.

Lemma enumToStringSlice_from_all values :
  forall i sel,
    sel <> [] ->
    (forall k, (k < List.length values)%nat ->
               In (int32_of_int (i + Z.of_nat k)) sel) ->
    EnumSelect.enumToStringSlice_from i values sel = values.
Proof.
  induction values as [|v values IH]; intros i sel Hn Hs; [reflexivity|].
  cbn [EnumSelect.enumToStringSlice_from].
  assert (L : (List.length sel =? 0)%nat = false)
    by (destruct sel; [congruence|reflexivity]).
  rewrite L. cbn [orb andb].
  assert (H0 : EnumSelect.has sel (int32_of_int i) = true).
  { apply has_In. specialize (Hs O). rewrite Z.add_0_r in Hs.
    apply Hs. simpl. lia. }
  rewrite H0. f_equal. apply IH; [exact Hn|].
  intros k Hk. replace (i + 1 + Z.of_nat k)%Z with (i + Z.of_nat (S k))%Z by lia.
  apply Hs. simpl. lia.
Qed.

Lemma enumValues_from_all values :
  forall i k, (k < List.length values)%nat ->
    In (int32_of_int (i + Z.of_nat k))
       (EnumSelect.enumValues_from i values false).
Proof.
  induction values as [|v values IH]; intros i k Hk; simpl in Hk; [lia|].
  cbn [EnumSelect.enumValues_from andb]. destruct k as [|k].
  - left. now rewrite Z.add_0_r.
  - right. replace (i + Z.of_nat (S k))%Z with (i + 1 + Z.of_nat k)%Z by lia.
    apply IH. lia.
Qed.

Lemma enumValues_from_range values :
  forall i b j,
    (0 <= i)%Z -> (i + Z.of_nat (List.length values) <= 2 ^ 31)%Z ->
    In j (EnumSelect.enumValues_from i values b) -> (i <= j)%Z.
Proof.
  induction values as [|v values IH]; intros i b j H0 H1 Hj; [destruct Hj|].
  cbn [EnumSelect.enumValues_from] in Hj. simpl List.length in H1.
  assert (R : (i <= j)%Z \/ (i + 1 <= j)%Z -> (i <= j)%Z) by lia.
  destruct (b && HasSuffix v "_UNSPECIFIED").
  - apply R. right. apply (IH (i + 1)%Z b); [lia|lia|exact Hj].
  - destruct Hj as [<-|Hj].
    + rewrite int32_of_int_small; lia.
    + apply R. right. apply (IH (i + 1)%Z b); [lia|lia|exact Hj].
Qed.

Lemma enumToStringSlice_from_selected values :
  forall i sel,
    (0 <= i)%Z -> (i + Z.of_nat (List.length values) <= 2 ^ 31)%Z ->
    sel <> [] ->
    (forall j, (i <= j)%Z ->
               (In j sel <-> In j (EnumSelect.enumValues_from i values true))) ->
    EnumSelect.enumToStringSlice_from i values sel = specifiedNames values.
Proof.
  induction values as [|v values IH]; intros i sel H0 H1 Hn Hs; [reflexivity|].
  cbn [EnumSelect.enumToStringSlice_from]. simpl List.length in H1.
  assert (L : (List.length sel =? 0)%nat = false)
    by (destruct sel; [congruence|reflexivity]).
  rewrite L. cbn [orb andb].
  rewrite int32_of_int_small by lia.
  pose proof (Hs i ltac:(lia)) as Hi.
  cbn [EnumSelect.enumValues_from andb] in Hi, Hs.
  rewrite int32_of_int_small in Hi, Hs by lia.
  unfold specifiedNames. cbn [filter]. fold (specifiedNames values).
  destruct (HasSuffix v "_UNSPECIFIED"); cbn [negb].
  - assert (F : EnumSelect.has sel i = false).
    { destruct (EnumSelect.has sel i) eqn:E; [|reflexivity].
      apply has_In, Hi in E.
      apply enumValues_from_range in E; lia. }
    rewrite F. apply IH; [lia|lia|exact Hn|].
    intros j Hj. apply Hs. lia.
  - assert (T : EnumSelect.has sel i = true)
      by (apply has_In, Hi; now left).
    rewrite T. f_equal. apply IH; [lia|lia|exact Hn|].
    intros j Hj. rewrite (Hs j) by lia. split; [|now right].
    intros [E|H]; [lia|exact H].
Qed.

(** X16.  In the last revision of the enum helpers an empty selection
    lists the specified names; selecting the indices that [enumValues]
    returns lists every name (default value included) when asked for
    all of them and the specified names when asked to leave the
    [_UNSPECIFIED] ones out; the schema of an enum field is the one of
    the earlier free-function revision. *)
Theorem enum_selection_round_trip (field : FieldDescriptor) :
  (Z.of_nat (List.length (fd_Enum field)) <= 2 ^ 31)%Z ->
  EnumSelect.enumToStringSlice field [] = specifiedNames (fd_Enum field)
  /\ EnumSelect.enumToStringSlice field (EnumSelect.enumValues field false)
     = fd_Enum field
  /\ EnumSelect.enumToStringSlice field (EnumSelect.enumValues field true)
     = specifiedNames (fd_Enum field)
  /\ EnumSelect.enumKindSchema field = EnumFunc.enumKindSchema field.
Proof.
  intros Hlen.
  unfold EnumSelect.enumToStringSlice, EnumSelect.enumValues.
  split; [apply enumToStringSlice_from_nil|split; [|split]].
  - destruct (fd_Enum field) as [|v values] eqn:E; [reflexivity|].
    apply enumToStringSlice_from_all.
    + cbn [EnumSelect.enumValues_from andb]. discriminate.
    + intros k Hk. now apply enumValues_from_all.
  - destruct (EnumSelect.enumValues_from 0 (fd_Enum field) true) eqn:S.
    + rewrite enumToStringSlice_from_nil. reflexivity.
    + rewrite <- S. apply enumToStringSlice_from_selected;
        [lia|lia|rewrite S; discriminate|].
      intros j _. reflexivity.
  - unfold EnumSelect.enumKindSchema, EnumSelect.enumsToV3Any,
      EnumSelect.enumToStringSlice, EnumFunc.enumKindSchema,
      EnumFunc.enumsToV3Any, EnumFunc.enumToStringSlice.
    now rewrite enumToStringSlice_from_nil, enumToStringSlice_from_specified.
Qed.

Lemma enum_selection_round_trip_witness :
  EnumSelect.enumToStringSlice statusField [] = ["APPROVED"; "PENDING"]
  /\ EnumSelect.enumToStringSlice statusField
       (EnumSelect.enumValues statusField false)
     = ["STATUS_UNSPECIFIED"; "APPROVED"; "PENDING"]
  /\ EnumSelect.enumToStringSlice statusField
       (EnumSelect.enumValues statusField true)
     = ["APPROVED"; "PENDING"]
  /\ EnumSelect.enumKindSchema statusField = EnumFunc.enumKindSchema statusField.
Proof.
  apply (enum_selection_round_trip statusField). simpl. lia.
Defined.

Lemma remove_In (l idxs : list Z) v :
  In v (EnumSelect.remove l idxs) <-> In v idxs /\ ~ In v l.
Proof.
  induction idxs as [|x idxs IH]; simpl; [tauto|].
  destruct (EnumSelect.has l x) eqn:E; simpl.
  - apply has_In in E. rewrite IH. split; [tauto|].
    intros [[<-|H] N]; [contradiction|tauto].
  - assert (N : ~ In x l)
      by (intros H; apply has_In in H; congruence).
    rewrite IH. split.
    + intros [<-|[H1 H2]]; tauto.
    + intros [[<-|H] N']; tauto.
Qed.

(** X17.  [remove list idxs] keeps, in order, the entries of [idxs]
    that [list] does not hold; removing nothing returns [idxs], and
    removing every selected index leaves the empty selection, which
    [enumToStringSlice] reads as no selection at all: it then lists
    every specified name rather than none. *)
Theorem remove_keeps_the_unlisted (l idxs : list Z) :
  (forall v, In v (EnumSelect.remove l idxs) <-> In v idxs /\ ~ In v l)
  /\ EnumSelect.remove l idxs
     = filter (fun v => negb (EnumSelect.has l v)) idxs
  /\ EnumSelect.remove [] idxs = idxs
  /\ EnumSelect.remove idxs idxs = []
  /\ (forall field,
        EnumSelect.enumToStringSlice field (EnumSelect.remove idxs idxs)
        = specifiedNames (fd_Enum field)).
Proof.
  assert (E : EnumSelect.remove idxs idxs = []).
  { destruct (EnumSelect.remove idxs idxs) as [|v r] eqn:R; [reflexivity|].
    assert (H : In v (EnumSelect.remove idxs idxs)) by (rewrite R; now left).
    apply remove_In in H. tauto. }
  split; [intros v; apply remove_In|split; [|split; [|split]]].
  - clear E. induction idxs as [|x idxs' IH]; simpl; [reflexivity|].
    destruct (negb (EnumSelect.has l x)); now rewrite IH.
  - clear E. induction idxs as [|x idxs' IH]; simpl; [reflexivity|].
    now rewrite IH.
  - exact E.
  - intros field. rewrite E. apply enumToStringSlice_from_nil.
Qed.

(* ================================================================== *)
(** ** Comments: summary and description *)
(* ================================================================== *)

Lemma split_byte_first sep pre n cur :
  byteFree sep pre = true ->
  split_byte sep (pre ++ String sep n) cur
  = (cur ++ pre) :: split_byte sep n EmptyString.
Proof.
  revert cur. induction pre as [|c pre IH]; intros cur H; simpl in *.
  - now rewrite Ascii.eqb_refl, append_empty_r.
  - apply andb_prop in H as [Hc Hp].
    destruct (Ascii.eqb c sep); [discriminate|].
    rewrite IH by exact Hp. now rewrite append_assoc.
Qed.

Lemma split_byte_byteFree sep s cur :
  byteFree sep s = true -> split_byte sep s cur = [cur ++ s].
Proof.
  revert cur. induction s as [|c s IH]; intros cur H; simpl in *.
  - now rewrite append_empty_r.
  - apply andb_prop in H as [Hc Hp].
    destruct (Ascii.eqb c sep); [discriminate|].
    rewrite IH by exact Hp. now rewrite append_assoc.
Qed.

Lemma Index_byteFree sep s :
  byteFree sep s = true -> Index s (String sep EmptyString) = None.
Proof.
  unfold Index. induction s as [|c s IH]; intros H; [reflexivity|].
  simpl in H. apply andb_prop in H as [Hc Hp].
  cbn [index prefix].
  destruct (ascii_dec sep c) as [->|N].
  - rewrite Ascii.eqb_refl in Hc. discriminate.
  - now rewrite IH.
Qed.

Lemma Index_first sep pre n :
  byteFree sep pre = true ->
  Index (pre ++ String sep n) (String sep EmptyString)
  = Some (String.length pre).
Proof.
  unfold Index. induction pre as [|c pre IH]; intros H.
  - cbn [append index prefix]. destruct (ascii_dec sep sep); [|congruence].
    now destruct n.
  - simpl in H. apply andb_prop in H as [Hc Hp].
    cbn [append index prefix].
    destruct (ascii_dec sep c) as [->|N].
    + rewrite Ascii.eqb_refl in Hc. discriminate.
    + now rewrite IH.
Qed.

Lemma slice_from_append (a b : string) :
  slice_from (a ++ b) (String.length a) = b.
Proof.
  unfold slice_from. rewrite length_append.
  replace (String.length a + String.length b - String.length a)
    with (String.length b) by lia.
  apply substring_append_r.
Qed.

(** X18.  A comment is cut at its first [|]: the text before it is the
    summary and the text after it the description, each with linter
    rules removed and trimmed.  A comment without [|] is all
    description, and the summary is then the method's Go name,
    whatever the comment says. *)
Theorem comment_is_cut_at_first_pipe (c rest goName : string) :
  byteFree "|" c = true ->
  filterCommentStringForSummary (c ++ "|" ++ rest) goName
  = TrimSpace (Regexp.removeLinterRules c)
  /\ filterCommentString (c ++ "|" ++ rest) false
     = TrimSpace (Regexp.removeLinterRules rest)
  /\ filterCommentString (c ++ "|" ++ rest) true
     = TrimSpace (Regexp.removeLinterRules (remove_byte Regexp.newline rest))
  /\ filterCommentStringForSummary c goName
     = TrimSpace (Regexp.removeLinterRules goName)
  /\ filterCommentString c false = TrimSpace (Regexp.removeLinterRules c).
Proof.
  intros H.
  change (c ++ "|" ++ rest) with (c ++ String "|" rest).
  assert (S2 : SplitN2 (c ++ String "|" rest) "|" = [c; rest]).
  { unfold SplitN2. rewrite Index_first by exact H.
    unfold slice. rewrite Nat.sub_0_r, substring_append_l. f_equal. f_equal.
    change (c ++ String "|" rest) with (c ++ "|" ++ rest).
    rewrite <- append_assoc.
    replace (String.length c + 1) with (String.length (c ++ "|"))
      by (rewrite length_append; reflexivity).
    apply slice_from_append. }
  assert (S1 : SplitN2 c "|" = [c])
    by (unfold SplitN2; now rewrite Index_byteFree).
  split; [|split; [|split; [|split]]].
  - unfold filterCommentStringForSummary, Split.
    rewrite split_byte_first by exact H.
    destruct (split_byte "|" rest "") eqn:E;
      [now destruct (split_byte_nonempty "|" rest "")|].
    reflexivity.
  - unfold filterCommentString. now rewrite S2.
  - unfold filterCommentString. now rewrite S2.
  - unfold filterCommentStringForSummary, Split.
    now rewrite split_byte_byteFree.
  - unfold filterCommentString. now rewrite S1.
Qed.

Lemma comment_is_cut_at_first_pipe_witness :
  filterCommentStringForSummary (" Update Message Summary " ++ "|" ++ " Updates.")
    "UpdateMessage"
  = TrimSpace (Regexp.removeLinterRules " Update Message Summary ")
  /\ filterCommentString (" Update Message Summary " ++ "|" ++ " Updates.") false
     = TrimSpace (Regexp.removeLinterRules " Updates.")
  /\ filterCommentString (" Update Message Summary " ++ "|" ++ " Updates.") true
     = TrimSpace (Regexp.removeLinterRules
                    (remove_byte Regexp.newline " Updates."))
  /\ filterCommentStringForSummary " Update Message Summary " "UpdateMessage"
     = TrimSpace (Regexp.removeLinterRules "UpdateMessage")
  /\ filterCommentString " Update Message Summary " false
     = TrimSpace (Regexp.removeLinterRules " Update Message Summary ").
Proof.
  apply (comment_is_cut_at_first_pipe " Update Message Summary " " Updates."
           "UpdateMessage").
  reflexivity.
Defined.

(* ================================================================== *)
(** ** The shape of an operation *)
(* ================================================================== *)

Lemma coalesced_scalar schema :
  exists s,
    coalesced schema = SchemaOrReference_Schema s
    /\ In (Schema_Type s) ["string"; "number"; "integer"].
Proof.
  unfold coalesced.
  destruct schema as [[r|t]|];
    try (exists (typed "string"); split; [reflexivity|now left]).
  destruct (String.eqb_spec (Schema_Type t) "number") as [E|_]; simpl.
  { exists t. split; [reflexivity|]. rewrite E. right. now left. }
  destruct (String.eqb_spec (Schema_Type t) "integer") as [E|_].
  { exists t. split; [reflexivity|]. rewrite E. right. right. now left. }
  exists (typed "string"). split; [reflexivity|now left].
Qed.

Lemma expectedQueryParameter_scalar conf field :
  scalarParameter (expectedQueryParameter conf field)
  /\ pathOrQuery (expectedQueryParameter conf field).
Proof.
  split; [|right; split; reflexivity].
  unfold scalarParameter, expectedQueryParameter. cbn [Param_Schema].
  destruct (coalesced_scalar (fieldSchemaOf conf (f_Desc field)))
    as (s & -> & T).
  destruct (addValidationRules_inline s (f_Desc field)) as (s' & -> & O & _).
  exists s'. split; [reflexivity|].
  replace (Schema_Type s') with (Schema_Type s); [exact T|].
  unfold outsideRules in O. congruence.
Qed.

Lemma pathParameter_scalar name description :
  scalarParameter (pathParameter name description)
  /\ pathOrQuery (pathParameter name description)
  /\ Param_In (pathParameter name description) = "path".
Proof.
  split; [|split; [left; split|]; reflexivity].
  exists (typed "string"). split; [reflexivity|now left].
Qed.

(** X19.  Every operation that [buildOperationV3] builds carries the
    given tag, id, summary and description, exactly one response
    ["200"] described as ["OK"], and a request body exactly when a body
    field is named; that body is required and offers
    [application/json] alone.  Each parameter is a required path
    parameter or an optional query parameter, with an inline schema of
    type string, number or integer (never a reference); with body [*]
    there are path parameters only. *)
Theorem operation_shape (conf : Configuration)
    (summary operationID tagName description path bodyField : string)
    (inputMessage outputMessage : Message) (g : Generator) :
  exists op path' g',
    buildOperationV3 conf summary operationID tagName description path
      bodyField inputMessage outputMessage g = (op, path', g')
    /\ Op_Tags op = [tagName] /\ Op_OperationId op = operationID
    /\ Op_Summary op = summary /\ Op_Description op = description
    /\ (exists content,
          Op_Responses op
          = [{| nr_Name := "200";
                nr_Value := {| Response_Description := "OK";
                               Response_Content := content |} |}])
    /\ (Op_RequestBody op = None <-> bodyField = "")
    /\ (forall body,
          Op_RequestBody op = Some body ->
          RequestBody_Required body = true
          /\ map nmt_Name (RequestBody_Content body) = ["application/json"])
    /\ (forall p, In p (Op_Parameters op) -> scalarParameter p /\ pathOrQuery p)
    /\ (bodyField = "*" ->
        forall p, In p (Op_Parameters op) -> Param_In p = "path").
Proof.
  unfold buildOperationV3.
  destruct (pathParametersOf conf path bodyField inputMessage)
    as [[[covered p'] pp] np]. unfold bind.
  assert (Q : forall p,
             In p (fst ((if negb (String.eqb bodyField "*")
                         then queryParameters conf (m_Fields inputMessage) covered
                         else ret []) g)) ->
             scalarParameter p /\ pathOrQuery p /\ bodyField <> "*").
  { intros p. destruct (String.eqb_spec bodyField "*") as [->|N]; cbn [negb].
    - intros [].
    - rewrite queryParameters_expected. intros H.
      apply in_map_iff in H as (f & <- & _).
      destruct (expectedQueryParameter_scalar conf f). now repeat split. }
  destruct ((if negb (String.eqb bodyField "*")
             then queryParameters conf (m_Fields inputMessage) covered
             else ret []) g) as [query g1].
  destruct (responseContentForMessage conf outputMessage g1) as [content g2].
  cbn [fst] in Q.
  assert (P : forall p,
             In p (map (fun p => pathParameter p "") pp
                   ++ map (fun p => pathParameter p ("The " ++ p ++ " id."))
                          np)%list ->
             scalarParameter p /\ pathOrQuery p /\ Param_In p = "path").
  { intros p H. apply in_app_or in H as [H|H];
      apply in_map_iff in H as (n & <- & _); apply pathParameter_scalar. }
  assert (All : forall p, In p ((map (fun p => pathParameter p "") pp
                     ++ map (fun p => pathParameter p ("The " ++ p ++ " id."))
                            np) ++ query)%list ->
                 scalarParameter p /\ pathOrQuery p
                 /\ (bodyField = "*" -> Param_In p = "path")).
  { intros p H. apply in_app_or in H as [H|H].
    - destruct (P p H) as (A & B & C). now repeat split.
    - destruct (Q p H) as (A & B & C). repeat split; try assumption.
      intros E. contradiction. }
  destruct (String.eqb_spec bodyField "") as [Eb|Nb]; cbn [negb].
  - unfold ret. do 3 eexists. split; [reflexivity|]. cbn.
    do 4 (split; [reflexivity|]).
    split; [now exists content|].
    split; [split; [intros _; exact Eb|reflexivity]|].
    split; [intros body Hb; discriminate|].
    split.
    + intros p H. destruct (All p H) as (A & B & _). now split.
    + intros E p H. now apply All.
  - destruct (requestSchemaFor conf bodyField inputMessage g2) as [rs g3].
    unfold ret. do 3 eexists. split; [reflexivity|]. cbn.
    do 4 (split; [reflexivity|]).
    split; [now exists content|].
    split; [split; [discriminate|intros E; contradiction]|].
    split; [intros body Hb; injection Hb as <-; split; reflexivity|].
    split.
    + intros p H. destruct (All p H) as (A & B & _). now split.
    + intros E p H. now apply All.
Qed.

(* ================================================================== *)
(** ** Path parameters *)
(* ================================================================== *)

Lemma substring_length (s : string) :
  forall i n, String.length (substring i n s) = Nat.min n (String.length s - i).
Proof.
  induction s as [|c s IH]; intros i n.
  - destruct i, n; reflexivity.
  - destruct i as [|i]; [destruct n as [|n]|]; simpl; [reflexivity| |apply IH].
    rewrite IH. now rewrite Nat.sub_0_r.
Qed.

Lemma substring_cut (s : string) :
  forall i n,
    i + n <= String.length s ->
    s = substring 0 i s ++ substring i n s
        ++ substring (i + n) (String.length s - (i + n)) s.
Proof.
  induction s as [|c s IH]; intros i n H.
  - destruct i, n; simpl in *; (reflexivity || lia).
  - destruct i as [|i].
    + destruct n as [|n]; simpl.
      * now rewrite substring_all.
      * f_equal. simpl in H.
        rewrite (substring_split n s) at 1 by lia. reflexivity.
    + simpl in *. f_equal. apply IH. lia.
Qed.

Lemma ReplaceFirst_same (s m : string) : ReplaceFirst s m m = s.
Proof.
  unfold ReplaceFirst, Index.
  destruct (index 0 m s) as [i|] eqn:E; [|reflexivity].
  destruct m as [|c m].
  - assert (i = 0) as ->.
    { destruct s; simpl in E; congruence. }
    unfold slice, slice_from. simpl String.length.
    rewrite !Nat.sub_0_r, Nat.add_0_r, substring_zero, substring_all.
    reflexivity.
  - apply index_correct1 in E.
    assert (L : i + String.length (String c m) <= String.length s).
    { assert (X := substring_length s i (String.length (String c m))).
      rewrite E in X.
      assert (0 < String.length (String c m)) by (simpl; lia). lia. }
    unfold slice, slice_from. rewrite Nat.sub_0_r.
    pose proof (substring_cut s i (String.length (String c m)) L) as C.
    rewrite E in C. symmetry. exact C.
Qed.

(* ================================================================== *)
(** ** Query parameters *)
(* ================================================================== *)

Lemma simplePathParameters_eq conf inputMessage allMatches :
  forall covered path pathParameters,
    simplePathParameters conf allMatches inputMessage covered path pathParameters
    = ((covered ++ allMatches)%list,
       fold_left (fun p m => ReplaceFirst p m
                               (findAndFormatFieldName conf m inputMessage))
         allMatches path,
       (pathParameters
        ++ map (fun m => findAndFormatFieldName conf m inputMessage) allMatches)%list).
Proof.
  induction allMatches as [|m rest IH]; intros covered path pp; simpl.
  - now rewrite !app_nil_r.
  - rewrite IH, <- !app_assoc. reflexivity.
Qed.

Lemma pathParametersOf_covered conf path bodyField inputMessage :
  fst (fst (fst (pathParametersOf conf path bodyField inputMessage)))
  = coveredNames conf path bodyField inputMessage.
Proof.
  unfold pathParametersOf, coveredNames, renamedPath.
  rewrite simplePathParameters_eq.
  destruct (Regexp.namedPathPattern_Find _) as [[[whole name] starred]|].
  - destruct (namedPathParts conf (Split starred "/") inputMessage) as [parts names].
    cbn [fst]. rewrite <- app_assoc.
    now destruct (String.eqb bodyField "").
  - cbn [fst]. rewrite app_nil_r. now destruct (String.eqb bodyField "").
Qed.

Lemma expectedQueryParameter_for conf field :
  queryParameterFor conf field (expectedQueryParameter conf field).
Proof.
  unfold queryParameterFor, expectedQueryParameter. cbn.
  do 4 (split; [reflexivity|]). split.
  - destruct (coalesced_scalar (fieldSchemaOf conf (f_Desc field)))
      as (s0 & E & _).
    rewrite E.
    destruct (addValidationRules_inline s0 (f_Desc field))
      as (s & E' & O & Ks & Kb).
    exists s, s0. now repeat split.
  - intros N. unfold addValidationRules. now rewrite N.
Qed.

(** C6 (as amended).  When the body selector is not [*], the
    parameters of the operation are its path parameters followed by
    exactly one query parameter for every input field, in field order,
    whose name is not covered by the body selector, by a simple path
    parameter or by the named path parameter.  Each is named after the
    field, is not required and is described by the field's filtered
    leading comment.  Its schema is, up to the keywords that validation
    rules write, the field's schema when that is an inline schema of
    type [number] or [integer], and a bare string schema in every other
    case (string-typed schemas included); for a field without rules it
    is exactly that. *)
Theorem uncovered_fields_become_query_parameters (conf : Configuration)
    (summary operationID tagName description path bodyField : string)
    (inputMessage outputMessage : Message) (g : Generator)
    (Hbody : String.eqb bodyField "*" = false) :
  (exists pathParams query,
      Op_Parameters
        (fst (fst (buildOperationV3 conf summary operationID tagName
                     description path bodyField inputMessage outputMessage g)))
      = (pathParams ++ query)%list
      /\ Forall (fun p => Param_In p = "path") pathParams
      /\ Forall2 (queryParameterFor conf)
           (filter (uncovered (coveredNames conf path bodyField inputMessage))
                   (m_Fields inputMessage))
           query)
  /\ (forall t, Schema_Type t = "number" \/ Schema_Type t = "integer" ->
                coalesced (Some (inline t)) = inline t)
  /\ (forall t, Schema_Type t <> "number" -> Schema_Type t <> "integer" ->
                coalesced (Some (inline t)) = inline (typed "string"))
  /\ (forall r, coalesced (Some (SchemaOrReference_Reference r))
                = inline (typed "string"))
  /\ coalesced None = inline (typed "string").
Proof.
  split; [|split; [|split; [|split]]].
  - rewrite <- pathParametersOf_covered. unfold buildOperationV3.
    destruct (pathParametersOf conf path bodyField inputMessage)
      as [[[covered p'] pp] np]. cbn [fst]. unfold bind.
    rewrite Hbody. change (negb false) with true. cbv iota.
    pose proof (queryParameters_expected conf (m_Fields inputMessage) covered g) as Q.
    destruct (queryParameters conf (m_Fields inputMessage) covered g) as [query g1].
    simpl in Q. subst query.
    destruct (responseContentForMessage conf outputMessage g1) as [content g2].
    exists (map (fun p => pathParameter p "") pp
            ++ map (fun p => pathParameter p ("The " ++ p ++ " id.")) np)%list,
      (map (expectedQueryParameter conf)
         (filter (uncovered covered) (m_Fields inputMessage))).
    split; [|split].
    + destruct (negb (String.eqb bodyField ""));
        [destruct (requestSchemaFor conf bodyField inputMessage g2) as [rs g3]|];
        reflexivity.
    + apply Forall_forall. intros p Hp.
      apply in_app_or in Hp as [Hp|Hp];
        apply in_map_iff in Hp as (n & <- & _); reflexivity.
    + induction (filter (uncovered covered) (m_Fields inputMessage))
        as [|f fs IH]; simpl; constructor; [|exact IH].
      apply expectedQueryParameter_for.
  - intros t [E|E]; unfold coalesced, inline; rewrite E; reflexivity.
  - intros t N1 N2. unfold coalesced, inline.
    destruct (String.eqb_spec (Schema_Type t) "number"); [contradiction|].
    destruct (String.eqb_spec (Schema_Type t) "integer"); [contradiction|].
    reflexivity.
  - reflexivity.
  - reflexivity.
Qed.

Lemma uncovered_fields_become_query_parameters_witness :
  coveredNames defaultConf "/v1/messages/{message_id}" ""
    Sample.GetMessageRequest = ["message_id"]
  /\ exists pathParams query,
       Op_Parameters
         (fst (fst (buildOperationV3 defaultConf "" "Messaging_GetMessage"
                      "Messaging" "" "/v1/messages/{message_id}" ""
                      Sample.GetMessageRequest Sample.MessageOut
                      NewOpenAPIv3Generator)))
       = (pathParams ++ query)%list
       /\ Forall (fun p => Param_In p = "path") pathParams
       /\ Forall2 (queryParameterFor defaultConf)
            [Sample.dataField; Sample.countField] query.
Proof.
  split; [reflexivity|].
  exact (proj1 (uncovered_fields_become_query_parameters defaultConf ""
                  "Messaging_GetMessage" "Messaging" "" "/v1/messages/{message_id}"
                  "" Sample.GetMessageRequest Sample.MessageOut
                  NewOpenAPIv3Generator eq_refl)).
Defined.

(* ================================================================== *)
(** ** What the path phase registers *)
(* ================================================================== *)

Section Mentions.

Variable conf : Configuration.

Lemma queryParameters_extends fields covered :
  forall g,
    extends g (snd (queryParameters conf fields covered g))
      (flat_map (fun field => fieldRefs (f_Desc field))
         (filter (uncovered covered) fields)).
Proof.
  induction fields as [|f fields IH]; intros g; simpl; [apply extends_refl|].
  unfold uncovered at 1.
  destruct (negb (contains covered (fd_Name (f_Desc f)))); [|apply IH].
  unfold queryParameter. unfold bind, ret.
  destruct (schemaOrReferenceForField_extends conf (f_Desc f) g) as [X _].
  destruct (schemaOrReferenceForField conf (f_Desc f) g) as [s g1].
  simpl in X. specialize (IH g1).
  destruct (queryParameters conf fields covered g1) as [ps g2]. simpl in *.
  eapply extends_trans; eassumption.
Qed.

Lemma responseContentForMessage_extends outputMessage g :
  extends g (snd (responseContentForMessage conf outputMessage g))
    (responseTypes outputMessage).
Proof.
  unfold responseContentForMessage, responseTypes, typeNameOf.
  destruct (String.eqb _ ".google.protobuf.Empty"); [apply extends_refl|].
  destruct (String.eqb _ ".google.protobuf.Struct"); [apply extends_refl|].
  destruct (String.eqb _ ".google.api.HttpBody"); [apply extends_refl|].
  simpl orb. cbv iota. unfold bind.
  destruct (schemaReferenceForTypeName_extends conf
              (fullMessageTypeName (m_Desc outputMessage)) g) as [_ X].
  destruct (schemaReferenceForTypeName conf _ g) as [r g1]. exact X.
Qed.

Lemma requestSchemaFor_extends bodyField inputMessage g :
  String.eqb bodyField "" = false ->
  extends g (snd (requestSchemaFor conf bodyField inputMessage g))
    (bodyTypes bodyField inputMessage).
Proof.
  intros Hb. unfold requestSchemaFor, bodyTypes, typeNameOf. rewrite Hb.
  destruct (if String.eqb bodyField "*" then _ else _) as [scalar msg].
  destruct (negb (String.eqb scalar "")); [apply extends_refl|].
  destruct (String.eqb msg ""); [apply extends_refl|]. cbn [negb].
  destruct (_ || _); [apply extends_refl|].
  unfold bind.
  destruct (schemaReferenceForTypeName_extends conf msg g) as [_ X].
  destruct (schemaReferenceForTypeName conf msg g) as [r g1]. exact X.
Qed.

Lemma buildOperationV3_extends summary operationID tagName description path
    bodyField inputMessage outputMessage g :
  extends g
    (snd (buildOperationV3 conf summary operationID tagName description path
            bodyField inputMessage outputMessage g))
    (queryTypes conf path bodyField inputMessage
     ++ responseTypes outputMessage ++ bodyTypes bodyField inputMessage).
Proof.
  unfold queryTypes. rewrite <- pathParametersOf_covered.
  unfold buildOperationV3.
  destruct (pathParametersOf conf path bodyField inputMessage)
    as [[[covered p'] pp] np]. cbn [fst]. unfold bind.
  assert (Q : extends g
                (snd ((if negb (String.eqb bodyField "*")
                       then queryParameters conf (m_Fields inputMessage) covered
                       else ret []) g))
                (if String.eqb bodyField "*" then []
                 else flat_map (fun field => fieldRefs (f_Desc field))
                        (filter (uncovered covered) (m_Fields inputMessage)))).
  { destruct (String.eqb bodyField "*"); cbn [negb];
      [apply extends_refl|apply queryParameters_extends]. }
  destruct ((if negb (String.eqb bodyField "*")
             then queryParameters conf (m_Fields inputMessage) covered
             else ret []) g) as [query g1]. cbn [snd] in Q.
  pose proof (responseContentForMessage_extends outputMessage g1) as R.
  destruct (responseContentForMessage conf outputMessage g1) as [content g2].
  cbn [snd] in R.
  destruct (String.eqb bodyField "") eqn:Eb; cbn [negb].
  - unfold ret. cbn [snd]. unfold bodyTypes. rewrite Eb, app_nil_r.
    eapply extends_trans; eassumption.
  - pose proof (requestSchemaFor_extends bodyField inputMessage g2 Eb) as B.
    destruct (requestSchemaFor conf bodyField inputMessage g2) as [rs g3].
    unfold ret. cbn [snd] in *.
    eapply extends_trans; [exact Q|]. eapply extends_trans; eassumption.
Qed.

Lemma addMethodV3_extends service method g d n :
  extends g (fst (fst (addMethodV3 conf service method (g, d, n))))
    (methodMentions conf method).
Proof.
  unfold addMethodV3, methodBinding, methodMentions.
  destruct (meth_Http method) as [rule|]; [|apply extends_refl].
  destruct (patternBinding (hr_Pattern rule)) as [p v]. cbn [fst snd].
  destruct (String.eqb v ""); cbn [negb]; [apply extends_refl|].
  match goal with
  | |- context [buildOperationV3 ?c ?s ?o ?t ?ds ?pa ?bo ?i ?ou ?gg] =>
      pose proof (buildOperationV3_extends s o t ds pa bo i ou gg) as X;
      destruct (buildOperationV3 c s o t ds pa bo i ou gg) as [[op p2] g']
  end.
  exact X.
Qed.

Lemma addMethods_extends service methods :
  forall g d n,
    extends g
      (fst (fst (fold_left (fun st method => addMethodV3 conf service method st)
                   methods (g, d, n))))
      (flat_map (methodMentions conf) methods).
Proof.
  induction methods as [|m methods IH]; intros g d n; cbn [fold_left flat_map].
  - apply extends_refl.
  - pose proof (addMethodV3_extends service m g d n) as X.
    destruct (addMethodV3 conf service m (g, d, n)) as [[g1 d1] n1].
    eapply extends_trans; [exact X|apply IH].
Qed.

Lemma addServiceV3_extends st service :
  extends (fst st) (fst (addServiceV3 conf st service))
    (flat_map (methodMentions conf) (svc_Methods service)).
Proof.
  unfold addServiceV3.
  pose proof (addMethods_extends service (svc_Methods service) (fst st) (snd st) O)
    as H.
  destruct (fold_left _ _ _) as [[g d] n]. cbn [fst] in H.
  destruct (0 <? n)%nat; exact H.
Qed.

Lemma addPathsToDocumentV3_extends file :
  forall st,
    extends (fst st) (fst (addPathsToDocumentV3 conf st file))
      (flat_map (methodMentions conf) (flat_map svc_Methods (file_Services file))).
Proof.
  unfold addPathsToDocumentV3.
  induction (file_Services file) as [|s ss IH]; intros st; simpl.
  - apply extends_refl.
  - rewrite flat_map_app.
    eapply extends_trans; [apply addServiceV3_extends|apply IH].
Qed.

Lemma addAllPaths_extends files :
  forall st,
    extends (fst st) (fst (addAllPaths conf files st))
      (operationMentions conf files).
Proof.
  unfold addAllPaths, operationMentions, generatedMethods.
  induction files as [|f files IH]; intros st; simpl.
  - apply extends_refl.
  - rewrite flat_map_app.
    eapply extends_trans; [|apply IH].
    destruct (file_Generate f);
      [apply addPathsToDocumentV3_extends|apply extends_refl].
Qed.

(** The types required when the closure loop starts are the types the
    operations mention, no more and no less. *)
Lemma operationTypes_mentions files t :
  In t (operationTypes conf files) <-> In t (operationMentions conf files).
Proof.
  unfold operationTypes, beforeClosure.
  pose proof (addAllPaths_extends files (NewOpenAPIv3Generator, initialDocument conf))
    as (_ & (extra & R & I) & N).
  destruct (addAllPaths conf files _) as [g d]. cbn [fst] in *.
  split; [|apply N]. rewrite R. simpl. apply I.
Qed.

Lemma Reachable_Requested files t :
  Reachable conf files t <-> Requested conf files t.
Proof.
  split; induction 1 as [t H|t m t' _ IH Hm Em Ht'].
  - apply Requested_operation. now apply operationTypes_mentions.
  - eapply Requested_field; eassumption.
  - apply Reachable_operation. now apply operationTypes_mentions.
  - eapply Reachable_field; eassumption.
Qed.

End Mentions.

(* ================================================================== *)
(** ** The closure of the component schemas *)
(* ================================================================== *)





Section Closure.

Variable conf : Configuration.
Variable files : list File.




Hypothesis reachable_declared_once :
  forall t, Reachable conf files t ->
            count_occ string_dec (declaredNames files) t = 1.




End Closure.



(** X7.  [components.schemas] holds nothing that the descriptors do
    not request.  When the closure loop is entered, [requiredSchemas]
    holds the types the operations mention and no other; and every
    entry of the document that [buildDocumentV3] returns is keyed by
    the formatted name of a declared message of a requested type.
    Among the types an operation mentions are the message types of the
    input fields that become query parameters: they are registered,
    and so emitted, although the parameter's schema is coalesced to a
    string and no reference names them. *)
Theorem every_schema_is_reachable (conf : Configuration) (files : list File)
    (k : nat) :
  (forall t, In t (operationTypes conf files)
             <-> In t (operationMentions conf files))
  /\ exists d,
       buildDocumentV3 conf (2 + List.length (declaredNames files) + k) files
       = Some d
       /\ forall e,
            In e (Doc_Schemas d) ->
            exists m,
              In m (declared files)
              /\ nsr_Name e = formatMessageName conf m
              /\ Requested conf files (typeNameOf m).
Proof.
  split; [intros t; apply operationTypes_mentions|].
  destruct (closure_result conf files) as (st' & E & _ & HP).
  assert (Inv : generatedReachable conf files st').
  { apply HP; [apply nextRound_generatedReachable|].
    destruct (beforeClosure_invariant conf files) as (G & S & _).
    split.
    - exists []. rewrite G, S. repeat split. intros x [].
    - intros t [Ht|Ht]; [now apply Reachable_operation|].
      rewrite G in Ht. destruct Ht. }
  exists (sortDocument (snd st')).
  split; [apply buildDocumentV3_result, E|].
  destruct Inv as ((ms & I1 & I2 & I3) & K).
  intros e He.
  assert (He' : In e (Doc_Schemas (snd st'))).
  { eapply Permutation_in; [|exact He]. simpl. symmetry. apply sortSlice_perm. }
  assert (Hk : In (nsr_Name e) (map (formatMessageName conf) ms))
    by (rewrite <- I2; now apply in_map).
  apply in_map_iff in Hk as (m & Em & Hm).
  exists m. split; [now apply I3|split; [now symmetry|]].
  apply Reachable_Requested, K. right. rewrite I1. now apply in_map.
Qed.

(* ================================================================== *)
(** ** Numeric bounds *)
(* ================================================================== *)

Lemma digits2_pos_iter p n :
  SpecFloat.digits2_pos (Pos.iter xO p n)
  = (SpecFloat.digits2_pos p + n)%positive.
Proof.
  induction n as [|n IH] using Pos.peano_ind.
  - simpl. now rewrite Pos.add_1_r.
  - rewrite Pos.iter_succ. simpl. rewrite IH. now rewrite Pos.add_succ_r.
Qed.

Lemma digits2_pos_lower p :
  (2 ^ (Zpos (SpecFloat.digits2_pos p) - 1) <= Zpos p)%Z.
Proof.
  induction p as [p IH|p IH|]; cbn [SpecFloat.digits2_pos].
  - rewrite Pos2Z.inj_succ.
    replace (Z.succ (Zpos (SpecFloat.digits2_pos p)) - 1)%Z
      with (Z.succ (Zpos (SpecFloat.digits2_pos p) - 1))%Z by lia.
    rewrite Z.pow_succ_r by lia. lia.
  - rewrite Pos2Z.inj_succ.
    replace (Z.succ (Zpos (SpecFloat.digits2_pos p)) - 1)%Z
      with (Z.succ (Zpos (SpecFloat.digits2_pos p) - 1))%Z by lia.
    rewrite Z.pow_succ_r by lia. lia.
  - simpl. lia.
Qed.

Lemma iter_xO_value p n : Zpos (Pos.iter xO p n) = (Zpos p * 2 ^ Zpos n)%Z.
Proof.
  induction n as [|n IH] using Pos.peano_ind.
  - simpl. lia.
  - rewrite Pos.iter_succ, Pos2Z.inj_xO, IH, Pos2Z.inj_succ, Z.pow_succ_r by lia.
    lia.
Qed.

(** An integer of at most 53 binary digits is a float as it is. *)
Lemma binary_normalize_small p :
  (Zpos (SpecFloat.digits2_pos p) <= 53)%Z ->
  exists m e,
    SpecFloat.binary_normalize 53 1024 (Zpos p) 0 false
    = SpecFloat.S754_finite false m e
    /\ (e <= 0)%Z /\ (Zpos m = Zpos p * 2 ^ (- e))%Z.
Proof.
  intros Hd. unfold SpecFloat.binary_normalize, SpecFloat.binary_round.
  set (d := SpecFloat.digits2_pos p) in *.
  assert (Hf : SpecFloat.fexp 53 1024 (Zpos d + 0) = (Zpos d - 53)%Z).
  { unfold SpecFloat.fexp, SpecFloat.emin. lia. }
  fold d. rewrite Hf. unfold SpecFloat.shl_align.
  assert (Aux : forall mz ez,
             SpecFloat.digits2_pos mz = 53%positive -> (-52 <= ez <= 0)%Z ->
             SpecFloat.binary_round_aux 53 1024 false (Zpos mz) ez
               SpecFloat.loc_Exact
             = SpecFloat.S754_finite false mz ez).
  { intros mz ez Hm He. unfold SpecFloat.binary_round_aux, SpecFloat.shr_fexp.
    cbn [SpecFloat.Zdigits2 SpecFloat.shr_record_of_loc]. rewrite Hm.
    assert (Hz : (SpecFloat.fexp 53 1024 (53 + ez) - ez = 0)%Z).
    { unfold SpecFloat.fexp, SpecFloat.emin. lia. }
    rewrite Hz. cbn [SpecFloat.shr SpecFloat.shr_m SpecFloat.loc_of_shr_record
                     SpecFloat.round_nearest_even SpecFloat.Zdigits2
                     SpecFloat.shr_record_of_loc].
    rewrite Hm, Hz. cbn [SpecFloat.shr SpecFloat.shr_m].
    destruct (Z.leb_spec ez (1024 - 53)); [reflexivity|lia]. }
  destruct (Zpos d - 53 - 0)%Z as [|q|q] eqn:Eq; [|lia|].
  - exists p, 0%Z. split; [|split; [lia|simpl; lia]].
    replace (Zpos d - 53)%Z with 0%Z by lia.
    apply Aux; [|lia]. fold d. lia.
  - exists (Pos.iter xO p q), (Zpos d - 53)%Z. split; [|split; [lia|]].
    + apply Aux; [|lia]. rewrite digits2_pos_iter. fold d. lia.
    + rewrite iter_xO_value. f_equal. f_equal. lia.
Qed.

(** [float64(v)] is the IEEE-754 rounding of [v]. *)
Lemma float64_of_int_rounds (v : Z) :
  (0 < v < 2 ^ 63)%Z ->
  FloatOps.Prim2SF (float64_of_int v)
  = SpecFloat.binary_normalize 53 1024 v 0 false.
Proof.
  intros H. unfold float64_of_int.
  destruct (Z.ltb_spec v 0) as [N|_]; [lia|].
  rewrite FloatAxioms.of_uint63_spec, Uint63.of_Z_spec.
  rewrite Z.mod_small; [reflexivity|].
  change Uint63.wB with (2 ^ 63)%Z. lia.
Qed.

(** Below [2^53] the conversion loses nothing. *)
Lemma float64_of_int_exact (v : Z) :
  (0 < v < 2 ^ 53)%Z -> float64_integer (float64_of_int v) = Some v.
Proof.
  intros H. unfold float64_integer.
  rewrite float64_of_int_rounds by lia.
  destruct v as [|p|p]; try lia.
  assert (Hd : (Zpos (SpecFloat.digits2_pos p) <= 53)%Z).
  { pose proof (digits2_pos_lower p) as L.
    destruct (Z.le_gt_cases (Zpos (SpecFloat.digits2_pos p)) 53) as [?|G];
      [assumption|exfalso].
    assert (2 ^ 53 <= 2 ^ (Zpos (SpecFloat.digits2_pos p) - 1))%Z
      by (apply Z.pow_le_mono_r; lia).
    lia. }
  destruct (binary_normalize_small p Hd) as (m & e & -> & He & Hm).
  unfold SFinteger.
  destruct (Z.leb_spec 0 e) as [P|N].
  - assert (e = 0%Z) by lia. subst e. rewrite Z.pow_0_r. f_equal; lia.
  - rewrite Hm, Z.mod_mul by (apply Z.pow_nonzero; lia).
    rewrite Z.eqb_refl, Z.div_mul by (apply Z.pow_nonzero; lia).
    f_equal; lia.
Qed.

(** C5 (as amended).  For an int32 or int64 field that carries a
    rule-set, [addValidationRules] sets [minimum] to [float64(gte)]
    exactly when the [gte] bound is greater than zero and [maximum] to
    [float64(lte)] exactly when the [lte] bound is greater than zero;
    otherwise the schema keeps what it had.  Both revisions agree.
    The float is the bound itself when the bound is below [2^53] (so
    for every int32 bound), and the IEEE-754 rounding of the bound in
    general. *)
Theorem bounds_projected_iff_positive
    (field : FieldDescriptor) (rules : FieldRules) (schema : Schema)
    (Hkind : fd_Kind field = Int32Kind \/ fd_Kind field = Int64Kind)
    (Hrules : fd_Rules field = Some rules)
    (Hmap : fd_MapValue field = None) :
  let gte := ruleGte (fd_Kind field) rules in
  let lte := ruleLte (fd_Kind field) rules in
  let schema' := projectBounds gte lte schema in
  addValidationRules (inline schema) field = inline schema'
  /\ ItemRules.fieldRule rules field schema = Some schema'
  /\ (fd_IsList field = false ->
      ItemRules.addValidationRules (inline schema) field = Some (inline schema'))
  /\ Schema_Minimum schema'
     = (if (0 <? gte)%Z then float64_of_int gte else Schema_Minimum schema)
  /\ Schema_Maximum schema'
     = (if (0 <? lte)%Z then float64_of_int lte else Schema_Maximum schema)
  /\ ((0 < gte < 2 ^ 53)%Z ->
      float64_integer (Schema_Minimum schema') = Some gte)
  /\ ((0 < lte < 2 ^ 53)%Z ->
      float64_integer (Schema_Maximum schema') = Some lte)
  /\ (forall v, (0 < v < 2 ^ 63)%Z ->
                FloatOps.Prim2SF (float64_of_int v)
                = SpecFloat.binary_normalize 53 1024 v 0 false).
Proof.
  cbv zeta.
  assert (Hmin : Schema_Minimum (projectBounds (ruleGte (fd_Kind field) rules)
                                   (ruleLte (fd_Kind field) rules) schema)
                 = if (0 <? ruleGte (fd_Kind field) rules)%Z
                   then float64_of_int (ruleGte (fd_Kind field) rules)
                   else Schema_Minimum schema).
  { unfold projectBounds.
    destruct (0 <? ruleGte _ _)%Z, (0 <? ruleLte _ _)%Z; reflexivity. }
  assert (Hmax : Schema_Maximum (projectBounds (ruleGte (fd_Kind field) rules)
                                   (ruleLte (fd_Kind field) rules) schema)
                 = if (0 <? ruleLte (fd_Kind field) rules)%Z
                   then float64_of_int (ruleLte (fd_Kind field) rules)
                   else Schema_Maximum schema).
  { unfold projectBounds.
    destruct (0 <? ruleGte _ _)%Z, (0 <? ruleLte _ _)%Z; reflexivity. }
  split; [|split; [|split; [|split; [|split; [|split; [|split]]]]]].
  - unfold addValidationRules, fd_IsMap, ruleGte, ruleLte, projectBounds.
    rewrite Hrules, Hmap.
    destruct Hkind as [-> | ->];
      [destruct (GetInt32 rules) as [r|]|destruct (GetInt64 rules) as [r|]];
      reflexivity.
  - unfold ItemRules.fieldRule, ruleGte, ruleLte, projectBounds.
    destruct Hkind as [-> | ->];
      [destruct (GetInt32 rules) as [r|]|destruct (GetInt64 rules) as [r|]];
      reflexivity.
  - intros Hl.
    unfold ItemRules.addValidationRules, ItemRules.fieldRule, fd_IsMap, ruleGte,
      ruleLte, projectBounds.
    rewrite Hrules, Hmap, Hl.
    destruct Hkind as [-> | ->];
      [destruct (GetInt32 rules) as [r|]|destruct (GetInt64 rules) as [r|]];
      reflexivity.
  - exact Hmin.
  - exact Hmax.
  - intros H. rewrite Hmin.
    destruct (Z.ltb_spec 0 (ruleGte (fd_Kind field) rules)); [|lia].
    apply float64_of_int_exact. exact H.
  - intros H. rewrite Hmax.
    destruct (Z.ltb_spec 0 (ruleLte (fd_Kind field) rules)); [|lia].
    apply float64_of_int_exact. exact H.
  - exact float64_of_int_rounds.
Qed.

Lemma bounds_projected_iff_positive_witness :
  addValidationRules (inline (typed_format "integer" "int64")) mynum
  = inline (set_Maximum Literal.thirty
              (set_Minimum Literal.one (typed_format "integer" "int64")))
  /\ float64_integer Literal.one = Some 1%Z
  /\ float64_integer Literal.thirty = Some 30%Z.
Proof.
  split; [|split; reflexivity].
  exact (proj1 (bounds_projected_iff_positive mynum
                  (Rules_Int64 {| i64_Gte := Some 1%Z; i64_Lte := Some 30%Z |})
                  (typed_format "integer" "int64")
                  (or_intror eq_refl) eq_refl eq_refl)).
Defined.

(** C5 as first stated fails for an int64 bound that is no float64:
    the lower bound [2^53 + 1] is written as [2^53]. *)
Lemma large_bound_is_rounded :
  ruleGte Int64Kind
    (Rules_Int64 {| i64_Gte := Some 9007199254740993%Z; i64_Lte := None |})
  = 9007199254740993%Z
  /\ addValidationRules (inline (typed_format "integer" "int64")) largeBound
     = inline (set_Minimum Literal.two_pow_53 (typed_format "integer" "int64"))
  /\ float64_integer Literal.two_pow_53 = Some 9007199254740992%Z.
Proof. repeat split. Qed.

(* ================================================================== *)
(** ** The properties of a message schema *)
(* ================================================================== *)



Lemma addField_snd conf pattern field acc acc' g :
  snd (addField conf pattern field acc g)
  = snd (addField conf pattern field acc' g).
Proof.
  unfold addField, bind. destruct acc, acc'.
  destruct (schemaOrReferenceForField conf (f_Desc field) g) as [[[r|s]|] g1];
    reflexivity.
Qed.



(* ================================================================== *)
(** ** What the options reach *)
(* ================================================================== *)

Section SameNaming.

Variables conf conf' : Configuration.
Hypothesis same_naming : conf_Naming conf = conf_Naming conf'.

Lemma formatMessageRef_naming name :
  formatMessageRef conf name = formatMessageRef conf' name.
Proof. unfold formatMessageRef. now rewrite same_naming. Qed.

Lemma formatFieldName_naming field :
  formatFieldName conf field = formatFieldName conf' field.
Proof. unfold formatFieldName. now rewrite same_naming. Qed.

Lemma findAndFormatFieldName_naming name inMessage :
  findAndFormatFieldName conf name inMessage
  = findAndFormatFieldName conf' name inMessage.
Proof.
  unfold findAndFormatFieldName.
  induction (m_Fields inMessage) as [|f fs IH]; simpl; [reflexivity|].
  now rewrite IH, formatFieldName_naming.
Qed.

Lemma schemaReferenceForTypeName_naming typeName g :
  schemaReferenceForTypeName conf typeName g
  = schemaReferenceForTypeName conf' typeName g.
Proof.
  unfold schemaReferenceForTypeName. now rewrite formatMessageRef_naming.
Qed.

Lemma schemaOrReferenceForType_naming typeName g :
  schemaOrReferenceForType conf typeName g
  = schemaOrReferenceForType conf' typeName g.
Proof.
  unfold schemaOrReferenceForType.
  repeat match goal with
         | |- context [if ?b then _ else _] => destruct b; [reflexivity|]
         end.
  unfold bind. now rewrite schemaReferenceForTypeName_naming.
Qed.

Lemma schemaOrReferenceForField_naming field :
  forall g,
    schemaOrReferenceForField conf field g
    = schemaOrReferenceForField conf' field g.
Proof.
  induction field as [f Hf|f v Hf IH] using FieldDescriptor_map_ind;
    intros g; rewrite !schemaOrReferenceForField_unfold, Hf; unfold bind.
  - unfold kindSchemaOf.
    destruct (fd_Kind f); try reflexivity.
    now rewrite schemaOrReferenceForType_naming.
  - now rewrite IH.
Qed.

Lemma queryParameters_naming fields covered :
  forall g,
    queryParameters conf fields covered g
    = queryParameters conf' fields covered g.
Proof.
  induction fields as [|f fields IH]; intros g; simpl; [reflexivity|].
  destruct (negb _); [|apply IH].
  unfold queryParameter. unfold bind.
  rewrite schemaOrReferenceForField_naming, formatFieldName_naming.
  destruct (schemaOrReferenceForField conf' (f_Desc f) g) as [s g1].
  unfold ret. now rewrite IH.
Qed.

Lemma simplePathParameters_naming allMatches inputMessage :
  forall covered path pathParameters,
    simplePathParameters conf allMatches inputMessage covered path pathParameters
    = simplePathParameters conf' allMatches inputMessage covered path
        pathParameters.
Proof.
  induction allMatches as [|m rest IH]; intros covered path pp; simpl;
    [reflexivity|].
  now rewrite IH, findAndFormatFieldName_naming.
Qed.

Lemma namedPathParts_naming inputMessage :
  forall n parts,
    List.length parts <= n ->
    namedPathParts conf parts inputMessage
    = namedPathParts conf' parts inputMessage.
Proof.
  induction n as [|n IH]; intros parts L.
  - destruct parts; [reflexivity|simpl in L; lia].
  - destruct parts as [|a [|b rest]]; try reflexivity.
    cbn [namedPathParts]. rewrite findAndFormatFieldName_naming.
    rewrite (IH rest) by (simpl in L; lia). reflexivity.
Qed.

Lemma pathParametersOf_naming path bodyField inputMessage :
  pathParametersOf conf path bodyField inputMessage
  = pathParametersOf conf' path bodyField inputMessage.
Proof.
  unfold pathParametersOf. rewrite simplePathParameters_naming.
  destruct (simplePathParameters conf' _ _ _ _ _) as [[covered p] pp].
  destruct (Regexp.namedPathPattern_Find p) as [[[whole name] starred]|];
    [|reflexivity].
  now rewrite (namedPathParts_naming inputMessage _ _ (Nat.le_refl _)).
Qed.

Lemma buildOperationV3_naming summary operationID tagName description path
    bodyField inputMessage outputMessage g :
  buildOperationV3 conf summary operationID tagName description path bodyField
    inputMessage outputMessage g
  = buildOperationV3 conf' summary operationID tagName description path
      bodyField inputMessage outputMessage g.
Proof.
  unfold buildOperationV3. rewrite pathParametersOf_naming.
  destruct (pathParametersOf conf' path bodyField inputMessage)
    as [[[covered p'] pp] np].
  unfold bind.
  assert (Q : (if negb (String.eqb bodyField "*")
               then queryParameters conf (m_Fields inputMessage) covered
               else ret []) g
              = (if negb (String.eqb bodyField "*")
                 then queryParameters conf' (m_Fields inputMessage) covered
                 else ret []) g).
  { destruct (negb _); [apply queryParameters_naming|reflexivity]. }
  rewrite Q. clear Q.
  destruct ((if negb (String.eqb bodyField "*")
             then queryParameters conf' (m_Fields inputMessage) covered
             else ret []) g) as [query g1].
  assert (R : responseContentForMessage conf outputMessage g1
              = responseContentForMessage conf' outputMessage g1).
  { unfold responseContentForMessage.
    repeat match goal with
           | |- context [if ?b then _ else _] => destruct b; [reflexivity|]
           end.
    unfold bind. now rewrite schemaReferenceForTypeName_naming. }
  rewrite R. clear R.
  destruct (responseContentForMessage conf' outputMessage g1) as [content g2].
  destruct (negb (String.eqb bodyField "")); [|reflexivity].
  assert (B : requestSchemaFor conf bodyField inputMessage g2
              = requestSchemaFor conf' bodyField inputMessage g2).
  { unfold requestSchemaFor.
    destruct (if String.eqb bodyField "*" then _ else _) as [scalar msg].
    repeat match goal with
           | |- context [if ?b then _ else _] => destruct b; try reflexivity
           end.
    unfold bind. now rewrite schemaReferenceForTypeName_naming. }
  now rewrite B.
Qed.

End SameNaming.

(** X21.  An operation does not depend on the [validate] option: two
    configurations with the same naming give the same operation, the
    same path and the same accumulators.  So the validation rules of a
    field are written on its query parameter even with [validate] off,
    while the property of a message schema then carries none. *)
Theorem operations_ignore_the_validate_option (conf conf' : Configuration)
    (summary operationID tagName description path bodyField : string)
    (inputMessage outputMessage : Message) (g : Generator) :
  conf_Naming conf = conf_Naming conf' ->
  buildOperationV3 conf summary operationID tagName description path bodyField
    inputMessage outputMessage g
  = buildOperationV3 conf' summary operationID tagName description path
      bodyField inputMessage outputMessage g.
Proof. intros H. now apply buildOperationV3_naming. Qed.

Lemma operations_ignore_the_validate_option_witness :
  buildOperationV3 noValidation "" "Library_List" "Library" "" "/v1/books" ""
    ListRequest Sample.Book NewOpenAPIv3Generator
  = buildOperationV3 defaultConf "" "Library_List" "Library" "" "/v1/books" ""
      ListRequest Sample.Book NewOpenAPIv3Generator
  /\ map (fun p => (Param_Name p, Param_Schema p))
       (Op_Parameters
          (fst (fst (buildOperationV3 noValidation "" "Library_List" "Library"
                       "" "/v1/books" "" ListRequest Sample.Book
                       NewOpenAPIv3Generator))))
     = [("mynum",
         inline (set_Maximum Literal.thirty
                   (set_Minimum Literal.one (typed_format "integer" "int64"))))]
  /\ map snd
       (fst (fst (addFields noValidation "" (m_Fields ListRequest) ([], [])
                    NewOpenAPIv3Generator)))
     = [inline (set_Description "" (typed_format "integer" "int64"))].
Proof.
  split; [|split; reflexivity].
  apply (operations_ignore_the_validate_option noValidation defaultConf).
  reflexivity.
Defined.

(* ================================================================== *)
(** ** Renaming of path parameters *)
(* ================================================================== *)

Lemma findAndFormatFieldName_proto conf name inMessage :
  conf_Naming conf = "proto" ->
  findAndFormatFieldName conf name inMessage = name.
Proof.
  intros H. unfold findAndFormatFieldName.
  induction (m_Fields inMessage) as [|f fs IH]; simpl; [reflexivity|].
  destruct (String.eqb (fd_Name (f_Desc f)) name) eqn:E; [|exact IH].
  apply String.eqb_eq in E. unfold formatFieldName. now rewrite H.
Qed.

Lemma renamedPath_proto conf path inputMessage :
  conf_Naming conf = "proto" ->
  renamedPath conf path inputMessage = path.
Proof.
  intros H. unfold renamedPath.
  generalize (Regexp.pathPattern_FindAll path) as l.
  intros l. revert path.
  induction l as [|m l IH]; intros path; simpl; [reflexivity|].
  rewrite findAndFormatFieldName_proto by exact H.
  rewrite ReplaceFirst_same. apply IH.
Qed.

(** X22.  With proto naming a path parameter keeps its name, so the
    loop over the simple path parameters leaves the path as it is: for
    a path without a named parameter [buildOperationV3] works on the
    path it was given, the covered names are the body selector and the
    brace names, and the path parameters are the brace names.  (With
    JSON naming the name is replaced at its first occurrence in the
    path, which can be a literal segment rather than the braces.) *)
Theorem proto_naming_keeps_simple_paths (conf : Configuration)
    (path bodyField : string) (inputMessage : Message) :
  conf_Naming conf = "proto" ->
  (forall name, findAndFormatFieldName conf name inputMessage = name)
  /\ renamedPath conf path inputMessage = path
  /\ (Regexp.namedPathPattern_Find path = None ->
      pathParametersOf conf path bodyField inputMessage
      = (((if String.eqb bodyField "" then [] else [bodyField])
          ++ Regexp.pathPattern_FindAll path)%list,
         path, Regexp.pathPattern_FindAll path, [])).
Proof.
  intros H. split; [|split].
  - intros name. now apply findAndFormatFieldName_proto.
  - now apply renamedPath_proto.
  - intros Hn. unfold pathParametersOf. rewrite simplePathParameters_eq.
    pose proof (renamedPath_proto conf path inputMessage H) as R.
    unfold renamedPath in R. rewrite R, Hn. cbn [app].
    rewrite (map_ext _ (fun m => m))
      by (intros m; now apply findAndFormatFieldName_proto).
    rewrite map_id. now destruct (String.eqb bodyField "").
Qed.

Lemma proto_naming_keeps_simple_paths_witness :
  pathParametersOf protoConf "/v1/message_id/{message_id}" ""
    Sample.GetMessageRequest
  = (["message_id"], "/v1/message_id/{message_id}", ["message_id"], [])
  /\ pathParametersOf defaultConf "/v1/message_id/{message_id}" ""
       Sample.GetMessageRequest
     = (["message_id"], "/v1/messageId/{message_id}", ["messageId"], []).
Proof.
  split; [|reflexivity].
  destruct (proto_naming_keeps_simple_paths protoConf
              "/v1/message_id/{message_id}" "" Sample.GetMessageRequest
              eq_refl) as (_ & _ & H).
  exact (H eq_refl).
Defined.
